(** * geometric_shapes: shape_operations

    A shallow embedding of [shapes::createMeshFromVertices],
    [shapes::constructShapeFromMsg], [shapes::constructMsgFromShape],
    [shapes::computeShapeExtents], [shapes::saveAsText] and
    [shapes::constructShapeFromText] (src/src/shape_operations.cpp), and the
    properties of the specification that are stated about them; then of the
    other functions of the file, [shapes::createMeshFromAsset],
    [shapes::createMeshFromBinary], [shapes::createMeshFromResource],
    [shapes::constructMarkerFromShape] and [shapes::shapeStringName], with
    further properties of all of them.

    Conventions of the embedding.
    - [double] is Rocq's primitive binary64 [float]; [<] and [>] on doubles
      are [PrimFloat.ltb] (false as soon as an operand is NaN).
    - [unsigned int] is a [Z] reduced modulo 2^32 by [u32] at every
      assignment that can truncate.
    - [std::vector<T>] is [list T]; a heap array [new T[n]] is a [list T] of
      length [n]; a pointer that may be [NULL] is an [option].
    - console_bridge's [logError] / [logWarn] append to an explicit log. *)

From Stdlib Require Import Ascii String.
From Stdlib Require Import ZArith List Bool Lia Floats.
From Stdlib Require Import Permutation Sorted.
Import ListNotations.
Open Scope string_scope.
Open Scope list_scope.
Open Scope Z_scope.

Infix "+++" := String.append (at level 60, right associativity).

(** ** Machine integers and loops *)

(** [unsigned int]: 32 bits, arithmetic modulo 2^32. *)
Definition u32 (z : Z) : Z := z mod 2 ^ 32.

(** [std::vector::size()], a [size_t]. *)
Definition size {A : Type} (v : list A) : Z := Z.of_nat (length v).

(** [for (unsigned int i = 0 ; i < n ; ++i) body], for a bound [n] that the
    32-bit counter reaches (n < 2^32; beyond it the counter of the source wraps
    and the loop does not end). *)
Definition for_loop {S : Type} (n : Z) (body : Z -> S -> S) (s0 : S) : S :=
  fold_left (fun s i => body (Z.of_nat i) s) (seq 0 (Z.to_nat n)) s0.

(** [a[i]] read from a vector or array; the default stands for the read out
    of range, which the source does not guard. *)
Definition at_ {A : Type} (d : A) (a : list A) (i : Z) : A :=
  if i <? 0 then d else nth (Z.to_nat i) a d.

(** [a[i] = v]; a write out of range falls outside the array and leaves the
    array as it is. *)
Fixpoint store_nat {A : Type} (i : nat) (v : A) (a : list A) : list A :=
  match a, i with
  | [], _ => []
  | _ :: a', O => v :: a'
  | e :: a', Datatypes.S i' => e :: store_nat i' v a'
  end.

Definition store {A : Type} (i : Z) (v : A) (a : list A) : list A :=
  if i <? 0 then a else store_nat (Z.to_nat i) v a.

(** [std::copy(first, last, dst)] into an array: element [k] of the source
    lands in slot [k]; what does not fit falls outside the array. *)
Definition std_copy {A : Type} (src dst : list A) : list A :=
  firstn (length dst) src ++ skipn (length src) dst.

(** ** [std::set<T, Compare>]

    The elements are kept in increasing order of the comparator, as the
    iteration of a [std::set] yields them; [find] and [insert] are the
    lower-bound searches of the standard container, written over the ordered
    sequence instead of the balanced tree. *)

Module StdSet.
Section WithCompare.
Context {T : Type} (comp : T -> T -> bool).

(** the elements from the first one that is not less than [k] on *)
Fixpoint lower_bound (k : T) (s : list T) : list T :=
  match s with
  | [] => []
  | e :: s' => if comp e k then lower_bound k s' else s
  end.

(** [s.find(k)]: [None] is [s.end()] *)
Definition find (k : T) (s : list T) : option T :=
  match lower_bound k s with
  | [] => None
  | e :: _ => if comp k e then None else Some e
  end.

(** [s.insert(k)]: nothing is added when an equivalent element is there *)
Fixpoint insert (k : T) (s : list T) : list T :=
  match s with
  | [] => [k]
  | e :: s' =>
      if comp e k then e :: insert k s'
      else if comp k e then k :: s
      else s
  end.

(** [std::sort(first, last, comp)], as an insertion sort: on keys that the
    comparator tells apart every sorting algorithm gives the same result. *)
Fixpoint sort_insert (k : T) (l : list T) : list T :=
  match l with
  | [] => [k]
  | e :: l' => if comp k e then k :: l else e :: sort_insert k l'
  end.

Definition sort (l : list T) : list T := fold_right sort_insert [] l.
End WithCompare.
End StdSet.

(** ** Points *)

Module Eigen.
Record Vector3d : Type := mkVector3d { x : float; y : float; z : float }.
End Eigen.

Module detail.
(** Local representation of a vertex that knows its position in an array *)
Record LocalVertexType : Type := mkLocalVertex {
  x : float; y : float; z : float; index : Z
}.

(** Sorting operator by point value *)
Definition ltLocalVertexValue (p1 p2 : LocalVertexType) : bool :=
  if PrimFloat.ltb (x p1) (x p2) then true
  else if PrimFloat.ltb (x p2) (x p1) then false
  else if PrimFloat.ltb (y p1) (y p2) then true
  else if PrimFloat.ltb (y p2) (y p1) then false
  else if PrimFloat.ltb (z p1) (z p2) then true
  else false.

(** Sorting operator by point index *)
Definition ltLocalVertexIndex (p1 p2 : LocalVertexType) : bool :=
  index p1 <? index p2.

Definition with_index (p : LocalVertexType) (i : Z) : LocalVertexType :=
  mkLocalVertex (x p) (y p) (z p) i.
End detail.

(** ** The shapes (geometric_shapes/shapes.h) *)

(** Modelled from the spec: [ShapeType] is declared in shapes.h, which is
    not among the source files. Section 3 lists the discriminants;
    [UNKNOWN_SHAPE] is the value of a shape that is none of them. *)
Inductive ShapeType : Type :=
| UNKNOWN_SHAPE | SPHERE | CYLINDER | CONE | BOX | PLANE | MESH | OCTREE.

(** Modelled from the spec: the class [Mesh] is declared in shapes.h, which
    is not among the source files. Section 3: [vertex_count] and
    [triangle_count] are uint32, [vertices] is a flat array of
    3*vertex_count doubles, [triangles] a flat array of 3*triangle_count
    indices, [normals] an array of 3*triangle_count doubles. *)
Record Mesh : Type := mkMesh {
  vertex_count : Z;
  triangle_count : Z;
  vertices : list float;
  triangles : list Z;
  normals : list float
}.

(** Modelled from the spec: the shape classes are declared in shapes.h.
    Section 3 gives each variant its discriminant and its numeric fields;
    [OcTree] is opaque, and [UnknownShape] stands for a [Shape] whose
    discriminant is none of the recognised ones. *)
Inductive Shape : Type :=
| Sphere (radius : float)
| Box (size0 size1 size2 : float)
| Cylinder (radius length : float)
| Cone (radius length : float)
| Plane (a b c d : float)
| MeshShape (m : Mesh)
| OcTree
| UnknownShape.

Definition shape_type (s : Shape) : ShapeType :=
  match s with
  | Sphere _ => SPHERE
  | Box _ _ _ => BOX
  | Cylinder _ _ => CYLINDER
  | Cone _ _ => CONE
  | Plane _ _ _ _ => PLANE
  | MeshShape _ => MESH
  | OcTree => OCTREE
  | UnknownShape => UNKNOWN_SHAPE
  end.

(** ** Diagnostics (console_bridge) *)

Inductive LogLevel : Type := LOG_WARN | LOG_ERROR.

(** the arguments of a format: an [int], a C string, and a [ShapeType]
    cast to [int] (the values of the enumerators are those of shapes.h) *)
Inductive LogArg : Type :=
| ArgInt (n : Z)
| ArgStr (s : string)
| ArgShapeType (t : ShapeType).

Record LogEntry : Type := mkLog {
  log_level : LogLevel;
  log_format : string;
  log_args : list LogArg
}.

Definition logError (fmt : string) (args : list LogArg) : list LogEntry :=
  [mkLog LOG_ERROR fmt args].

Definition logWarn (fmt : string) (args : list LogArg) : list LogEntry :=
  [mkLog LOG_WARN fmt args].

(** ** The character streams ([std::ostream], [std::istream])

    An output stream is the string written so far; an input stream is the
    string still to be read with the state bits [eofbit] and [failbit]. The
    conversions are those of the standard library for a stream with its
    default flags in the "C" locale: a [double] is written as [printf]'s
    [%g] with precision 6 and read by [num_get] and [strtod], correctly
    rounded. *)

Module ios.

(** [std::isspace] in the "C" locale *)
Definition isspace (c : ascii) : bool :=
  let n := Z.of_nat (nat_of_ascii c) in
  (n =? 32) || ((9 <=? n) && (n <=? 13)).

Definition isdigit (c : ascii) : bool :=
  let n := Z.of_nat (nat_of_ascii c) in
  (48 <=? n) && (n <=? 57).

Definition digit_value (c : ascii) : Z := Z.of_nat (nat_of_ascii c) - 48.

Definition digit_char (d : Z) : ascii := ascii_of_nat (Z.to_nat (48 + d)).

(** *** Formatted output *)

(** an integer in decimal, without padding: the digits are produced from
    the least significant one *)
Fixpoint decimal_aux (fuel : nat) (n : Z) (acc : string) : string :=
  match fuel with
  | O => acc
  | Datatypes.S f =>
      let acc := String (digit_char (n mod 10)) acc in
      if n <? 10 then acc else decimal_aux f (n / 10) acc
  end.

Definition decimal (n : Z) : string :=
  decimal_aux (Datatypes.S (Z.to_nat (Z.log2 n))) n "".

(** [n] in exactly [w] decimal digits *)
Fixpoint fixed_digits (w : nat) (n : Z) : string :=
  match w with
  | O => ""
  | Datatypes.S w' =>
      String (digit_char ((n / 10 ^ Z.of_nat w') mod 10)) (fixed_digits w' n)
  end.

(** trailing zeros removed *)
Fixpoint strip_zeros (s : string) : string :=
  match s with
  | "" => ""
  | String c s' =>
      match strip_zeros s' with
      | "" => if Ascii.eqb c "0" then ""%string else String c ""
      | r => String c r
      end
  end.

(** [num/den] rounded to the nearest integer, ties to even *)
Definition div_rne (num den : Z) : Z :=
  let q := num / den in
  match 2 * (num mod den) ?= den with
  | Lt => q
  | Gt => q + 1
  | Eq => if Z.even q then q else q + 1
  end.

Fixpoint ilog10_aux (fuel : nat) (n : Z) : Z :=
  match fuel with
  | O => 0
  | Datatypes.S f => if n <? 10 then 0 else 1 + ilog10_aux f (n / 10)
  end.

Fixpoint neg_exp10 (fuel : nat) (num den : Z) : Z :=
  match fuel with
  | O => 0
  | Datatypes.S f => if den <=? num then 0 else 1 + neg_exp10 f (10 * num) den
  end.

(** the [X] with 10^X <= num/den < 10^(X+1), for a positive quotient *)
Definition decimal_exponent (num den : Z) : Z :=
  if den <=? num then ilog10_aux (Datatypes.S (Z.to_nat (Z.log2 num))) (num / den)
  else - neg_exp10 (Datatypes.S (Z.to_nat (Z.log2 den))) num den.

(** [num/den / 10^(X-5)], rounded: the six significant digits *)
Definition six_digits (num den X : Z) : Z :=
  if 5 <=? X then div_rne num (den * 10 ^ (X - 5))
  else div_rne (num * 10 ^ (5 - X)) den.

Definition fraction (digits : string) : string :=
  match strip_zeros digits with
  | "" => ""
  | f => String "." f
  end.

(** [printf("%.6g")] of the positive number [num/den] *)
Definition print_positive (num den : Z) : string :=
  let X0 := decimal_exponent num den in
  let D0 := six_digits num den X0 in
  let D := if D0 =? 1000000 then 100000 else D0 in
  let X := if D0 =? 1000000 then X0 + 1 else X0 in
  if (X <? -4) || (6 <=? X) then
    fixed_digits 1 (D / 100000) +++ fraction (fixed_digits 5 (D mod 100000))
    +++ "e" +++ (if X <? 0 then "-" else "+")
    +++ (if Z.abs X <? 10 then "0" else "") +++ decimal (Z.abs X)
  else
    let p := 5 - X in
    decimal (D / 10 ^ p) +++ fraction (fixed_digits (Z.to_nat p) (D mod 10 ^ p)).

(** [out << d] for a [double], with the stream's default flags: the
    conversion [%g] with precision 6 *)
Definition print_double (d : float) : string :=
  match Prim2SF d with
  | S754_nan => "nan"
  | S754_infinity s => (if s then "-" else "") +++ "inf"
  | S754_zero s => (if s then "-" else "") +++ "0"
  | S754_finite s m e =>
      (if s then "-" else "")
      +++ (if 0 <=? e then print_positive (Z.pos m * 2 ^ e) 1
           else print_positive (Z.pos m) (2 ^ (- e)))
  end.

(** *** Formatted input *)

Record istream : Type := mkIstream {
  buffer : string;      (* the characters not read yet *)
  eofbit : bool;
  failbit : bool
}.

Definition good (i : istream) : bool := negb (eofbit i) && negb (failbit i).
Definition eof (i : istream) : bool := eofbit i.

Definition is_empty (s : string) : bool :=
  match s with "" => true | _ => false end.

Fixpoint skipws (s : string) : string :=
  match s with
  | "" => ""
  | String c s' => if isspace c then skipws s' else s
  end.

(** [istream::sentry]: a stream that is not good fails; leading white
    space is skipped, and running into the end while skipping fails too. *)
Definition sentry (i : istream) : bool * istream :=
  if good i then
    match skipws (buffer i) with
    | "" => (false, mkIstream "" true true)
    | b => (true, mkIstream b false false)
    end
  else (false, mkIstream (buffer i) (eofbit i) true).

(** the characters up to the next white space *)
Fixpoint word (s : string) : string * string :=
  match s with
  | "" => ("", "")
  | String c s' =>
      if isspace c then ("", s)
      else let (w, r) := word s' in (String c w, r)
  end.

(** [in >> str] for a [std::string]; [None]: the variable is left as it was *)
Definition extract_string (i : istream) : option string * istream :=
  let (ok, i) := sentry i in
  if ok then
    let (w, r) := word (buffer i) in
    (Some w, mkIstream r (is_empty r) false)
  else (None, i).

Fixpoint span_digits (s : string) : string * string :=
  match s with
  | "" => ("", "")
  | String c s' =>
      if isdigit c then let (d, r) := span_digits s' in (String c d, r)
      else ("", s)
  end.

Fixpoint number (acc : Z) (ds : string) : Z :=
  match ds with
  | "" => acc
  | String c r => number (10 * acc + digit_value c) r
  end.

Definition take_sign (s : string) : bool * string :=
  match s with
  | String c r =>
      if Ascii.eqb c "-" then (true, r)
      else if Ascii.eqb c "+" then (false, r)
      else (false, s)
  | "" => (false, s)
  end.

(** [num_get]'s accumulation of a floating-point field (stage 2): the
    loop over digits, one decimal point, and one exponent mark with its
    optional sign; it stops at the first character that does not fit. *)
Fixpoint float_loop (found_mantissa found_dec found_sci : bool) (s : string)
    : string * string :=
  match s with
  | "" => ("", "")
  | String c s' =>
      if isdigit c then
        let (x, r) := float_loop true found_dec found_sci s' in (String c x, r)
      else if Ascii.eqb c "." && negb found_dec && negb found_sci then
        let (x, r) := float_loop found_mantissa true found_sci s' in
        (String "." x, r)
      else if (Ascii.eqb c "e" || Ascii.eqb c "E") && negb found_sci
              && found_mantissa then
        match s' with
        | "" => ("e", "")
        | String c2 s'' =>
            if Ascii.eqb c2 "+" || Ascii.eqb c2 "-" then
              let (x, r) := float_loop found_mantissa found_dec true s'' in
              (String "e" (String c2 x), r)
            else
              let (x, r) := float_loop found_mantissa found_dec true s' in
              (String "e" x, r)
        end
      else ("", s)
  end.

(** the leading zeros, of which one is kept *)
Fixpoint skip_zeros (s : string) : string :=
  match s with
  | String c s' => if Ascii.eqb c "0" then skip_zeros s' else s
  | "" => s
  end.

Definition starts_with (c : ascii) (s : string) : bool :=
  match s with
  | String c' _ => Ascii.eqb c' c
  | "" => false
  end.

Definition extract_float (s : string) : string * string :=
  let '(sign, s) :=
    match s with
    | String c r =>
        if Ascii.eqb c "-" then ("-", r)
        else if Ascii.eqb c "+" then ("+", r)
        else ("", s)
    | "" => ("", s)
    end in
  let found_mantissa := starts_with "0" s in
  let '(x, r) := float_loop found_mantissa false false (skip_zeros s) in
  (sign +++ (if found_mantissa then "0" else "") +++ x, r).

(** the double nearest to [(-1)^neg * n * 10^k]; an infinity when the
    number is out of range *)
Definition decimal_to_double (neg : bool) (n k : Z) : float :=
  SF2Prim
    match n with
    | Z.pos p =>
        if 0 <=? k then binary_normalize prec emax ((if neg then -1 else 1) * n * 10 ^ k) 0 false
        else SFdiv prec emax (S754_finite neg p 0)
                             (S754_finite false (Z.to_pos (10 ^ (- k))) 0)
    | _ => S754_zero neg
    end.

(** [strtod] on the accumulated characters; [None] when it does not use
    all of them *)
Definition convert_double (xtrc : string) : option float :=
  let (neg, s) := take_sign xtrc in
  let (ip, s) := span_digits s in
  let (fp, s) :=
    match s with
    | String "." r => span_digits r
    | _ => ("", s)
    end in
  if is_empty ip && is_empty fp then None
  else
    let ex :=
      match s with
      | String "e" r =>
          let (eneg, r) := take_sign r in
          let (ed, r) := span_digits r in
          if is_empty ed then None
          else Some (if eneg then - number 0 ed else number 0 ed, r)
      | _ => Some (0, s)
      end in
    match ex with
    | Some (e, "") =>
        Some (decimal_to_double neg (number 0 (ip +++ fp))
                                (e - Z.of_nat (String.length fp)))
    | _ => None
    end.

Definition DBL_MAX : float := 0x1.fffffffffffffp+1023%float.

(** the value stored by a conversion and whether it failed: zero when
    nothing could be converted, the largest finite value of the sign when
    the number is out of range *)
Definition convert_to_v (xtrc : string) : float * bool :=
  match convert_double xtrc with
  | None => (0%float, true)
  | Some v =>
      if PrimFloat.eqb v infinity then (DBL_MAX, true)
      else if PrimFloat.eqb v neg_infinity then ((- DBL_MAX)%float, true)
      else (v, false)
  end.

(** [in >> d] for a [double]. [None]: the sentry failed and the variable is
    left as it was; [Some v]: [v] is stored, also by a conversion that
    fails, which the [failbit] of the stream tells. *)
Definition extract_double (i : istream) : option float * istream :=
  let (ok, i) := sentry i in
  if ok then
    let (xtrc, r) := extract_float (buffer i) in
    let (v, fail) := convert_to_v xtrc in
    (Some v, mkIstream r (is_empty r) fail)
  else (None, i).

Definition UINT_MAX : Z := 2 ^ 32 - 1.

(** [in >> n] for an [unsigned int], base ten: zero is stored when there
    is no digit, the largest value when the digits are out of range, and
    the negation modulo 2^32 after a minus sign *)
Definition extract_uint (i : istream) : option Z * istream :=
  let (ok, i) := sentry i in
  if ok then
    let (neg, s) := take_sign (buffer i) in
    let (ds, r) := span_digits s in
    let n := number 0 ds in
    if is_empty ds then (Some 0, mkIstream r (is_empty r) true)
    else if UINT_MAX <? n then (Some UINT_MAX, mkIstream r (is_empty r) true)
    else (Some ((if neg then - n else n) mod 2 ^ 32),
          mkIstream r (is_empty r) false)
  else (None, i).

End ios.

(** ** The messages (shape_msgs, geometry_msgs, shape_messages.h) *)

Module geometry_msgs.
Record Point : Type := mkPoint { x : float; y : float; z : float }.
End geometry_msgs.

Module shape_msgs.
(** SolidPrimitive.msg: [type] is a uint8, [dimensions] a float64[]. *)
Record SolidPrimitive : Type := mkSolidPrimitive {
  type : Z;
  dimensions : list float
}.

(** the kinds of primitive, constants of SolidPrimitive.msg (package
    shape_msgs) *)
Definition BOX : Z := 1.
Definition SPHERE : Z := 2.
Definition CYLINDER : Z := 3.
Definition CONE : Z := 4.

(** Modelled from the spec: the offsets into [dimensions] are constants of
    the message definition, which is not among the source files. Section
    6: sphere uses offset 0 for radius; box uses offsets 0,1,2 for x,y,z;
    cylinder/cone use offsets 0,1 for radius,height. *)
Definition SPHERE_RADIUS : Z := 0.
Definition BOX_X : Z := 0.
Definition BOX_Y : Z := 1.
Definition BOX_Z : Z := 2.
Definition CYLINDER_RADIUS : Z := 0.
Definition CYLINDER_HEIGHT : Z := 1.
Definition CONE_RADIUS : Z := 0.
Definition CONE_HEIGHT : Z := 1.

(** Plane.msg: [coef] is a float64[4]. *)
Record Plane : Type := mkPlane {
  coef0 : float; coef1 : float; coef2 : float; coef3 : float
}.

(** MeshTriangle.msg: [vertex_indices] is a uint32[3]. *)
Record MeshTriangle : Type := mkMeshTriangle {
  vertex_indices0 : Z; vertex_indices1 : Z; vertex_indices2 : Z
}.

(** Mesh.msg *)
Record Mesh : Type := mkMesh {
  triangles : list MeshTriangle;
  vertices : list geometry_msgs.Point
}.
End shape_msgs.

Module shape_tools.
(** Modelled from the spec: [SolidPrimitiveDimCount<kind>::value] is
    declared in shape_tools/solid_primitive_dims.h, which is not among the
    source files. Section 4.2: a sphere needs 1 value, a box 3, a cylinder
    and a cone 2. *)
Definition SolidPrimitiveDimCount (kind : Z) : Z :=
  if kind =? shape_msgs.SPHERE then 1
  else if kind =? shape_msgs.BOX then 3
  else if kind =? shape_msgs.CYLINDER then 2
  else if kind =? shape_msgs.CONE then 2
  else 0.
End shape_tools.

(** [typedef boost::variant<SolidPrimitive, Mesh, Plane> ShapeMsg] *)
Inductive ShapeMsg : Type :=
| SolidPrimitiveMsg (s : shape_msgs.SolidPrimitive)
| MeshMsg (s : shape_msgs.Mesh)
| PlaneMsg (s : shape_msgs.Plane).

(** Modelled from the spec: the names are constants of shapes.cpp, which is
    not among the source files. Section 6: the first token is one of the
    literal type names sphere, box, cylinder, cone, plane, mesh. *)
Definition Sphere_STRING_NAME : string := "sphere".
Definition Box_STRING_NAME : string := "box".
Definition Cylinder_STRING_NAME : string := "cylinder".
Definition Cone_STRING_NAME : string := "cone".
Definition Plane_STRING_NAME : string := "plane".
Definition Mesh_STRING_NAME : string := "mesh".

Definition endl : string := String "010" "".

(** ** The scenes of the importer (assimp)

    An array with its count is a list: [mNumVertices] is the length of
    [mVertices], and so on; [HasMeshes()] holds when the array of the meshes
    is not empty. The components of a vector and of a matrix are [float]s
    in the source; every [float] is a [double], and the arithmetic on them
    is left to the library. *)

Module assimp.
Record aiVector3D : Type := mkVector3D { x : float; y : float; z : float }.

Record aiMatrix4x4 : Type := mkMatrix4x4 {
  a1 : float; a2 : float; a3 : float; a4 : float;
  b1 : float; b2 : float; b3 : float; b4 : float;
  c1 : float; c2 : float; c3 : float; c4 : float;
  d1 : float; d2 : float; d3 : float; d4 : float
}.

(** [aiMatrix4x4()]: the identity *)
Definition aiMatrix4x4_0 : aiMatrix4x4 :=
  mkMatrix4x4 1 0 0 0  0 1 0 0  0 0 1 0  0 0 0 1.

Record aiFace : Type := mkFace { mIndices : list Z }.

Record aiMesh : Type := mkMesh {
  mVertices : list aiVector3D;
  mFaces : list aiFace
}.

(** a node of the scene graph: its transformation relative to its parent,
    the indices of its meshes in the scene, its children *)
#[local] Unset Elimination Schemes.
Inductive aiNode : Type :=
| mkNode (mTransformation : aiMatrix4x4) (mMeshes : list Z) (mChildren : list aiNode).
#[local] Set Elimination Schemes.

Definition mTransformation (n : aiNode) : aiMatrix4x4 :=
  match n with mkNode t _ _ => t end.
Definition mMeshes (n : aiNode) : list Z :=
  match n with mkNode _ m _ => m end.
Definition mChildren (n : aiNode) : list aiNode :=
  match n with mkNode _ _ c => c end.
End assimp.

Module aiScene.
Record aiScene : Type := mkScene {
  mMeshes : list assimp.aiMesh;
  mRootNode : assimp.aiNode
}.

Definition HasMeshes (scene : aiScene) : bool :=
  match mMeshes scene with [] => false | _ => true end.
End aiScene.

(** ** The retriever of resources (resource_retriever)

    [Retriever::get] throws an [Exception] or returns a [MemoryResource],
    the bytes ([NULL] or an array) and their number. *)

Module resource_retriever.
Inductive Retrieved : Type :=
| Exception (what : string)
| MemoryResource (data : option string) (size : Z).

Record Retriever : Type := mkRetriever { get : string -> Retrieved }.
End resource_retriever.

(** ** The operations of shape_operations.cpp *)

Section Operations.

(** What a read of storage that was never written finds: [new T[n]] and a
    local variable without initialiser hold indeterminate values. Every
    statement below holds whatever they are. *)
Variable indeterminate_double : float.
Variable indeterminate_uint : Z.

Definition indeterminate_Vector3d : Eigen.Vector3d :=
  Eigen.mkVector3d indeterminate_double indeterminate_double indeterminate_double.

(** Modelled from the spec: the constructor [Mesh(v_count, t_count)] is in
    shapes.cpp, which is not among the source files. Section 3: the arrays
    are sized exactly at construction time, 3*vertex_count doubles,
    3*triangle_count indices and 3*triangle_count doubles. *)
Definition Mesh_new (v_count t_count : Z) : Mesh :=
  mkMesh v_count t_count
    (repeat indeterminate_double (Z.to_nat (3 * v_count)))
    (repeat indeterminate_uint (Z.to_nat (3 * t_count)))
    (repeat indeterminate_double (Z.to_nat (3 * t_count))).

Definition set_vertices (m : Mesh) (vs : list float) : Mesh :=
  mkMesh (vertex_count m) (triangle_count m) vs (triangles m) (normals m).

Definition set_triangles (m : Mesh) (ts : list Z) : Mesh :=
  mkMesh (vertex_count m) (triangle_count m) (vertices m) ts (normals m).

Definition set_normals (m : Mesh) (ns : list float) : Mesh :=
  mkMesh (vertex_count m) (triangle_count m) (vertices m) (triangles m) ns.

(** vertex [i] of a mesh: the three doubles at [3*i] *)
Definition Mesh_vertex (m : Mesh) (i : Z) : Eigen.Vector3d :=
  Eigen.mkVector3d
    (at_ indeterminate_double (vertices m) (3 * i))
    (at_ indeterminate_double (vertices m) (3 * i + 1))
    (at_ indeterminate_double (vertices m) (3 * i + 2)).

(** Modelled from the spec: [Mesh::computeNormals] is in shapes.cpp, which
    is not among the source files. Section 4.1: for each triangle
    (i0,i1,i2), normal = normalize(cross(v[i1]-v[i0], v[i2]-v[i0])); if the
    cross product has zero magnitude, a zero vector is stored. One normal
    per triangle, all of them recomputed on every call. *)
Definition triangle_normal (m : Mesh) (t : Z) : list float :=
  let v0 := Mesh_vertex m (at_ indeterminate_uint (triangles m) (3 * t)) in
  let v1 := Mesh_vertex m (at_ indeterminate_uint (triangles m) (3 * t + 1)) in
  let v2 := Mesh_vertex m (at_ indeterminate_uint (triangles m) (3 * t + 2)) in
  let s1x := (Eigen.x v1 - Eigen.x v0)%float in
  let s1y := (Eigen.y v1 - Eigen.y v0)%float in
  let s1z := (Eigen.z v1 - Eigen.z v0)%float in
  let s2x := (Eigen.x v2 - Eigen.x v0)%float in
  let s2y := (Eigen.y v2 - Eigen.y v0)%float in
  let s2z := (Eigen.z v2 - Eigen.z v0)%float in
  let nx := (s1y * s2z - s1z * s2y)%float in
  let ny := (s1z * s2x - s1x * s2z)%float in
  let nz := (s1x * s2y - s1y * s2x)%float in
  let len := PrimFloat.sqrt (nx * nx + ny * ny + nz * nz)%float in
  if PrimFloat.eqb len 0%float then [0%float; 0%float; 0%float]
  else [(nx / len)%float; (ny / len)%float; (nz / len)%float].

Definition computeNormals (m : Mesh) : Mesh :=
  set_normals m
    (flat_map (fun t => triangle_normal m (Z.of_nat t))
              (seq 0 (Z.to_nat (triangle_count m)))).

(** *** createMeshFromVertices(vertices, triangles), lines 119-134 *)

Definition createMeshFromVertices
    (in_vertices : list Eigen.Vector3d) (in_triangles : list Z) : Mesh :=
  let nt := u32 (size in_triangles / 3) in
  let mesh := Mesh_new (u32 (size in_vertices)) nt in
  let mesh :=
    for_loop (size in_vertices)
      (fun i mesh =>
         let vi := at_ indeterminate_Vector3d in_vertices i in
         let a := store (u32 (3 * i)) (Eigen.x vi) (vertices mesh) in
         let a := store (u32 (3 * i + 1)) (Eigen.y vi) a in
         let a := store (u32 (3 * i + 2)) (Eigen.z vi) a in
         set_vertices mesh a)
      mesh in
  let mesh := set_triangles mesh (std_copy in_triangles (triangles mesh)) in
  computeNormals mesh.

(** *** createMeshFromVertices(source), lines 136-208 *)

(** [LocalVertexType(const Eigen::Vector3d &v)]: the constructor copies the
    coordinates and leaves [index] unset. *)
Definition LocalVertexType_of (v : Eigen.Vector3d) : detail.LocalVertexType :=
  detail.mkLocalVertex (Eigen.x v) (Eigen.y v) (Eigen.z v) indeterminate_uint.

(** The block run for each of the three corners of a triangle (lines
    152-161, 163-172, 174-184): look the point up by value, give a new
    point the next id, push the id. The state is the set [vertices] and
    the vector [triangles]. *)
Definition add_vertex (p : Eigen.Vector3d)
    (st : list detail.LocalVertexType * list Z)
    : list detail.LocalVertexType * list Z :=
  let '(vertices, triangles) := st in
  let vt := LocalVertexType_of p in
  match StdSet.find detail.ltLocalVertexValue vt vertices with
  | None =>
      let vt := detail.with_index vt (u32 (size vertices)) in
      (StdSet.insert detail.ltLocalVertexValue vt vertices,
       triangles ++ [detail.index vt])
  | Some p1 =>
      let vt := detail.with_index vt (detail.index p1) in
      (vertices, triangles ++ [detail.index vt])
  end.

(** The body of the loop over the triangles (lines 148-185). *)
Definition soup_body (source : list Eigen.Vector3d) (i : Z)
    (st : list detail.LocalVertexType * list Z)
    : list detail.LocalVertexType * list Z :=
  let i3 := u32 (i * 3) in
  let st := add_vertex (at_ indeterminate_Vector3d source i3) st in
  let i3 := u32 (i3 + 1) in
  let st := add_vertex (at_ indeterminate_Vector3d source i3) st in
  let i3 := u32 (i3 + 1) in
  add_vertex (at_ indeterminate_Vector3d source i3) st.

Definition NOT_DIVISIBLE_BY_3 : string :=
  "The number of vertices to construct a mesh from is not divisible by 3. Probably constructed triangles will not make sense.".

Definition createMeshFromVertices_soup (source : list Eigen.Vector3d)
    : list LogEntry * option Mesh :=
  if size source <? 3 then ([], None)
  else
    let log :=
      if negb (size source mod 3 =? 0) then logError NOT_DIVISIBLE_BY_3 []
      else [] in
    let n := u32 (size source / 3) in
    let '(vertex_set, triangle_ids) :=
      for_loop n (soup_body source) ([], []) in
    (* sort our vertices *)
    let vt := StdSet.sort detail.ltLocalVertexIndex vertex_set in
    (* copy the data to a mesh structure *)
    let nt := u32 (size triangle_ids / 3) in
    let mesh := Mesh_new (u32 (size vt)) nt in
    let mesh :=
      for_loop (size vt)
        (fun i mesh =>
           let i3 := u32 (i * 3) in
           let vi := at_ (LocalVertexType_of indeterminate_Vector3d) vt i in
           let a := store i3 (detail.x vi) (vertices mesh) in
           let a := store (u32 (i3 + 1)) (detail.y vi) a in
           let a := store (u32 (i3 + 2)) (detail.z vi) a in
           set_vertices mesh a)
        mesh in
    let mesh := set_triangles mesh (std_copy triangle_ids (triangles mesh)) in
    (log, Some (computeNormals mesh)).

(** *** constructShapeFromMsg, lines 346-443 *)

Definition constructShapeFromMsg_Plane (shape_msg : shape_msgs.Plane)
    : list LogEntry * option Shape :=
  ([], Some (Plane (shape_msgs.coef0 shape_msg) (shape_msgs.coef1 shape_msg)
                   (shape_msgs.coef2 shape_msg) (shape_msgs.coef3 shape_msg))).

Definition is_nil {A : Type} (l : list A) : bool :=
  match l with [] => true | _ => false end.

Definition Point_0 : geometry_msgs.Point := geometry_msgs.mkPoint 0 0 0.
Definition MeshTriangle_0 : shape_msgs.MeshTriangle :=
  shape_msgs.mkMeshTriangle 0 0 0.

Definition constructShapeFromMsg_Mesh (shape_msg : shape_msgs.Mesh)
    : list LogEntry * option Shape :=
  if is_nil (shape_msgs.triangles shape_msg)
     || is_nil (shape_msgs.vertices shape_msg)
  then (logWarn "Mesh definition is empty" [], None)
  else
    let vs :=
      repeat indeterminate_Vector3d (length (shape_msgs.vertices shape_msg)) in
    let ts := repeat 0 (length (shape_msgs.triangles shape_msg) * 3) in
    let vs :=
      for_loop (size (shape_msgs.vertices shape_msg))
        (fun i vs =>
           let p := at_ Point_0 (shape_msgs.vertices shape_msg) i in
           store i (Eigen.mkVector3d (geometry_msgs.x p) (geometry_msgs.y p)
                                     (geometry_msgs.z p)) vs)
        vs in
    let ts :=
      for_loop (size (shape_msgs.triangles shape_msg))
        (fun i ts =>
           let t := at_ MeshTriangle_0 (shape_msgs.triangles shape_msg) i in
           let i3 := u32 (i * 3) in
           let ts := store i3 (shape_msgs.vertex_indices0 t) ts in
           let i3 := u32 (i3 + 1) in
           let ts := store i3 (shape_msgs.vertex_indices1 t) ts in
           let i3 := u32 (i3 + 1) in
           store i3 (shape_msgs.vertex_indices2 t) ts)
        ts in
    ([], Some (MeshShape (createMeshFromVertices vs ts))).

Definition UNABLE_TO_CONSTRUCT_SHAPE : string :=
  "Unable to construct shape corresponding to shape_msgect of type %d".

Definition constructShapeFromMsg_SolidPrimitive
    (shape_msg : shape_msgs.SolidPrimitive) : list LogEntry * option Shape :=
  let dims := shape_msgs.dimensions shape_msg in
  let dim := at_ indeterminate_double dims in
  let shape :=
    if shape_msgs.type shape_msg =? shape_msgs.SPHERE then
      if size dims >? shape_msgs.SPHERE_RADIUS
      then Some (Sphere (dim shape_msgs.SPHERE_RADIUS))
      else None
    else if shape_msgs.type shape_msg =? shape_msgs.BOX then
      if (size dims >? shape_msgs.BOX_X) && (size dims >? shape_msgs.BOX_Y)
         && (size dims >? shape_msgs.BOX_Z)
      then Some (Box (dim shape_msgs.BOX_X) (dim shape_msgs.BOX_Y)
                     (dim shape_msgs.BOX_Z))
      else None
    else if shape_msgs.type shape_msg =? shape_msgs.CYLINDER then
      if (size dims >? shape_msgs.CYLINDER_RADIUS)
         && (size dims >? shape_msgs.CYLINDER_HEIGHT)
      then Some (Cylinder (dim shape_msgs.CYLINDER_RADIUS)
                          (dim shape_msgs.CYLINDER_HEIGHT))
      else None
    else if shape_msgs.type shape_msg =? shape_msgs.CONE then
      if (size dims >? shape_msgs.CONE_RADIUS)
         && (size dims >? shape_msgs.CONE_HEIGHT)
      then Some (Cone (dim shape_msgs.CONE_RADIUS)
                      (dim shape_msgs.CONE_HEIGHT))
      else None
    else None in
  match shape with
  | None =>
      (logError UNABLE_TO_CONSTRUCT_SHAPE [ArgInt (shape_msgs.type shape_msg)],
       None)
  | Some sh => ([], Some sh)
  end.

(** [boost::apply_visitor(ShapeVisitorAlloc(), shape_msg)] *)
Definition constructShapeFromMsg (shape_msg : ShapeMsg)
    : list LogEntry * option Shape :=
  match shape_msg with
  | PlaneMsg m => constructShapeFromMsg_Plane m
  | MeshMsg m => constructShapeFromMsg_Mesh m
  | SolidPrimitiveMsg m => constructShapeFromMsg_SolidPrimitive m
  end.

(** *** constructMsgFromShape, lines 549-634

    The message is passed by reference: the function takes the message the
    caller holds and returns the one it holds afterwards. *)

Definition UNABLE_TO_CONSTRUCT_MSG : string :=
  "Unable to construct shape message for shape of type %d".

(** [s.dimensions.resize(n)] on a fresh message: [n] zeros *)
Definition resize_dimensions (kind : Z) : list float :=
  repeat 0%float (Z.to_nat (shape_tools.SolidPrimitiveDimCount kind)).

Definition constructMsgFromShape (shape : Shape) (shape_msg : ShapeMsg)
    : list LogEntry * (bool * ShapeMsg) :=
  match shape with
  | Sphere radius =>
      let d := resize_dimensions shape_msgs.SPHERE in
      let d := store shape_msgs.SPHERE_RADIUS radius d in
      ([], (true, SolidPrimitiveMsg
                    (shape_msgs.mkSolidPrimitive shape_msgs.SPHERE d)))
  | Box sz0 sz1 sz2 =>
      let d := resize_dimensions shape_msgs.BOX in
      let d := store shape_msgs.BOX_X sz0 d in
      let d := store shape_msgs.BOX_Y sz1 d in
      let d := store shape_msgs.BOX_Z sz2 d in
      ([], (true, SolidPrimitiveMsg
                    (shape_msgs.mkSolidPrimitive shape_msgs.BOX d)))
  | Cylinder radius length =>
      let d := resize_dimensions shape_msgs.CYLINDER in
      let d := store shape_msgs.CYLINDER_RADIUS radius d in
      let d := store shape_msgs.CYLINDER_HEIGHT length d in
      ([], (true, SolidPrimitiveMsg
                    (shape_msgs.mkSolidPrimitive shape_msgs.CYLINDER d)))
  | Cone radius length =>
      let d := resize_dimensions shape_msgs.CONE in
      let d := store shape_msgs.CONE_RADIUS radius d in
      let d := store shape_msgs.CONE_HEIGHT length d in
      ([], (true, SolidPrimitiveMsg
                    (shape_msgs.mkSolidPrimitive shape_msgs.CONE d)))
  | Plane a b c d =>
      ([], (true, PlaneMsg (shape_msgs.mkPlane a b c d)))
  | MeshShape mesh =>
      let vs := repeat Point_0 (Z.to_nat (vertex_count mesh)) in
      let ts := repeat MeshTriangle_0 (Z.to_nat (triangle_count mesh)) in
      let vs :=
        for_loop (vertex_count mesh)
          (fun i vs =>
             let i3 := u32 (i * 3) in
             store i (geometry_msgs.mkPoint
                        (at_ indeterminate_double (vertices mesh) i3)
                        (at_ indeterminate_double (vertices mesh) (u32 (i3 + 1)))
                        (at_ indeterminate_double (vertices mesh) (u32 (i3 + 2))))
                   vs)
          vs in
      let ts :=
        for_loop (size ts)
          (fun i ts =>
             let i3 := u32 (i * 3) in
             store i (shape_msgs.mkMeshTriangle
                        (at_ indeterminate_uint (triangles mesh) i3)
                        (at_ indeterminate_uint (triangles mesh) (u32 (i3 + 1)))
                        (at_ indeterminate_uint (triangles mesh) (u32 (i3 + 2))))
                   ts)
          ts in
      ([], (true, MeshMsg (shape_msgs.mkMesh ts vs)))
  | OcTree | UnknownShape =>
      (logError UNABLE_TO_CONSTRUCT_MSG
                [ArgShapeType (shape_type shape)],
       (false, shape_msg))
  end.

(** *** computeShapeExtents, lines 506-547 *)

(** [shape_tools::getShapeExtents], of the package shape_tools: the extents
    of a mesh message and of a solid primitive. *)
Variable getShapeExtents_Mesh : shape_msgs.Mesh -> Eigen.Vector3d.
Variable getShapeExtents_SolidPrimitive :
  shape_msgs.SolidPrimitive -> Eigen.Vector3d.

(** [boost::apply_visitor(ShapeVisitorComputeExtents(), shape_msg)] *)
Definition computeShapeExtents_msg (shape_msg : ShapeMsg) : Eigen.Vector3d :=
  match shape_msg with
  | PlaneMsg _ => Eigen.mkVector3d 0 0 0
  | MeshMsg m => getShapeExtents_Mesh m
  | SolidPrimitiveMsg m => getShapeExtents_SolidPrimitive m
  end.

(** a default-constructed [ShapeMsg]: the variant's first alternative *)
Definition ShapeMsg_0 : ShapeMsg :=
  SolidPrimitiveMsg (shape_msgs.mkSolidPrimitive 0 []).

Definition computeShapeExtents (shape : Shape)
    : list LogEntry * Eigen.Vector3d :=
  let '(log, (ok, shape_msg)) := constructMsgFromShape shape ShapeMsg_0 in
  if ok then (log, computeShapeExtents_msg shape_msg)
  else (log, Eigen.mkVector3d 0 0 0).

(** *** saveAsText, lines 636-692 *)

Definition UNABLE_TO_SAVE : string := "Unable to save shape of type %d".

Definition saveAsText (shape : Shape) (out : string)
    : list LogEntry * string :=
  match shape with
  | Sphere radius =>
      let out := out +++ Sphere_STRING_NAME +++ endl in
      ([], out +++ ios.print_double radius +++ endl)
  | Box sz0 sz1 sz2 =>
      let out := out +++ Box_STRING_NAME +++ endl in
      ([], out +++ ios.print_double sz0 +++ " " +++ ios.print_double sz1
               +++ " " +++ ios.print_double sz2 +++ endl)
  | Cylinder radius length =>
      let out := out +++ Cylinder_STRING_NAME +++ endl in
      ([], out +++ ios.print_double radius +++ " "
               +++ ios.print_double length +++ endl)
  | Cone radius length =>
      let out := out +++ Cone_STRING_NAME +++ endl in
      ([], out +++ ios.print_double radius +++ " "
               +++ ios.print_double length +++ endl)
  | Plane a b c d =>
      let out := out +++ Plane_STRING_NAME +++ endl in
      ([], out +++ ios.print_double a +++ " " +++ ios.print_double b +++ " "
               +++ ios.print_double c +++ " " +++ ios.print_double d +++ endl)
  | MeshShape mesh =>
      let out := out +++ Mesh_STRING_NAME +++ endl in
      let out := out +++ ios.decimal (vertex_count mesh) +++ " "
                     +++ ios.decimal (triangle_count mesh) +++ endl in
      let out :=
        for_loop (vertex_count mesh)
          (fun i out =>
             let i3 := u32 (i * 3) in
             out +++ ios.print_double (at_ indeterminate_double (vertices mesh) i3)
                 +++ " "
                 +++ ios.print_double
                       (at_ indeterminate_double (vertices mesh) (u32 (i3 + 1)))
                 +++ " "
                 +++ ios.print_double
                       (at_ indeterminate_double (vertices mesh) (u32 (i3 + 2)))
                 +++ endl)
          out in
      let out :=
        for_loop (triangle_count mesh)
          (fun i out =>
             let i3 := u32 (i * 3) in
             out +++ ios.decimal (at_ indeterminate_uint (triangles mesh) i3)
                 +++ " "
                 +++ ios.decimal
                       (at_ indeterminate_uint (triangles mesh) (u32 (i3 + 1)))
                 +++ " "
                 +++ ios.decimal
                       (at_ indeterminate_uint (triangles mesh) (u32 (i3 + 2)))
                 +++ endl)
          out in
      ([], out)
  | OcTree | UnknownShape =>
      (logError UNABLE_TO_SAVE [ArgShapeType (shape_type shape)], out)
  end.

(** *** constructShapeFromText, lines 694-761 *)

Definition UNKNOWN_SHAPE_TYPE : string := "Unknown shape type: '%s'".

(** [double x; in >> x]: the local keeps its indeterminate value when the
    extraction stores nothing *)
Definition read_double (i : ios.istream) : float * ios.istream :=
  let (r, i) := ios.extract_double i in
  (match r with Some v => v | None => indeterminate_double end, i).

(** [unsigned int n; in >> n] *)
Definition read_uint (i : ios.istream) : Z * ios.istream :=
  let (r, i) := ios.extract_uint i in
  (match r with Some v => v | None => u32 indeterminate_uint end, i).

(** [in >> a[k]] *)
Definition read_into {A : Type} (r : option A) (k : Z) (a : list A) : list A :=
  match r with Some v => store k v a | None => a end.

Definition constructShapeFromText (i : ios.istream)
    : list LogEntry * option Shape * ios.istream :=
  if ios.good i && negb (ios.eof i) then
    let (r, i) := ios.extract_string i in
    let type := match r with Some w => w | None => "" end in
    if ios.good i && negb (ios.eof i) then
      if String.eqb type Sphere_STRING_NAME then
        let (radius, i) := read_double i in
        ([], Some (Sphere radius), i)
      else if String.eqb type Box_STRING_NAME then
        let (x, i) := read_double i in
        let (y, i) := read_double i in
        let (z, i) := read_double i in
        ([], Some (Box x y z), i)
      else if String.eqb type Cylinder_STRING_NAME then
        let (r, i) := read_double i in
        let (l, i) := read_double i in
        ([], Some (Cylinder r l), i)
      else if String.eqb type Cone_STRING_NAME then
        let (r, i) := read_double i in
        let (l, i) := read_double i in
        ([], Some (Cone r l), i)
      else if String.eqb type Plane_STRING_NAME then
        let (a, i) := read_double i in
        let (b, i) := read_double i in
        let (c, i) := read_double i in
        let (d, i) := read_double i in
        ([], Some (Plane a b c d), i)
      else if String.eqb type Mesh_STRING_NAME then
        let (v, i) := read_uint i in
        let (t, i) := read_uint i in
        let m := Mesh_new v t in
        let '(m, i) :=
          for_loop (vertex_count m)
            (fun k '(m, i) =>
               let i3 := u32 (k * 3) in
               let (r, i) := ios.extract_double i in
               let a := read_into r i3 (vertices m) in
               let (r, i) := ios.extract_double i in
               let a := read_into r (u32 (i3 + 1)) a in
               let (r, i) := ios.extract_double i in
               let a := read_into r (u32 (i3 + 2)) a in
               (set_vertices m a, i))
            (m, i) in
        let '(m, i) :=
          for_loop (triangle_count m)
            (fun k '(m, i) =>
               let i3 := u32 (k * 3) in
               let (r, i) := ios.extract_uint i in
               let a := read_into r i3 (triangles m) in
               let (r, i) := ios.extract_uint i in
               let a := read_into r (u32 (i3 + 1)) a in
               let (r, i) := ios.extract_uint i in
               let a := read_into r (u32 (i3 + 2)) a in
               (set_triangles m a, i))
            (m, i) in
        ([], Some (MeshShape (computeNormals m)), i)
      else (logError UNKNOWN_SHAPE_TYPE [ArgStr type], None, i)
    else ([], None, i)
  else ([], None, i).

(** *** shapeStringName, lines 763-795 *)

(** [OcTree::STRING_NAME], a constant of shapes.cpp, which is not among the
    source files; nothing is assumed about it. *)
Variable OcTree_STRING_NAME : string.

(** The argument is a pointer that may be [NULL]. *)
Definition shapeStringName (shape : option Shape) : string :=
  match shape with
  | Some s =>
      match shape_type s with
      | SPHERE => Sphere_STRING_NAME
      | CYLINDER => Cylinder_STRING_NAME
      | CONE => Cone_STRING_NAME
      | BOX => Box_STRING_NAME
      | PLANE => Plane_STRING_NAME
      | MESH => Mesh_STRING_NAME
      | OCTREE => OcTree_STRING_NAME
      | UNKNOWN_SHAPE => "unknown"
      end
  | None => ""
  end.

(** *** createMeshFromAsset, lines 283-339 *)

(** The arithmetic of assimp on its matrices and vectors: the product
    [m1 *= m2] and the image [m * v] of a point. *)
Variable aiMatrix4x4_mul :
  assimp.aiMatrix4x4 -> assimp.aiMatrix4x4 -> assimp.aiMatrix4x4.
Variable aiMatrix4x4_transform :
  assimp.aiMatrix4x4 -> assimp.aiVector3D -> assimp.aiVector3D.

Definition aiVector3D_0 : assimp.aiVector3D := assimp.mkVector3D 0 0 0.
Definition aiFace_0 : assimp.aiFace := assimp.mkFace [].
Definition aiMesh_0 : assimp.aiMesh := assimp.mkMesh [] [].

(** The body of the loop over the meshes of a node (lines 290-305), for
    the mesh [a]: its vertices are transformed, scaled and pushed, then the
    indices of its faces of three indices are pushed, shifted by the number
    of vertices that were there before. *)
Definition extractMeshData_mesh (a : assimp.aiMesh)
    (transform : assimp.aiMatrix4x4) (scale : Eigen.Vector3d)
    (st : list Eigen.Vector3d * list Z) : list Eigen.Vector3d * list Z :=
  let '(vertices, triangles) := st in
  let offset := u32 (size vertices) in
  let vertices :=
    for_loop (size (assimp.mVertices a))
      (fun i vertices =>
         let v := aiMatrix4x4_transform transform
                    (at_ aiVector3D_0 (assimp.mVertices a) i) in
         vertices ++ [Eigen.mkVector3d (assimp.x v * Eigen.x scale)
                                       (assimp.y v * Eigen.y scale)
                                       (assimp.z v * Eigen.z scale)])
      vertices in
  let triangles :=
    for_loop (size (assimp.mFaces a))
      (fun i triangles =>
         let f := at_ aiFace_0 (assimp.mFaces a) i in
         if size (assimp.mIndices f) =? 3 then
           triangles ++ [u32 (offset + at_ 0 (assimp.mIndices f) 0);
                         u32 (offset + at_ 0 (assimp.mIndices f) 1);
                         u32 (offset + at_ 0 (assimp.mIndices f) 2)]
         else triangles)
      triangles in
  (vertices, triangles).

(** [extractMeshData]: the vectors [vertices] and [triangles], passed by
    reference, are the state; the children are visited in order. A node is
    never [NULL]. *)
Fixpoint extractMeshData (scene : aiScene.aiScene) (node : assimp.aiNode)
    (parent_transform : assimp.aiMatrix4x4) (scale : Eigen.Vector3d)
    (st : list Eigen.Vector3d * list Z) {struct node}
    : list Eigen.Vector3d * list Z :=
  match node with
  | assimp.mkNode mTransformation mMeshes mChildren =>
      let transform := aiMatrix4x4_mul parent_transform mTransformation in
      let st :=
        for_loop (size mMeshes)
          (fun j st =>
             let a := at_ aiMesh_0 (aiScene.mMeshes scene) (at_ 0 mMeshes j) in
             extractMeshData_mesh a transform scale st)
          st in
      fold_left (fun st child => extractMeshData scene child transform scale st)
                mChildren st
  end.

Definition NO_MESHES : string := "Assimp reports scene in %s has no meshes".
Definition NO_VERTICES : string := "There are no vertices in the scene %s".
Definition NO_TRIANGLES : string := "There are no triangles in the scene %s".

Definition createMeshFromAsset_scale (scene : aiScene.aiScene)
    (scale : Eigen.Vector3d) (resource_name : string)
    : list LogEntry * option Mesh :=
  if negb (aiScene.HasMeshes scene) then
    (logWarn NO_MESHES [ArgStr resource_name], None)
  else
    let '(vertices, triangles) :=
      extractMeshData scene (aiScene.mRootNode scene) assimp.aiMatrix4x4_0 scale
                      ([], []) in
    if is_nil vertices then (logWarn NO_VERTICES [ArgStr resource_name], None)
    else if is_nil triangles then
      (logWarn NO_TRIANGLES [ArgStr resource_name], None)
    else ([], Some (createMeshFromVertices vertices triangles)).

Definition one : Eigen.Vector3d := Eigen.mkVector3d 1 1 1.

Definition createMeshFromAsset (scene : aiScene.aiScene) (resource_name : string)
    : list LogEntry * option Mesh :=
  createMeshFromAsset_scale scene one resource_name.

(** *** createMeshFromBinary, lines 217-254 *)

(** [Assimp::Importer::ReadFileFromMemory] with the post-processing flags
    of the source, on the bytes, their number and the hint: the scene, or
    [NULL]. *)
Variable ReadFileFromMemory : option string -> Z -> string -> option aiScene.aiScene.

Definition EMPTY_BUFFER : string := "Cannot construct mesh from empty binary buffer".

(** The source also derives a lower-case file extension from [assimp_hint]
    in a local [hint] (lines 231-239), which nothing reads: the importer
    is given [assimp_hint] itself. *)
Definition createMeshFromBinary_scale (buffer : option string) (size : Z)
    (scale : Eigen.Vector3d) (assimp_hint : string)
    : list LogEntry * option Mesh :=
  if match buffer with None => true | Some _ => false end || (size <? 1) then
    (logWarn EMPTY_BUFFER [], None)
  else
    match ReadFileFromMemory buffer size assimp_hint with
    | Some scene => createMeshFromAsset_scale scene scale assimp_hint
    | None => ([], None)
    end.

Definition createMeshFromBinary (buffer : option string) (size : Z)
    (assimp_hint : string) : list LogEntry * option Mesh :=
  createMeshFromBinary_scale buffer size one assimp_hint.

(** *** createMeshFromResource, lines 210-215 and 256-281 *)

(** [resource_retriever::Retriever retriever] *)
Variable retriever : resource_retriever.Retriever.

Definition EMPTY_RESOURCE : string := "Retrieved empty mesh for resource '%s'".
Definition NO_SCENE : string := "Assimp reports no scene in %s".

Definition createMeshFromResource_scale (resource : string)
    (scale : Eigen.Vector3d) : list LogEntry * option Mesh :=
  match resource_retriever.get retriever resource with
  | resource_retriever.Exception what => (logError "%s" [ArgStr what], None)
  | resource_retriever.MemoryResource data size =>
      if size =? 0 then (logWarn EMPTY_RESOURCE [ArgStr resource], None)
      else
        let '(log, m) := createMeshFromBinary_scale data size scale resource in
        match m with
        | None => (log ++ logWarn NO_SCENE [ArgStr resource], None)
        | Some _ => (log, m)
        end
  end.

Definition createMeshFromResource (resource : string)
    : list LogEntry * option Mesh :=
  createMeshFromResource_scale resource one.

(** *** constructMarkerFromShape, lines 445-503 *)

(** [visualization_msgs::Marker], and what
    [shape_tools::constructMarkerFromShape] does to one: the marker it
    leaves, and the message of the [std::runtime_error] it throws, if any.
    An exception of another type would leave the function below and is not
    modelled. *)
Variable Marker : Type.
Variable shape_tools_constructMarkerFromShape_Mesh :
  shape_msgs.Mesh -> Marker -> bool -> Marker * option string.
Variable shape_tools_constructMarkerFromShape_SolidPrimitive :
  shape_msgs.SolidPrimitive -> Marker -> Marker * option string.

Definition NO_MARKER_FOR_PLANES : string :=
  "No visual markers can be constructed for planes".

(** [boost::apply_visitor(ShapeVisitorMarker(&marker, use_mesh_triangle_list),
    shape_msg)] *)
Definition ShapeVisitorMarker (marker : Marker) (use_mesh_triangle_list : bool)
    (shape_msg : ShapeMsg) : Marker * option string :=
  match shape_msg with
  | PlaneMsg _ => (marker, Some NO_MARKER_FOR_PLANES)
  | MeshMsg m =>
      shape_tools_constructMarkerFromShape_Mesh m marker use_mesh_triangle_list
  | SolidPrimitiveMsg m =>
      shape_tools_constructMarkerFromShape_SolidPrimitive m marker
  end.

(** The marker is passed by reference: the function returns the marker
    that the caller holds afterwards. *)
Definition constructMarkerFromShape (shape : Shape) (marker : Marker)
    (use_mesh_triangle_list : bool) : list LogEntry * (bool * Marker) :=
  let '(log, (ok, shape_msg)) := constructMsgFromShape shape ShapeMsg_0 in
  if ok then
    let '(marker, thrown) :=
      ShapeVisitorMarker marker use_mesh_triangle_list shape_msg in
    match thrown with
    | None => (log, (true, marker))
    | Some what => (log ++ logError "%s" [ArgStr what], (false, marker))
    end
  else (log, (false, marker)).

(** ** The vocabulary of the specification *)

(** Two points have the same coordinates: IEEE equality ([==]) on each
    axis, which identifies +0 and -0 and never holds for a NaN. *)
Definition same_point (p q : Eigen.Vector3d) : bool :=
  PrimFloat.eqb (Eigen.x p) (Eigen.x q)
  && PrimFloat.eqb (Eigen.y p) (Eigen.y q)
  && PrimFloat.eqb (Eigen.z p) (Eigen.z q).

Definition no_nan (p : Eigen.Vector3d) : Prop :=
  PrimFloat.is_nan (Eigen.x p) = false
  /\ PrimFloat.is_nan (Eigen.y p) = false
  /\ PrimFloat.is_nan (Eigen.z p) = false.

(** the number of distinct coordinate triples of a list of points *)
Fixpoint count_distinct (l : list Eigen.Vector3d) : nat :=
  match l with
  | [] => O
  | p :: r =>
      if existsb (same_point p) r then count_distinct r
      else Datatypes.S (count_distinct r)
  end.

(** the points of a list in the order of their first appearance *)
Definition note_point (seen : list Eigen.Vector3d) (p : Eigen.Vector3d)
    : list Eigen.Vector3d :=
  if existsb (fun q => same_point q p) seen then seen else seen ++ [p].

Definition first_occurrences (l : list Eigen.Vector3d) : list Eigen.Vector3d :=
  fold_left note_point l [].

(** the position of the first point of [l] with the coordinates of [p] *)
Fixpoint position_of (p : Eigen.Vector3d) (l : list Eigen.Vector3d) : Z :=
  match l with
  | [] => 0
  | q :: l' => if same_point q p then 0 else 1 + position_of p l'
  end.

(** the points a soup-based construction works on: the whole triangles *)
Definition whole_triangles (source : list Eigen.Vector3d)
    : list Eigen.Vector3d :=
  firstn (3 * (length source / 3)) source.

(** the flat coordinate array of a list of points *)
Definition flatten (l : list Eigen.Vector3d) : list float :=
  flat_map (fun p => [Eigen.x p; Eigen.y p; Eigen.z p]) l.

(** the vertices of a mesh, as points *)
Definition Mesh_points (m : Mesh) : list Eigen.Vector3d :=
  map (fun k => Mesh_vertex m (Z.of_nat k)) (seq 0 (Z.to_nat (vertex_count m))).

(** the invariants of a mesh (section 3), for counts that 32-bit index
    arithmetic can address *)
Definition Mesh_wf (m : Mesh) : Prop :=
  0 <= vertex_count m /\ 3 * vertex_count m < 2 ^ 32
  /\ 0 <= triangle_count m /\ 3 * triangle_count m < 2 ^ 32
  /\ size (vertices m) = 3 * vertex_count m
  /\ size (triangles m) = 3 * triangle_count m
  /\ Forall (fun t => 0 <= t < 2 ^ 32) (triangles m).

(** the value that [in >> x] reads from the characters [out << d] wrote;
    [None] when the extraction fails or leaves some of them unread *)
Definition reread (d : float) : option float :=
  let (xtrc, r) := ios.extract_float (ios.print_double d) in
  let (v, fail) := ios.convert_to_v xtrc in
  if ios.is_empty r && negb fail then Some v else None.

Fixpoint reread_all (ds : list float) : option (list float) :=
  match ds with
  | [] => Some []
  | d :: ds' =>
      match reread d, reread_all ds' with
      | Some v, Some vs => Some (v :: vs)
      | _, _ => None
      end
  end.

(** a shape as its text carries it: every [double] re-read from its
    six-digit rendering, the counts and indices of a mesh as they are, and
    the normals of a mesh computed anew *)
Definition reload (s : Shape) : option Shape :=
  match s with
  | Sphere r => option_map Sphere (reread r)
  | Box x y z =>
      match reread x, reread y, reread z with
      | Some x', Some y', Some z' => Some (Box x' y' z')
      | _, _, _ => None
      end
  | Cylinder r l =>
      match reread r, reread l with
      | Some r', Some l' => Some (Cylinder r' l')
      | _, _ => None
      end
  | Cone r l =>
      match reread r, reread l with
      | Some r', Some l' => Some (Cone r' l')
      | _, _ => None
      end
  | Plane a b c d =>
      match reread a, reread b, reread c, reread d with
      | Some a', Some b', Some c', Some d' => Some (Plane a' b' c' d')
      | _, _, _, _ => None
      end
  | MeshShape m =>
      match reread_all (vertices m) with
      | Some vs =>
          Some (MeshShape
                  (computeNormals
                     (mkMesh (vertex_count m) (triangle_count m) vs
                             (triangles m) (normals m))))
      | None => None
      end
  | OcTree | UnknownShape => None
  end.

(** the shapes that have a message and a text form; a mesh is taken with
    its invariants *)
Definition supported (s : Shape) : Prop :=
  match s with
  | OcTree | UnknownShape => False
  | MeshShape m => Mesh_wf m
  | _ => True
  end.

(** a mesh with its normals computed anew, any other shape as it is *)
Definition with_fresh_normals (s : Shape) : Shape :=
  match s with
  | MeshShape m => MeshShape (computeNormals m)
  | _ => s
  end.

(** the type names that [constructShapeFromText] knows *)
Definition text_type_names : list string :=
  [Sphere_STRING_NAME; Box_STRING_NAME; Cylinder_STRING_NAME;
   Cone_STRING_NAME; Plane_STRING_NAME; Mesh_STRING_NAME].

(** those of the shapes that are a fixed number of doubles; what the load
    of a mesh does without its counts is not defined by the source (the
    counts are then uninitialised locals, which size the arrays) *)
Definition primitive_type_names : list string :=
  [Sphere_STRING_NAME; Box_STRING_NAME; Cylinder_STRING_NAME;
   Cone_STRING_NAME; Plane_STRING_NAME].

(** an input stream over a text, in its initial state *)
Definition istream_of (text : string) : ios.istream :=
  ios.mkIstream text false false.

(** ** The vocabulary of the proofs *)

(** A key for the order of the doubles that are not NaN *)
Definition SFkey (f : spec_float) : Z * Z * Z :=
  match f with
  | S754_zero _ => (0, 0, 0)
  | S754_nan => (0, 0, 0)
  | S754_infinity s => (if s then -2 else 2, 0, 0)
  | S754_finite s m e => if s then (-1, - e, Z.neg m) else (1, e, Z.pos m)
  end.

(** the order of the keys: sign class, exponent, mantissa *)
Definition key_lt (a b : Z * Z * Z) : Prop :=
  let '(a1, a2, a3) := a in
  let '(b1, b2, b3) := b in
  a1 < b1 \/ (a1 = b1 /\ (a2 < b2 \/ (a2 = b2 /\ a3 < b3))).

(** the key of a [double] *)
Definition fkey (f : float) : Z * Z * Z := SFkey (Prim2SF f).

(** the key of a vertex: the keys of its coordinates, compared axis by axis *)
Definition vkey (p : detail.LocalVertexType) : (Z * Z * Z) * (Z * Z * Z) * (Z * Z * Z) :=
  (fkey (detail.x p), fkey (detail.y p), fkey (detail.z p)).

(** the order of the vertex keys: x, then y, then z *)
Definition vkey_lt (a b : (Z * Z * Z) * (Z * Z * Z) * (Z * Z * Z)) : Prop :=
  let '(a1, a2, a3) := a in
  let '(b1, b2, b3) := b in
  key_lt a1 b1 \/ (a1 = b1 /\ (key_lt a2 b2 \/ (a2 = b2 /\ key_lt a3 b3))).

(** no coordinate of the vertex is a NaN *)
Definition lv_no_nan (p : detail.LocalVertexType) : Prop :=
  PrimFloat.is_nan (detail.x p) = false
  /\ PrimFloat.is_nan (detail.y p) = false
  /\ PrimFloat.is_nan (detail.z p) = false.

(** an ordered sequence, as the iteration of a [std::set] yields it: the
    keys increase *)
Definition set_sorted {T K : Type} (key : T -> K) (klt : K -> K -> Prop)
    (s : list T) : Prop :=
  StronglySorted (fun a b => klt (key a) (key b)) s.

(** the key of a point *)
Definition pkey (p : Eigen.Vector3d) : (Z * Z * Z) * (Z * Z * Z) * (Z * Z * Z) :=
  (fkey (Eigen.x p), fkey (Eigen.y p), fkey (Eigen.z p)).

(** the unique vertices with the ids of their first appearance *)
Fixpoint number_from (k : Z) (F : list Eigen.Vector3d) : list detail.LocalVertexType :=
  match F with
  | [] => []
  | p :: F' =>
      detail.mkLocalVertex (Eigen.x p) (Eigen.y p) (Eigen.z p) k
      :: number_from (k + 1) F'
  end.

(** the set of unique vertices, in the order of its comparator *)
Definition vset_sorted (s : list detail.LocalVertexType) : Prop :=
  StronglySorted (fun a b => vkey_lt (vkey a) (vkey b)) s.

(** the state of the loop once the points [P] have been looked at *)
Definition soup_inv (P : list Eigen.Vector3d)
    (st : list detail.LocalVertexType * list Z) : Prop :=
  Permutation (fst st) (number_from 0 (first_occurrences P))
  /\ vset_sorted (fst st)
  /\ snd st = map (fun p => position_of p (first_occurrences P)) P.

(** the mesh that the construction from a soup returns *)
Definition soup_mesh (source : list Eigen.Vector3d) : Mesh :=
  let W := whole_triangles source in
  let F := first_occurrences W in
  computeNormals
    (mkMesh (size F) (size source / 3) (flatten F)
            (map (fun p => position_of p F) W)
            (repeat indeterminate_double (Z.to_nat (3 * (size source / 3))))).

(** what the construction from a soup logs *)
Definition soup_log (source : list Eigen.Vector3d) : list LogEntry :=
  if negb (size source mod 3 =? 0) then logError NOT_DIVISIBLE_BY_3 [] else [].

(** the assembly of the mesh from the set and the ids (lines 187-207) *)
Definition soup_assemble (st : list detail.LocalVertexType * list Z) : Mesh :=
  let '(vertex_set, triangle_ids) := st in
  let vt := StdSet.sort detail.ltLocalVertexIndex vertex_set in
  let nt := u32 (size triangle_ids / 3) in
  let mesh := Mesh_new (u32 (size vt)) nt in
  let mesh :=
    for_loop (size vt)
      (fun i mesh =>
         let i3 := u32 (i * 3) in
         let vi := at_ (LocalVertexType_of indeterminate_Vector3d) vt i in
         let a := store i3 (detail.x vi) (vertices mesh) in
         let a := store (u32 (i3 + 1)) (detail.y vi) a in
         let a := store (u32 (i3 + 2)) (detail.z vi) a in
         set_vertices mesh a)
      mesh in
  let mesh := set_triangles mesh (std_copy triangle_ids (triangles mesh)) in
  computeNormals mesh.

(** the message of a mesh: its points and its index triples *)
Definition Mesh_msg (m : Mesh) : shape_msgs.Mesh :=
  shape_msgs.mkMesh
    (map (fun k => shape_msgs.mkMeshTriangle
                     (at_ indeterminate_uint (triangles m) (3 * Z.of_nat k))
                     (at_ indeterminate_uint (triangles m) (3 * Z.of_nat k + 1))
                     (at_ indeterminate_uint (triangles m) (3 * Z.of_nat k + 2)))
         (seq 0 (Z.to_nat (triangle_count m))))
    (map (fun k => geometry_msgs.mkPoint
                     (at_ indeterminate_double (vertices m) (3 * Z.of_nat k))
                     (at_ indeterminate_double (vertices m) (3 * Z.of_nat k + 1))
                     (at_ indeterminate_double (vertices m) (3 * Z.of_nat k + 2)))
         (seq 0 (Z.to_nat (vertex_count m)))).

(** a text that goes on with white space *)
Definition starts_with_space (s : string) : Prop :=
  exists c s', s = String c s' /\ ios.isspace c = true.

(** a string of decimal digits *)
Fixpoint all_digits (s : string) : Prop :=
  match s with
  | "" => True
  | String c s' => ios.isdigit c = true /\ all_digits s'
  end.

(** a text as its tokens, each after one character of white space *)
Fixpoint tokens (l : list (ascii * string)) (tail : string) : string :=
  match l with
  | [] => tail
  | (c, t) :: l' => String c (t +++ tokens l' tail)
  end.

(** every token comes after white space *)
Definition spaced (l : list (ascii * string)) : Prop :=
  Forall (fun p => ios.isspace (fst p) = true) l.

(** a word: no white space in it *)
Fixpoint no_space (s : string) : bool :=
  match s with
  | "" => true
  | String c s' => negb (ios.isspace c) && no_space s'
  end.

(** the tokens of the line of vertex [k] *)
Definition vertex_line (vs : list float) (k : nat) : list (ascii * string) :=
  [("010"%char, ios.print_double (at_ indeterminate_double vs (3 * Z.of_nat k)));
   (" "%char, ios.print_double (at_ indeterminate_double vs (3 * Z.of_nat k + 1)));
   (" "%char, ios.print_double (at_ indeterminate_double vs (3 * Z.of_nat k + 2)))].

(** the tokens of the line of triangle [k] *)
Definition triangle_line (ts : list Z) (k : nat) : list (ascii * string) :=
  [("010"%char, ios.decimal (at_ indeterminate_uint ts (3 * Z.of_nat k)));
   (" "%char, ios.decimal (at_ indeterminate_uint ts (3 * Z.of_nat k + 1)));
   (" "%char, ios.decimal (at_ indeterminate_uint ts (3 * Z.of_nat k + 2)))].

(** the tokens of the text of a mesh, after its type name *)
Definition mesh_tokens (m : Mesh) : list (ascii * string) :=
  [("010"%char, ios.decimal (vertex_count m)); (" "%char, ios.decimal (triangle_count m))]
  ++ flat_map (vertex_line (vertices m)) (seq 0 (Z.to_nat (vertex_count m)))
  ++ flat_map (triangle_line (triangles m)) (seq 0 (Z.to_nat (triangle_count m))).

(** the stream before line [k] of [n] lines, with the tokens [rest] and the
    text [tail] after them *)
Definition before_line (line : nat -> list (ascii * string)) (n : Z)
    (rest : list (ascii * string)) (tail : string) (k : Z) : ios.istream :=
  ios.mkIstream
    (tokens (flat_map line (seq (Z.to_nat k) (Z.to_nat (n - k))) ++ rest) tail)
    false false.

(** the type name that [saveAsText] writes for a shape *)
Definition shape_name (s : Shape) : string :=
  match s with
  | Sphere _ => Sphere_STRING_NAME
  | Box _ _ _ => Box_STRING_NAME
  | Cylinder _ _ => Cylinder_STRING_NAME
  | Cone _ _ => Cone_STRING_NAME
  | Plane _ _ _ _ => Plane_STRING_NAME
  | MeshShape _ => Mesh_STRING_NAME
  | OcTree | UnknownShape => ""
  end.

(** the tokens of the text of a shape, after its type name *)
Definition shape_tokens (s : Shape) : list (ascii * string) :=
  match s with
  | Sphere r => [("010"%char, ios.print_double r)]
  | Box x y z =>
      [("010"%char, ios.print_double x); (" "%char, ios.print_double y);
       (" "%char, ios.print_double z)]
  | Cylinder r l | Cone r l =>
      [("010"%char, ios.print_double r); (" "%char, ios.print_double l)]
  | Plane a b c d =>
      [("010"%char, ios.print_double a); (" "%char, ios.print_double b);
       (" "%char, ios.print_double c); (" "%char, ios.print_double d)]
  | MeshShape m => mesh_tokens m
  | OcTree | UnknownShape => []
  end.

(** a message as its conversion to a shape reads it: of a primitive, the
    dimensions that its kind needs *)
Definition ShapeMsg_read (msg : ShapeMsg) : ShapeMsg :=
  match msg with
  | SolidPrimitiveMsg m =>
      SolidPrimitiveMsg
        (shape_msgs.mkSolidPrimitive (shape_msgs.type m)
           (firstn (Z.to_nat (shape_tools.SolidPrimitiveDimCount (shape_msgs.type m)))
                   (shape_msgs.dimensions m)))
  | _ => msg
  end.

(** the index fields of a triangle are uint32 *)
Definition MeshTriangle_wf (t : shape_msgs.MeshTriangle) : Prop :=
  0 <= shape_msgs.vertex_indices0 t < 2 ^ 32
  /\ 0 <= shape_msgs.vertex_indices1 t < 2 ^ 32
  /\ 0 <= shape_msgs.vertex_indices2 t < 2 ^ 32.

(** a message whose arrays 32-bit index arithmetic can address *)
Definition ShapeMsg_wf (msg : ShapeMsg) : Prop :=
  match msg with
  | MeshMsg m =>
      3 * size (shape_msgs.vertices m) < 2 ^ 32
      /\ 3 * size (shape_msgs.triangles m) < 2 ^ 32
      /\ Forall MeshTriangle_wf (shape_msgs.triangles m)
  | _ => True
  end.

(** a caller that saves shapes one after the other on a stream, and one
    that loads [n] shapes one after the other from a stream *)
Definition save_all (shapes : list Shape) (out : string) : string :=
  fold_left (fun out s => snd (saveAsText s out)) shapes out.

Fixpoint load_all (n : nat) (i : ios.istream) : list (option Shape) * ios.istream :=
  match n with
  | O => ([], i)
  | Datatypes.S n' =>
      let '(_, r, i) := constructShapeFromText i in
      let (rs, i) := load_all n' i in
      (r :: rs, i)
  end.

(** the texts of shapes, one after the other *)
Definition texts (shapes : list Shape) : string :=
  fold_right (fun s acc => snd (saveAsText s "") +++ acc) "" shapes.

(** the sum of [f] over a list *)
Definition total {X : Type} (f : X -> Z) (l : list X) : Z :=
  fold_right (fun x acc => f x + acc) 0 l.

(** the indices of the meshes that the traversal of a node meets, in the
    order of the traversal *)
Fixpoint node_refs (node : assimp.aiNode) : list Z :=
  match node with
  | assimp.mkNode _ mMeshes mChildren => mMeshes ++ flat_map node_refs mChildren
  end.

(** the meshes that the traversal of a scene meets, each as often as a
    node refers to it *)
Definition scene_meshes (scene : aiScene.aiScene) : list assimp.aiMesh :=
  map (at_ aiMesh_0 (aiScene.mMeshes scene)) (node_refs (aiScene.mRootNode scene)).

(** the faces of a mesh that are triangles *)
Definition triangle_faces (a : assimp.aiMesh) : list assimp.aiFace :=
  filter (fun f => size (assimp.mIndices f) =? 3) (assimp.mFaces a).

Definition count_vertices (meshes : list assimp.aiMesh) : Z :=
  total (fun a => size (assimp.mVertices a)) meshes.

Definition count_triangles (meshes : list assimp.aiMesh) : Z :=
  total (fun a => size (triangle_faces a)) meshes.

(** the indices of the faces of a mesh are vertices of the mesh *)
Definition aiMesh_wf (a : assimp.aiMesh) : Prop :=
  Forall (fun f => Forall (fun i => 0 <= i < size (assimp.mVertices a))
                          (assimp.mIndices f))
         (assimp.mFaces a).

(** a scene as the importer returns it: the nodes refer to meshes of the
    scene, and the meshes are well formed *)
Definition aiScene_wf (scene : aiScene.aiScene) : Prop :=
  Forall (fun r => 0 <= r < size (aiScene.mMeshes scene))
         (node_refs (aiScene.mRootNode scene))
  /\ Forall aiMesh_wf (aiScene.mMeshes scene).

(** a vertex of the importer as the traversal pushes it: transformed,
    then scaled *)
Definition scaled (transform : assimp.aiMatrix4x4) (scale : Eigen.Vector3d)
    (v : assimp.aiVector3D) : Eigen.Vector3d :=
  let v := aiMatrix4x4_transform transform v in
  Eigen.mkVector3d (assimp.x v * Eigen.x scale) (assimp.y v * Eigen.y scale)
                   (assimp.z v * Eigen.z scale).

(** the corners of the triangles of a mesh, triangle after triangle *)
Definition mesh_corners (a : assimp.aiMesh) (transform : assimp.aiMatrix4x4)
    (scale : Eigen.Vector3d) : list Eigen.Vector3d :=
  flat_map (fun f => map (fun i => scaled transform scale
                                     (at_ aiVector3D_0 (assimp.mVertices a) i))
                         (assimp.mIndices f))
           (triangle_faces a).

(** the corners of the triangles that the traversal of a node meets, every
    mesh under the product of the transformations from the root to its
    node *)
Fixpoint node_corners (scene : aiScene.aiScene) (node : assimp.aiNode)
    (parent_transform : assimp.aiMatrix4x4) (scale : Eigen.Vector3d)
    : list Eigen.Vector3d :=
  match node with
  | assimp.mkNode mTransformation mMeshes mChildren =>
      let transform := aiMatrix4x4_mul parent_transform mTransformation in
      flat_map (fun r => mesh_corners (at_ aiMesh_0 (aiScene.mMeshes scene) r)
                                      transform scale) mMeshes
      ++ flat_map (fun c => node_corners scene c transform scale) mChildren
  end.

(** a step that pushes [n] vertices and [t] triangles whose indices are
    among the vertices it pushes, at the points [corners] *)
Definition pushes (step : list Eigen.Vector3d * list Z -> list Eigen.Vector3d * list Z)
    (n t : Z) (corners : list Eigen.Vector3d) : Prop :=
  forall vs ts, size vs + n < 2 ^ 32 ->
    exists vs' ts',
      step (vs, ts) = (vs ++ vs', ts ++ ts')
      /\ size vs' = n /\ size ts' = 3 * t
      /\ Forall (fun i => size vs <= i < size vs + n) ts'
      /\ forall more,
           map (at_ indeterminate_Vector3d (vs ++ vs' ++ more)) ts' = corners.

(** the double that an integer converts to ([double(n)]), rounded to
    nearest *)
Definition double_of_Z (n : Z) : float :=
  SF2Prim (binary_normalize prec emax n 0 false).

(** a double whose value is an integer of at most six digits *)
Definition six_digit_integer (d : float) : Prop :=
  exists n, - 10 ^ 6 < n < 10 ^ 6 /\ d = double_of_Z n.

(** the doubles that the text of a shape carries *)
Definition shape_doubles (s : Shape) : list float :=
  match s with
  | Sphere r => [r]
  | Box x y z => [x; y; z]
  | Cylinder r l | Cone r l => [r; l]
  | Plane a b c d => [a; b; c; d]
  | MeshShape m => vertices m
  | OcTree | UnknownShape => []
  end.

(** ** The inputs of the concrete runs *)

(** a point *)
Definition pt (a b c : float) : Eigen.Vector3d := Eigen.mkVector3d a b c.

(** two triangles that share an edge *)
Definition two_triangles : list Eigen.Vector3d :=
  [pt 0 0 0; pt 1 0 0; pt 0 1 0; pt 1 0 0; pt 0 1 0; pt 1 1 0].

(** one triangle whose first corner has a NaN abscissa *)
Definition triangle_with_nan : list Eigen.Vector3d :=
  [pt nan 0 0; pt 1 0 0; pt 2 0 0].

(** a mesh of one triangle *)
Definition one_triangle : Mesh :=
  mkMesh 3 1 [0; 0; 0; 1; 0; 0; 0; 1; 0]%float [0; 1; 2] [0; 0; 1]%float.

(** a stand-in for shape_tools::getShapeExtents in the runs below *)
Definition unit_extents {A : Type} (_ : A) : Eigen.Vector3d := pt 1 1 1.

(** a mesh of one triangle with a coordinate of seven significant digits,
    and the same mesh with the coordinate rounded to six *)
Definition far_triangle : Mesh :=
  mkMesh 3 1 [0; 0; 0; 1234567; 0; 0; 0; 1; 0]%float [0; 1; 2] [0; 0; 1]%float.

Definition far_triangle_in_six_digits : Mesh :=
  mkMesh 3 1 [0; 0; 0; 1234570; 0; 0; 0; 1; 0]%float [0; 1; 2] [0; 0; 1]%float.

(** a box message with one dimension too many, and a mesh message of one
    triangle with an index that is no vertex *)
Definition long_box_msg : ShapeMsg :=
  SolidPrimitiveMsg (shape_msgs.mkSolidPrimitive shape_msgs.BOX [1; 2; 3; 4]%float).

Definition one_triangle_msg : ShapeMsg :=
  MeshMsg (shape_msgs.mkMesh [shape_msgs.mkMeshTriangle 0 1 7]
             [geometry_msgs.mkPoint 0 0 0; geometry_msgs.mkPoint 1 0 0;
              geometry_msgs.mkPoint 0 1 0]).

(** a scene of one mesh, a triangle and an edge on three vertices, that
    the root node and its one child both refer to *)
Definition sample_aiMesh : assimp.aiMesh :=
  assimp.mkMesh
    [assimp.mkVector3D 0 0 0; assimp.mkVector3D 1 0 0; assimp.mkVector3D 0 1 0]
    [assimp.mkFace [0; 1; 2]; assimp.mkFace [0; 1]].

Definition sample_aiScene : aiScene.aiScene :=
  aiScene.mkScene [sample_aiMesh]
    (assimp.mkNode assimp.aiMatrix4x4_0 [0]
       [assimp.mkNode assimp.aiMatrix4x4_0 [0] []]).

(** stand-ins for the arithmetic of assimp in the runs below: what it
    computes when every transformation is the identity *)
Definition keep_matrix (m _ : assimp.aiMatrix4x4) : assimp.aiMatrix4x4 := m.
Definition keep_vector (_ : assimp.aiMatrix4x4) (v : assimp.aiVector3D)
    : assimp.aiVector3D := v.

(** * Properties *)

(** ** Loops and arrays *)

Lemma u32_small (z : Z) : 0 <= z < 2 ^ 32 -> u32 z = z.
Proof. intros H. unfold u32. apply Z.mod_small. exact H. Qed.

Lemma size_nonneg {A : Type} (l : list A) : 0 <= size l.
Proof. unfold size. lia. Qed.

Lemma size_app {A : Type} (l1 l2 : list A) : size (l1 ++ l2) = size l1 + size l2.
Proof. unfold size. rewrite length_app. lia. Qed.

Lemma for_loop_succ {S : Type} (n : Z) (body : Z -> S -> S) (s0 : S) :
  0 <= n -> for_loop (n + 1) body s0 = body n (for_loop n body s0).
Proof.
  intros Hn. unfold for_loop.
  replace (Z.to_nat (n + 1)) with (Datatypes.S (Z.to_nat n)) by lia.
  rewrite seq_S, fold_left_app. simpl. rewrite Z2Nat.id by lia. reflexivity.
Qed.

(** the invariant rule of the counted loop *)
Lemma for_loop_ind {S : Type} (P : Z -> S -> Prop) (n : Z)
    (body : Z -> S -> S) (s0 : S) :
  0 <= n -> P 0 s0 ->
  (forall k s, 0 <= k < n -> P k s -> P (k + 1) (body k s)) ->
  P n (for_loop n body s0).
Proof.
  intros Hn H0 Hstep.
  assert (H : forall k : nat, (Z.of_nat k <= n) ->
                              P (Z.of_nat k) (for_loop (Z.of_nat k) body s0)).
  { induction k as [|k IH]; intros Hk.
    - exact H0.
    - replace (Z.of_nat (Datatypes.S k)) with (Z.of_nat k + 1) by lia.
      rewrite for_loop_succ by lia. apply Hstep; [lia|]. apply IH. lia. }
  specialize (H (Z.to_nat n)). rewrite Z2Nat.id in H by lia. apply H. lia.
Qed.

Lemma store_nat_here {A : Type} (l1 l2 : list A) (x v : A) :
  store_nat (length l1) v (l1 ++ x :: l2) = l1 ++ v :: l2.
Proof. induction l1 as [|e l1 IH]; simpl; [reflexivity|]. now rewrite IH. Qed.

Lemma store_here {A : Type} (i : Z) (l1 l2 : list A) (x v : A) :
  i = size l1 -> store i v (l1 ++ x :: l2) = l1 ++ v :: l2.
Proof.
  intros ->. unfold store, size.
  destruct (Z.ltb_spec (Z.of_nat (length l1)) 0) as [H|_]; [lia|].
  rewrite Nat2Z.id. apply store_nat_here.
Qed.

(** three consecutive writes, as each of the loops over a flat array does *)
Lemma store3_here {A : Type} (i : Z) (l1 l2 : list A) (x y z a b c : A) :
  i = size l1 ->
  store (i + 2) c (store (i + 1) b (store i a (l1 ++ x :: y :: z :: l2)))
  = (l1 ++ [a; b; c]) ++ l2.
Proof.
  intros Hi.
  rewrite (store_here i) by exact Hi.
  change (l1 ++ a :: y :: z :: l2) with (l1 ++ [a] ++ y :: z :: l2).
  rewrite app_assoc. rewrite (store_here (i + 1)) by (rewrite size_app; unfold size at 2; simpl; lia).
  change ((l1 ++ [a]) ++ b :: z :: l2) with ((l1 ++ [a]) ++ [b] ++ z :: l2).
  rewrite app_assoc. rewrite (store_here (i + 2)) by (rewrite !size_app; unfold size at 2 3; simpl; lia).
  rewrite <- !app_assoc. reflexivity.
Qed.

Lemma repeat_succ3 {A : Type} (d : A) (n : Z) :
  0 <= n ->
  repeat d (Z.to_nat (3 * (n + 1))) = d :: d :: d :: repeat d (Z.to_nat (3 * n)).
Proof.
  intros Hn.
  replace (Z.to_nat (3 * (n + 1))) with (3 + Z.to_nat (3 * n))%nat by lia.
  reflexivity.
Qed.

Lemma at_app_here {A : Type} (d : A) (l1 l2 : list A) (x : A) (i : Z) :
  i = size l1 -> at_ d (l1 ++ x :: l2) i = x.
Proof.
  intros ->. unfold at_, size.
  destruct (Z.ltb_spec (Z.of_nat (length l1)) 0) as [H|_]; [lia|].
  rewrite Nat2Z.id. rewrite app_nth2 by lia. now rewrite Nat.sub_diag.
Qed.

Lemma at_nth {A : Type} (d : A) (l : list A) (k : nat) :
  at_ d l (Z.of_nat k) = nth k l d.
Proof.
  unfold at_. destruct (Z.ltb_spec (Z.of_nat k) 0) as [H|_]; [lia|].
  now rewrite Nat2Z.id.
Qed.

Lemma firstn_succ_at {A : Type} (d : A) (l : list A) (k : nat) :
  (k < length l)%nat ->
  firstn (Datatypes.S k) l = firstn k l ++ [at_ d l (Z.of_nat k)].
Proof.
  intros Hk. rewrite at_nth. revert l Hk.
  induction k as [|k IH]; intros [|e l] Hk; simpl in *; try lia.
  - reflexivity.
  - f_equal. apply IH. lia.
Qed.

Lemma std_copy_exact {A : Type} (src dst : list A) :
  length src = length dst -> std_copy src dst = src.
Proof.
  intros H. unfold std_copy. rewrite <- H, firstn_all, H, skipn_all.
  apply app_nil_r.
Qed.

Lemma flatten_app (l1 l2 : list Eigen.Vector3d) :
  flatten (l1 ++ l2) = flatten l1 ++ flatten l2.
Proof. unfold flatten. apply flat_map_app. Qed.

Lemma flatten_length (l : list Eigen.Vector3d) :
  size (flatten l) = 3 * size l.
Proof.
  unfold size. induction l as [|p l IH]; simpl; [reflexivity|].
  change (flat_map (fun p => [Eigen.x p; Eigen.y p; Eigen.z p]) l) with (flatten l).
  lia.
Qed.

(** ** The order of the doubles *)

Lemma is_nan_spec (f : float) :
  PrimFloat.is_nan f = false <-> Prim2SF f <> S754_nan.
Proof.
  unfold PrimFloat.is_nan. rewrite eqb_spec. unfold SFeqb.
  destruct (Prim2SF f) as [s| s| |s m e]; simpl.
  - split; [discriminate|reflexivity].
  - destruct s; simpl; split; [discriminate|reflexivity| discriminate | reflexivity].
  - split; [discriminate|congruence].
  - destruct s; rewrite Z.compare_refl, Pos.compare_cont_refl; simpl; split; [discriminate|reflexivity| discriminate | reflexivity].
Qed.

Lemma SFcompare_key (a b : spec_float) :
  a <> S754_nan -> b <> S754_nan ->
  (SFcompare a b = Some Lt <-> key_lt (SFkey a) (SFkey b))
  /\ (SFcompare a b = Some Eq <-> SFkey a = SFkey b).
Proof.
  intros Ha Hb.
  destruct a as [sa|sa| |sa ma ea]; [| | congruence |];
  destruct b as [sb|sb| |sb mb eb]; try congruence; simpl;
  repeat match goal with s : bool |- _ => destruct s end; simpl;
  try (split; split; intros H; first [discriminate H | reflexivity | lia | (inversion H; lia) | idtac]; fail).
  all: try (change (PosDef.Pos.compare_cont Eq ma mb) with (Z.pos ma ?= Z.pos mb)).
  - destruct (Z.compare_spec ea eb), (Z.compare_spec (Z.pos ma) (Z.pos mb)); simpl; split; split; intros H'; try discriminate H'; try reflexivity; try lia; try (inversion H'; lia); try (f_equal; f_equal; lia).
  - destruct (Z.compare_spec ea eb), (Z.compare_spec (Z.pos ma) (Z.pos mb)); simpl; split; split; intros H'; try discriminate H'; try reflexivity; try lia; try (inversion H'; lia); try (f_equal; f_equal; lia).
Qed.

Lemma ltb_key (a b : float) :
  PrimFloat.is_nan a = false -> PrimFloat.is_nan b = false ->
  (PrimFloat.ltb a b = true <-> key_lt (fkey a) (fkey b)).
Proof.
  intros Ha Hb. apply is_nan_spec in Ha. apply is_nan_spec in Hb.
  rewrite ltb_spec. unfold SFltb, fkey.
  destruct (SFcompare_key _ _ Ha Hb) as [Hlt _]. rewrite <- Hlt.
  destruct (SFcompare (Prim2SF a) (Prim2SF b)) as [[]|];
    split; intros H; congruence.
Qed.

Lemma eqb_key (a b : float) :
  PrimFloat.is_nan a = false -> PrimFloat.is_nan b = false ->
  (PrimFloat.eqb a b = true <-> fkey a = fkey b).
Proof.
  intros Ha Hb. apply is_nan_spec in Ha. apply is_nan_spec in Hb.
  rewrite eqb_spec. unfold SFeqb, fkey.
  destruct (SFcompare_key _ _ Ha Hb) as [_ Heq]. rewrite <- Heq.
  destruct (SFcompare (Prim2SF a) (Prim2SF b)) as [[]|];
    split; intros H; congruence.
Qed.

Lemma key_lt_irrefl (a : Z * Z * Z) : ~ key_lt a a.
Proof. destruct a as [[a1 a2] a3]. unfold key_lt. lia. Qed.

Lemma key_lt_trans (a b c : Z * Z * Z) : key_lt a b -> key_lt b c -> key_lt a c.
Proof.
  destruct a as [[a1 a2] a3], b as [[b1 b2] b3], c as [[c1 c2] c3].
  unfold key_lt. lia.
Qed.

Lemma key_lt_total (a b : Z * Z * Z) : key_lt a b \/ a = b \/ key_lt b a.
Proof.
  destruct a as [[a1 a2] a3], b as [[b1 b2] b3]. unfold key_lt.
  destruct (Z.lt_trichotomy a1 b1) as [H|[H|H]]; [lia| |lia].
  destruct (Z.lt_trichotomy a2 b2) as [H2|[H2|H2]]; [lia| |lia].
  destruct (Z.lt_trichotomy a3 b3) as [H3|[H3|H3]]; [lia| |lia].
  right; left. congruence.
Qed.

Lemma vkey_lt_irrefl a : ~ vkey_lt a a.
Proof.
  destruct a as [[a1 a2] a3]. unfold vkey_lt.
  pose proof (key_lt_irrefl a1). pose proof (key_lt_irrefl a2).
  pose proof (key_lt_irrefl a3). tauto.
Qed.

Lemma vkey_lt_trans a b c : vkey_lt a b -> vkey_lt b c -> vkey_lt a c.
Proof.
  destruct a as [[a1 a2] a3], b as [[b1 b2] b3], c as [[c1 c2] c3].
  unfold vkey_lt.
  intros [H|[-> [H|[-> H]]]] [H'|[<- [H'|[<- H']]]];
    eauto 6 using key_lt_trans.
Qed.

Lemma vkey_lt_total a b : vkey_lt a b \/ a = b \/ vkey_lt b a.
Proof.
  destruct a as [[a1 a2] a3], b as [[b1 b2] b3]. unfold vkey_lt.
  destruct (key_lt_total a1 b1) as [H|[->|H]]; [tauto| |tauto].
  destruct (key_lt_total a2 b2) as [H2|[->|H2]]; [tauto| |tauto].
  destruct (key_lt_total a3 b3) as [H3|[->|H3]]; tauto.
Qed.

Lemma ltb_cases (a b : float) :
  PrimFloat.is_nan a = false -> PrimFloat.is_nan b = false ->
  (PrimFloat.ltb a b = true /\ key_lt (fkey a) (fkey b))
  \/ (PrimFloat.ltb a b = false /\ ~ key_lt (fkey a) (fkey b)).
Proof.
  intros Ha Hb. pose proof (ltb_key a b Ha Hb) as H.
  destruct (PrimFloat.ltb a b); [left|right]; split; try reflexivity.
  - now apply H.
  - intros K. apply H in K. discriminate.
Qed.

(** [ltLocalVertexValue] is the strict order of the keys *)
Lemma ltLocalVertexValue_key (p q : detail.LocalVertexType) :
  lv_no_nan p -> lv_no_nan q ->
  (detail.ltLocalVertexValue p q = true <-> vkey_lt (vkey p) (vkey q)).
Proof.
  intros (Hx & Hy & Hz) (Hx' & Hy' & Hz').
  unfold detail.ltLocalVertexValue, vkey, vkey_lt.
  destruct (ltb_cases _ _ Hx Hx') as [[-> K1]|[-> K1]]; [tauto|].
  destruct (ltb_cases _ _ Hx' Hx) as [[-> K2]|[-> K2]].
  { split; [discriminate|]. intros [K|[K _]]; [tauto|].
    rewrite K in K2. now apply key_lt_irrefl in K2. }
  assert (E1 : fkey (detail.x p) = fkey (detail.x q))
    by (destruct (key_lt_total (fkey (detail.x p)) (fkey (detail.x q))) as [?|[?|?]]; tauto).
  destruct (ltb_cases _ _ Hy Hy') as [[-> K3]|[-> K3]]; [tauto|].
  destruct (ltb_cases _ _ Hy' Hy) as [[-> K4]|[-> K4]].
  { split; [discriminate|]. intros [K|[_ [K|[K _]]]]; [tauto|tauto|].
    rewrite K in K4. now apply key_lt_irrefl in K4. }
  assert (E2 : fkey (detail.y p) = fkey (detail.y q))
    by (destruct (key_lt_total (fkey (detail.y p)) (fkey (detail.y q))) as [?|[?|?]]; tauto).
  destruct (ltb_cases _ _ Hz Hz') as [[-> K5]|[-> K5]]; [tauto|].
  split; [discriminate|tauto].
Qed.

(** ** The ordered set *)

Section SetFacts.

Context {T K : Type} (comp : T -> T -> bool) (key : T -> K)
        (klt : K -> K -> Prop) (ok : T -> Prop).

Hypothesis comp_key :
  forall a b, ok a -> ok b -> (comp a b = true <-> klt (key a) (key b)).
Hypothesis klt_irrefl : forall a, ~ klt a a.
Hypothesis klt_trans : forall a b c, klt a b -> klt b c -> klt a c.
Hypothesis klt_total : forall a b, klt a b \/ a = b \/ klt b a.

Lemma lower_bound_incl (k : T) (s : list T) :
  incl (StdSet.lower_bound comp k s) s.
Proof.
  induction s as [|e s IH]; simpl; [apply incl_refl|].
  destruct (comp e k); [|apply incl_refl].
  apply incl_tl. exact IH.
Qed.

Lemma lower_bound_head (k e : T) (s r : list T) :
  StdSet.lower_bound comp k s = e :: r -> comp e k = false.
Proof.
  induction s as [|a s IH]; simpl; [discriminate|].
  destruct (comp a k) eqn:E; [exact IH|]. intros H. now inversion H; subst.
Qed.

(** what [find] returns is an element of the set with the key looked up *)
Lemma find_some (k e : T) (s : list T) :
  Forall ok s -> ok k ->
  StdSet.find comp k s = Some e -> In e s /\ key e = key k.
Proof.
  intros Hs Hk. unfold StdSet.find.
  destruct (StdSet.lower_bound comp k s) as [|a r] eqn:E; [discriminate|].
  destruct (comp k a) eqn:E2; [discriminate|]. intros H. inversion H; subst a.
  assert (Hin : In e s) by (apply (lower_bound_incl k s); rewrite E; now left).
  split; [exact Hin|].
  assert (He : ok e) by (rewrite Forall_forall in Hs; now apply Hs).
  pose proof (lower_bound_head _ _ _ _ E) as E1.
  destruct (klt_total (key e) (key k)) as [H1|[H1|H1]]; [|exact H1|].
  - apply comp_key in H1; [congruence|assumption|assumption].
  - apply comp_key in H1; [congruence|assumption|assumption].
Qed.

(** [find] misses only a key that no element of the set has *)
Lemma find_none (k : T) (s : list T) :
  Forall ok s -> ok k -> set_sorted key klt s ->
  StdSet.find comp k s = None -> forall e, In e s -> key e <> key k.
Proof.
  intros Hs Hk Hsort. unfold StdSet.find.
  induction s as [|a s IH]; simpl; [intros _ e []|].
  inversion Hs as [|? ? Ha Hs']; subst. inversion Hsort as [|? ? Hsort' Hall]; subst.
  destruct (comp a k) eqn:E.
  - intros H e [<-|Hin].
    + apply comp_key in E; [|assumption|assumption].
      intros Heq. rewrite Heq in E. now apply klt_irrefl in E.
    + now apply IH.
  - destruct (comp k a) eqn:E2; [|discriminate]. intros _.
    apply comp_key in E2; [|assumption|assumption].
    intros e [<-|Hin] Heq.
    + rewrite Heq in E2. now apply klt_irrefl in E2.
    + rewrite Forall_forall in Hall. specialize (Hall e Hin).
      rewrite Heq in Hall. apply (klt_irrefl (key k)). eapply klt_trans; eassumption.
Qed.

Lemma insert_perm (k : T) (s : list T) :
  Forall ok s -> ok k -> (forall e, In e s -> key e <> key k) ->
  Permutation (StdSet.insert comp k s) (k :: s).
Proof.
  intros Hs Hk. induction s as [|a s IH]; simpl; intros Hne; [apply Permutation_refl|].
  inversion Hs as [|? ? Ha Hs']; subst.
  destruct (comp a k) eqn:E.
  - eapply Permutation_trans; [apply perm_skip, IH; auto|apply perm_swap].
  - destruct (comp k a) eqn:E2; [apply Permutation_refl|].
    exfalso. apply (Hne a); [now left|].
    destruct (klt_total (key a) (key k)) as [H1|[H1|H1]]; [|exact H1|];
      apply comp_key in H1; try assumption; congruence.
Qed.

Lemma insert_sorted (k : T) (s : list T) :
  Forall ok s -> ok k -> (forall e, In e s -> key e <> key k) ->
  set_sorted key klt s -> set_sorted key klt (StdSet.insert comp k s).
Proof.
  intros Hs Hk. induction s as [|a s IH]; simpl; intros Hne Hsort.
  - constructor; constructor.
  - inversion Hs as [|? ? Ha Hs']; subst.
    inversion Hsort as [|? ? Hsort' Hall]; subst.
    destruct (comp a k) eqn:E.
    + apply comp_key in E; [|assumption|assumption].
      pose proof (insert_perm k s Hs' Hk (fun e H => Hne e (or_intror H))) as Hperm.
      constructor; [apply IH; auto|].
      rewrite Forall_forall in Hall |- *. intros e He.
      apply (Permutation_in _ Hperm) in He.
      destruct He as [<-|He]; [exact E|now apply Hall].
    + destruct (comp k a) eqn:E2.
      * apply comp_key in E2; [|assumption|assumption].
        constructor; [exact Hsort|]. constructor; [exact E2|].
        rewrite Forall_forall in Hall |- *. intros e He.
        eapply klt_trans; [exact E2|now apply Hall].
      * exact Hsort.
Qed.

(** the elements of a sorted set have pairwise different keys *)
Lemma sorted_keys_NoDup (s : list T) : set_sorted key klt s -> NoDup (map key s).
Proof.
  induction 1 as [|a s Hs IH Hall]; simpl; constructor; [|exact IH].
  rewrite in_map_iff. intros (e & Heq & Hin).
  rewrite Forall_forall in Hall. specialize (Hall e Hin). rewrite Heq in Hall.
  now apply klt_irrefl in Hall.
Qed.

End SetFacts.

(** ** Sorting by a numeric key without repetition *)

Section SortFacts.

Context {T : Type} (f : T -> Z).

Let comp (a b : T) : bool := f a <? f b.

Lemma sort_insert_perm (k : T) (l : list T) :
  Permutation (StdSet.sort_insert comp k l) (k :: l).
Proof.
  induction l as [|e l IH]; simpl; [apply Permutation_refl|].
  destruct (comp k e); [apply Permutation_refl|].
  eapply Permutation_trans; [apply perm_skip, IH|apply perm_swap].
Qed.

Lemma sort_perm (l : list T) : Permutation (StdSet.sort comp l) l.
Proof.
  induction l as [|e l IH]; simpl; [apply Permutation_refl|].
  eapply Permutation_trans; [apply sort_insert_perm|]. now apply perm_skip.
Qed.

Lemma sort_insert_sorted (k : T) (l : list T) :
  StronglySorted (fun a b => f a <= f b) l ->
  StronglySorted (fun a b => f a <= f b) (StdSet.sort_insert comp k l).
Proof.
  induction 1 as [|e l Hl IH Hall]; simpl.
  - constructor; constructor.
  - unfold comp at 1. destruct (Z.ltb_spec (f k) (f e)) as [H|H].
    + constructor; [constructor; assumption|].
      constructor; [lia|]. rewrite Forall_forall in *. intros a Ha.
      specialize (Hall a Ha). lia.
    + constructor; [exact IH|].
      rewrite Forall_forall in *. intros a Ha.
      apply (Permutation_in _ (sort_insert_perm k l)) in Ha.
      destruct Ha as [<-|Ha]; [exact H|now apply Hall].
Qed.

Lemma sort_sorted (l : list T) :
  StronglySorted (fun a b => f a <= f b) (StdSet.sort comp l).
Proof.
  induction l as [|e l IH]; simpl; [constructor|]. now apply sort_insert_sorted.
Qed.

Lemma sorted_le_NoDup_lt (l : list T) :
  StronglySorted (fun a b => f a <= f b) l -> NoDup (map f l) ->
  StronglySorted (fun a b => f a < f b) l.
Proof.
  induction 1 as [|e l Hl IH Hall]; simpl; intros Hnd; [constructor|].
  inversion Hnd as [|? ? Hnin Hnd']; subst.
  constructor; [now apply IH|].
  rewrite Forall_forall in *. intros a Ha. specialize (Hall a Ha).
  assert (f a <> f e) by (intros Heq; apply Hnin; rewrite <- Heq; now apply in_map).
  lia.
Qed.

Lemma sorted_lt_unique (l1 l2 : list T) :
  StronglySorted (fun a b => f a < f b) l1 ->
  StronglySorted (fun a b => f a < f b) l2 ->
  Permutation l1 l2 -> l1 = l2.
Proof.
  intros H1. revert l2. induction H1 as [|a l1 Hl1 IH Hall1]; intros l2 H2 Hp.
  - apply Permutation_nil in Hp. now subst.
  - destruct l2 as [|b l2]; [apply Permutation_sym, Permutation_nil in Hp; discriminate|].
    inversion H2 as [|? ? Hl2 Hall2]; subst.
    assert (Hab : a = b).
    { assert (Ha : In a (b :: l2)) by (eapply Permutation_in; [exact Hp|now left]).
      assert (Hb : In b (a :: l1)) by (eapply Permutation_in; [apply Permutation_sym; exact Hp|now left]).
      destruct Ha as [Ha|Ha]; [now symmetry|].
      destruct Hb as [Hb|Hb]; [exact Hb|].
      rewrite Forall_forall in Hall1, Hall2.
      specialize (Hall1 b Hb). specialize (Hall2 a Ha). lia. }
    subst b. f_equal. apply IH; [exact Hl2|]. now apply Permutation_cons_inv in Hp.
Qed.

(** sorting a rearrangement of a strictly increasing list gives that list *)
Lemma sort_of_perm (s l : list T) :
  Permutation s l -> StronglySorted (fun a b => f a < f b) l ->
  StdSet.sort comp s = l.
Proof.
  intros Hp Hl.
  apply sorted_lt_unique; [|exact Hl|].
  - apply sorted_le_NoDup_lt; [apply sort_sorted|].
    apply (Permutation_NoDup (l := map f l)).
    + apply Permutation_map. apply Permutation_sym.
      eapply Permutation_trans; [apply sort_perm|exact Hp].
    + clear Hp. induction Hl as [|e l Hl IH Hall]; simpl; constructor; [|exact IH].
      rewrite in_map_iff. intros (a & Heq & Ha).
      rewrite Forall_forall in Hall. specialize (Hall a Ha). lia.
  - eapply Permutation_trans; [apply sort_perm|exact Hp].
Qed.

End SortFacts.

(** ** Points and their keys *)

Lemma pkey_eq_dec (a b : (Z * Z * Z) * (Z * Z * Z) * (Z * Z * Z)) : {a = b} + {a <> b}.
Proof. repeat decide equality. Qed.

Lemma same_point_key (p q : Eigen.Vector3d) :
  no_nan p -> no_nan q -> (same_point p q = true <-> pkey p = pkey q).
Proof.
  intros (Hx & Hy & Hz) (Hx' & Hy' & Hz'). unfold same_point, pkey.
  rewrite !andb_true_iff, !eqb_key by assumption.
  split; [intros [[-> ->] ->]; reflexivity|intros H; inversion H; auto].
Qed.

Lemma same_point_refl (p : Eigen.Vector3d) : no_nan p -> same_point p p = true.
Proof. intros H. now apply same_point_key. Qed.

Lemma existsb_same_point_key (p : Eigen.Vector3d) (l : list Eigen.Vector3d) :
  no_nan p -> Forall no_nan l ->
  (existsb (fun q => same_point q p) l = true <-> In (pkey p) (map pkey l)).
Proof.
  intros Hp Hl. rewrite existsb_exists, in_map_iff. rewrite Forall_forall in Hl.
  split; intros (q & H1 & H2).
  - exists q. split; [|exact H1]. apply same_point_key; auto.
  - exists q. split; [exact H2|]. apply same_point_key; auto.
Qed.

Lemma existsb_same_point_key' (p : Eigen.Vector3d) (l : list Eigen.Vector3d) :
  no_nan p -> Forall no_nan l ->
  (existsb (same_point p) l = true <-> In (pkey p) (map pkey l)).
Proof.
  intros Hp Hl. rewrite existsb_exists, in_map_iff. rewrite Forall_forall in Hl.
  split; intros (q & H1 & H2).
  - exists q. split; [|exact H1]. symmetry. apply same_point_key; auto.
  - exists q. split; [exact H2|]. apply same_point_key; auto.
Qed.

(** *** The points in order of first appearance *)

Lemma first_occurrences_snoc (l : list Eigen.Vector3d) (p : Eigen.Vector3d) :
  first_occurrences (l ++ [p]) = note_point (first_occurrences l) p.
Proof. unfold first_occurrences. now rewrite fold_left_app. Qed.

Lemma first_occurrences_incl (l : list Eigen.Vector3d) :
  incl (first_occurrences l) l.
Proof.
  induction l as [|p l IH] using rev_ind; [apply incl_refl|].
  rewrite first_occurrences_snoc. unfold note_point.
  destruct (existsb _ _).
  - apply incl_appl. exact IH.
  - apply incl_app; [apply incl_appl; exact IH|apply incl_appr, incl_refl].
Qed.

Lemma first_occurrences_no_nan (l : list Eigen.Vector3d) :
  Forall no_nan l -> Forall no_nan (first_occurrences l).
Proof.
  intros H. rewrite Forall_forall in *. intros p Hp.
  apply H. now apply first_occurrences_incl.
Qed.

Lemma first_occurrences_keys (l : list Eigen.Vector3d) :
  Forall no_nan l ->
  NoDup (map pkey (first_occurrences l))
  /\ (forall k, In k (map pkey (first_occurrences l)) <-> In k (map pkey l)).
Proof.
  induction l as [|p l IH] using rev_ind; intros Hl.
  - split; [constructor|tauto].
  - apply Forall_app in Hl as [Hl Hp]. inversion Hp as [|? ? Hp' _]; subst.
    destruct (IH Hl) as [Hnd Hin].
    pose proof (first_occurrences_no_nan l Hl) as HF.
    rewrite first_occurrences_snoc. unfold note_point.
    pose proof (existsb_same_point_key p _ Hp' HF) as Hex.
    destruct (existsb _ _).
    + split; [exact Hnd|]. intros k. rewrite map_app, in_app_iff, Hin. simpl.
      assert (In (pkey p) (map pkey l)) by (apply Hin, Hex; reflexivity).
      split; [tauto|]. intros [H'|[<-|[]]]; assumption.
    + split.
      * rewrite map_app. simpl.
        apply Permutation_NoDup with (l := pkey p :: map pkey (first_occurrences l)).
        { apply Permutation_cons_append. }
        constructor; [|exact Hnd]. intros K. apply Hex in K. discriminate.
      * intros k. rewrite !map_app, !in_app_iff, Hin. tauto.
Qed.

Lemma count_distinct_nodup (l : list Eigen.Vector3d) :
  Forall no_nan l ->
  count_distinct l = length (nodup pkey_eq_dec (map pkey l)).
Proof.
  induction l as [|p l IH]; intros Hl; simpl; [reflexivity|].
  inversion Hl as [|? ? Hp Hl']; subst.
  pose proof (existsb_same_point_key' p l Hp Hl') as Hex.
  destruct (in_dec pkey_eq_dec (pkey p) (map pkey l)) as [Hin|Hnin].
  - apply Hex in Hin. rewrite Hin. now apply IH.
  - destruct (existsb (same_point p) l); [exfalso; apply Hnin, Hex; reflexivity|].
    simpl. f_equal. now apply IH.
Qed.

(** as many first appearances as distinct coordinate triples *)
Lemma first_occurrences_length (l : list Eigen.Vector3d) :
  Forall no_nan l -> length (first_occurrences l) = count_distinct l.
Proof.
  intros Hl. rewrite count_distinct_nodup by exact Hl.
  destruct (first_occurrences_keys l Hl) as [Hnd Hin].
  rewrite <- (length_map pkey).
  apply Permutation_length, NoDup_Permutation; [exact Hnd|apply NoDup_nodup|].
  intros k. rewrite Hin, nodup_In. reflexivity.
Qed.

Lemma position_of_bound (p : Eigen.Vector3d) (l : list Eigen.Vector3d) :
  existsb (fun q => same_point q p) l = true -> 0 <= position_of p l < size l.
Proof.
  unfold size. induction l as [|q l IH]; cbn [position_of existsb length];
    [discriminate|].
  rewrite Nat2Z.inj_succ.
  destruct (same_point q p); cbn [orb]; [lia|]. intros H. specialize (IH H). lia.
Qed.

Lemma position_of_app (p : Eigen.Vector3d) (l1 l2 : list Eigen.Vector3d) :
  existsb (fun q => same_point q p) l1 = true ->
  position_of p (l1 ++ l2) = position_of p l1.
Proof.
  induction l1 as [|q l1 IH]; cbn [position_of existsb app]; [discriminate|].
  destruct (same_point q p); cbn [orb]; [reflexivity|]. intros H. now rewrite IH.
Qed.

Lemma position_of_new (p : Eigen.Vector3d) (l : list Eigen.Vector3d) :
  existsb (fun q => same_point q p) l = false -> same_point p p = true ->
  position_of p (l ++ [p]) = size l.
Proof.
  unfold size. induction l as [|q l IH]; cbn [position_of existsb app length];
    intros H Hp.
  - now rewrite Hp.
  - apply orb_false_iff in H as [-> H]. rewrite IH by assumption. lia.
Qed.

(** the point found at a position is one with the same coordinates *)
Lemma position_of_same (d p : Eigen.Vector3d) (l : list Eigen.Vector3d) :
  existsb (fun q => same_point q p) l = true ->
  same_point (at_ d l (position_of p l)) p = true.
Proof.
  induction l as [|q l IH]; cbn [position_of existsb]; [discriminate|].
  destruct (same_point q p) eqn:E; cbn [orb];
    [intros _; unfold at_; simpl; exact E|].
  intros H. specialize (IH H).
  pose proof (position_of_bound p l H) as Hb.
  unfold at_ in *. destruct (Z.ltb_spec (position_of p l) 0); [lia|].
  destruct (Z.ltb_spec (1 + position_of p l) 0); [lia|].
  replace (Z.to_nat (1 + position_of p l)) with (Datatypes.S (Z.to_nat (position_of p l))) by lia.
  exact IH.
Qed.

Lemma position_of_key (d p : Eigen.Vector3d) (l : list Eigen.Vector3d) (j : nat) :
  Forall no_nan l -> no_nan p -> NoDup (map pkey l) ->
  (j < length l)%nat -> pkey (nth j l d) = pkey p ->
  position_of p l = Z.of_nat j.
Proof.
  intros Hl Hp. revert j.
  induction l as [|q l IH]; cbn [position_of map length nth]; intros j Hnd Hj Hk; [lia|].
  inversion Hl as [|? ? Hq Hl']; subst. inversion Hnd as [|? ? Hnin Hnd']; subst.
  destruct j as [|j].
  - apply same_point_key in Hk; [|assumption|assumption]. now rewrite Hk.
  - destruct (same_point q p) eqn:E.
    + exfalso. apply same_point_key in E; [|assumption|assumption].
      apply Hnin. rewrite E, <- Hk. apply in_map, nth_In. lia.
    + rewrite (IH Hl' j Hnd') by (assumption || lia). lia.
Qed.

Lemma first_occurrences_covers (l : list Eigen.Vector3d) (q : Eigen.Vector3d) :
  Forall no_nan l -> In q l ->
  existsb (fun f => same_point f q) (first_occurrences l) = true.
Proof.
  intros Hl Hq.
  apply existsb_same_point_key.
  - rewrite Forall_forall in Hl. now apply Hl.
  - now apply first_occurrences_no_nan.
  - apply (first_occurrences_keys l Hl). now apply in_map.
Qed.

Lemma first_occurrences_size_le (l : list Eigen.Vector3d) :
  size (first_occurrences l) <= size l.
Proof.
  unfold size. induction l as [|p l IH] using rev_ind; [simpl; lia|].
  rewrite first_occurrences_snoc. unfold note_point.
  destruct (existsb _ _); rewrite ?length_app; simpl; lia.
Qed.

(** ** The deduplication loop *)

Lemma number_from_snoc (k : Z) (F : list Eigen.Vector3d) (p : Eigen.Vector3d) :
  number_from k (F ++ [p])
  = number_from k F
    ++ [detail.mkLocalVertex (Eigen.x p) (Eigen.y p) (Eigen.z p) (k + size F)].
Proof.
  unfold size. revert k. induction F as [|q F IH]; intros k; cbn [number_from app length].
  - now rewrite Z.add_0_r.
  - rewrite IH. rewrite Nat2Z.inj_succ. do 4 f_equal. lia.
Qed.

Lemma number_from_length (k : Z) (F : list Eigen.Vector3d) :
  length (number_from k F) = length F.
Proof. revert k. induction F as [|q F IH]; intros k; simpl; [reflexivity|]. now rewrite IH. Qed.

Lemma number_from_nth (k : Z) (F : list Eigen.Vector3d) (j : nat) d d' :
  (j < length F)%nat ->
  nth j (number_from k F) d
  = detail.mkLocalVertex (Eigen.x (nth j F d')) (Eigen.y (nth j F d'))
                         (Eigen.z (nth j F d')) (k + Z.of_nat j).
Proof.
  revert k j. induction F as [|q F IH]; intros k j Hj; cbn [length] in Hj; [lia|].
  destruct j as [|j]; cbn [number_from nth].
  - now rewrite Z.add_0_r.
  - rewrite (IH (k + 1) j) by lia. f_equal. lia.
Qed.

Lemma number_from_in (k : Z) (F : list Eigen.Vector3d) (e : detail.LocalVertexType) d :
  In e (number_from k F) ->
  exists j, (j < length F)%nat
            /\ e = detail.mkLocalVertex (Eigen.x (nth j F d)) (Eigen.y (nth j F d))
                                        (Eigen.z (nth j F d)) (k + Z.of_nat j).
Proof.
  intros He. destruct (In_nth _ _ e He) as (j & Hj & Hn).
  rewrite number_from_length in Hj. exists j. split; [exact Hj|].
  rewrite <- Hn. now apply number_from_nth.
Qed.

Lemma number_from_sorted (k : Z) (F : list Eigen.Vector3d) :
  StronglySorted (fun a b => detail.index a < detail.index b) (number_from k F).
Proof.
  revert k. induction F as [|q F IH]; intros k; cbn [number_from]; constructor.
  - apply IH.
  - rewrite Forall_forall. intros e He.
    destruct (number_from_in _ _ _ q He) as (j & _ & ->). simpl. lia.
Qed.

Lemma number_from_no_nan (k : Z) (F : list Eigen.Vector3d) :
  Forall no_nan F -> Forall lv_no_nan (number_from k F).
Proof.
  intros H. revert k. induction H as [|q F Hq HF IH]; intros k; cbn [number_from];
    constructor; [exact Hq|apply IH].
Qed.

Lemma number_from_key (k : Z) (F : list Eigen.Vector3d) :
  map vkey (number_from k F) = map pkey F.
Proof.
  revert k. induction F as [|q F IH]; intros k; cbn [number_from map]; [reflexivity|].
  now rewrite IH.
Qed.

Lemma vfind_some k e s :
  Forall lv_no_nan s -> lv_no_nan k ->
  StdSet.find detail.ltLocalVertexValue k s = Some e -> In e s /\ vkey e = vkey k.
Proof.
  apply (find_some detail.ltLocalVertexValue vkey vkey_lt lv_no_nan);
    auto using ltLocalVertexValue_key, vkey_lt_total.
Qed.

Lemma vfind_none k s :
  Forall lv_no_nan s -> lv_no_nan k -> vset_sorted s ->
  StdSet.find detail.ltLocalVertexValue k s = None ->
  forall e, In e s -> vkey e <> vkey k.
Proof.
  apply (find_none detail.ltLocalVertexValue vkey vkey_lt lv_no_nan);
    eauto using ltLocalVertexValue_key, vkey_lt_irrefl, vkey_lt_trans.
Qed.

Lemma vinsert_perm k s :
  Forall lv_no_nan s -> lv_no_nan k -> (forall e, In e s -> vkey e <> vkey k) ->
  Permutation (StdSet.insert detail.ltLocalVertexValue k s) (k :: s).
Proof.
  apply (insert_perm detail.ltLocalVertexValue vkey vkey_lt lv_no_nan);
    auto using ltLocalVertexValue_key, vkey_lt_total.
Qed.

Lemma vinsert_sorted k s :
  Forall lv_no_nan s -> lv_no_nan k -> (forall e, In e s -> vkey e <> vkey k) ->
  vset_sorted s -> vset_sorted (StdSet.insert detail.ltLocalVertexValue k s).
Proof.
  apply (insert_sorted detail.ltLocalVertexValue vkey vkey_lt lv_no_nan);
    eauto using ltLocalVertexValue_key, vkey_lt_total, vkey_lt_trans.
Qed.

Lemma soup_inv_nil : soup_inv [] ([], []).
Proof. repeat split; [apply Permutation_refl|constructor]. Qed.

Lemma add_vertex_inv (P : list Eigen.Vector3d) (p : Eigen.Vector3d) st :
  Forall no_nan P -> no_nan p -> size P < 2 ^ 32 ->
  soup_inv P st -> soup_inv (P ++ [p]) (add_vertex p st).
Proof.
  intros HP Hp Hsize. destruct st as [s t]. intros (Hperm & Hsort & Ht).
  cbn [fst snd] in *.
  set (F := first_occurrences P) in *.
  assert (HF : Forall no_nan F) by now apply first_occurrences_no_nan.
  destruct (first_occurrences_keys P HP) as [Hnd Hkeys]. fold F in Hnd, Hkeys.
  assert (Hs : Forall lv_no_nan s).
  { rewrite Forall_forall. intros e He.
    apply (Permutation_in _ Hperm) in He.
    pose proof (number_from_no_nan 0 F HF) as H. rewrite Forall_forall in H. now apply H. }
  assert (Hvt : lv_no_nan (LocalVertexType_of p)) by exact Hp.
  assert (Hlen : size s = size F).
  { unfold size. f_equal. rewrite (Permutation_length Hperm). apply number_from_length. }
  pose proof (existsb_same_point_key p F Hp HF) as Hex.
  assert (Hcov : forall q, In q P -> existsb (fun f => same_point f q) F = true)
    by (intros q Hq; now apply first_occurrences_covers).
  unfold add_vertex, soup_inv.
  destruct (StdSet.find detail.ltLocalVertexValue (LocalVertexType_of p) s) as [e|] eqn:Efind;
    cbn [fst snd].
  - (* the point is known *)
    destruct (vfind_some _ _ _ Hs Hvt Efind) as [Hin Hkey].
    apply (Permutation_in _ Hperm) in Hin.
    destruct (number_from_in _ _ _ p Hin) as (j & Hj & He).
    assert (Hkj : pkey (nth j F p) = pkey p) by (rewrite He in Hkey; exact Hkey).
    assert (Hseen : existsb (fun q => same_point q p) F = true).
    { apply Hex. rewrite <- Hkj. apply in_map, nth_In, Hj. }
    rewrite first_occurrences_snoc. fold F. unfold note_point. rewrite Hseen.
    repeat split; cbn [fst snd]; [exact Hperm|exact Hsort|].
    rewrite map_app, Ht. cbn [map detail.with_index detail.index]. do 2 f_equal.
    rewrite (position_of_key p p F j HF Hp Hnd Hj Hkj). rewrite He. simpl. lia.
  - (* the point is new *)
    pose proof (vfind_none _ _ Hs Hvt Hsort Efind) as Hne.
    assert (Hseen : existsb (fun q => same_point q p) F = false).
    { apply not_true_is_false. intros E.
      apply Hex in E. rewrite <- (number_from_key 0) in E.
      apply in_map_iff in E as (e & Hk & He).
      apply (Hne e); [|exact Hk].
      apply (Permutation_in _ (Permutation_sym Hperm)). exact He. }
    rewrite first_occurrences_snoc. fold F. unfold note_point. rewrite Hseen.
    pose proof (first_occurrences_size_le P) as Hle. fold F in Hle.
    pose proof (size_nonneg F) as Hge.
    rewrite Hlen, u32_small by lia.
    set (vt := detail.with_index (LocalVertexType_of p) (size F)).
    assert (Hvt' : lv_no_nan vt) by exact Hp.
    assert (Hne' : forall e, In e s -> vkey e <> vkey vt) by exact Hne.
    repeat split; cbn [fst snd].
    + eapply Permutation_trans; [apply vinsert_perm; assumption|].
      rewrite number_from_snoc.
      eapply Permutation_trans; [apply perm_skip; exact Hperm|].
      apply Permutation_cons_append.
    + now apply vinsert_sorted.
    + rewrite map_app, Ht. cbn [map detail.index vt detail.with_index].
      f_equal.
      * apply map_ext_in. intros q Hq. symmetry. apply position_of_app. now apply Hcov.
      * f_equal. symmetry. apply position_of_new; [exact Hseen|now apply same_point_refl].
Qed.

(** ** Filling an array in a loop *)

Lemma repeat_split3 {A : Type} (d : A) (n k : Z) :
  0 <= k < n ->
  repeat d (Z.to_nat (3 * (n - k)))
  = d :: d :: d :: repeat d (Z.to_nat (3 * (n - (k + 1)))).
Proof.
  intros H. replace (n - k) with ((n - (k + 1)) + 1) by lia.
  rewrite repeat_succ3 by lia. reflexivity.
Qed.

Lemma seq_flat_map_succ {A : Type} (g : nat -> list A) (k : Z) :
  0 <= k ->
  flat_map g (seq 0 (Z.to_nat (k + 1)))
  = flat_map g (seq 0 (Z.to_nat k)) ++ g (Z.to_nat k).
Proof.
  intros H. replace (Z.to_nat (k + 1)) with (Datatypes.S (Z.to_nat k)) by lia.
  rewrite seq_S, flat_map_app. simpl. now rewrite app_nil_r.
Qed.

Lemma flat_map_length3 {A B : Type} (g : A -> list B) (l : list A) :
  (forall x, length (g x) = 3%nat) -> length (flat_map g l) = (3 * length l)%nat.
Proof.
  intros Hg. induction l as [|x l IH]; [reflexivity|].
  cbn [flat_map length]. rewrite length_app, Hg, IH. lia.
Qed.

(** a loop that writes the slots 3i, 3i+1, 3i+2 in its round i fills an
    array of 3n slots with the chunks it writes *)
Lemma fill3 {A : Type} (d : A) (n : Z) (a b c : Z -> A)
    (step : Z -> list A -> list A) :
  0 <= n ->
  (forall i arr, 0 <= i < n ->
     step i arr
     = store (3 * i + 2) (c i) (store (3 * i + 1) (b i) (store (3 * i) (a i) arr))) ->
  for_loop n step (repeat d (Z.to_nat (3 * n)))
  = flat_map (fun k => [a (Z.of_nat k); b (Z.of_nat k); c (Z.of_nat k)])
             (seq 0 (Z.to_nat n)).
Proof.
  intros Hn Hstep.
  set (g := fun k : nat => [a (Z.of_nat k); b (Z.of_nat k); c (Z.of_nat k)]).
  assert (Hlen : forall k, 0 <= k -> size (flat_map g (seq 0 (Z.to_nat k))) = 3 * k).
  { intros k Hk. unfold size. rewrite flat_map_length3 by reflexivity.
    rewrite length_seq. lia. }
  assert (H : for_loop n step (repeat d (Z.to_nat (3 * n)))
              = flat_map g (seq 0 (Z.to_nat n)) ++ repeat d (Z.to_nat (3 * (n - n)))).
  { apply (for_loop_ind
             (fun k arr => arr = flat_map g (seq 0 (Z.to_nat k))
                                 ++ repeat d (Z.to_nat (3 * (n - k))))).
    - exact Hn.
    - simpl. now rewrite Z.sub_0_r.
    - intros k arr Hk ->. rewrite Hstep by exact Hk.
      rewrite (repeat_split3 d n k Hk).
      rewrite store3_here by (now rewrite Hlen by lia).
      rewrite seq_flat_map_succ by lia. unfold g at 3.
      rewrite Z2Nat.id by lia. reflexivity. }
  rewrite H, Z.sub_diag. simpl. apply app_nil_r.
Qed.

(** a loop that writes slot i in its round i *)
Lemma fill1 {A : Type} (d : A) (n : Z) (a : Z -> A)
    (step : Z -> list A -> list A) :
  0 <= n ->
  (forall i arr, 0 <= i < n -> step i arr = store i (a i) arr) ->
  for_loop n step (repeat d (Z.to_nat n))
  = map (fun k => a (Z.of_nat k)) (seq 0 (Z.to_nat n)).
Proof.
  intros Hn Hstep.
  assert (H : for_loop n step (repeat d (Z.to_nat n))
              = map (fun k => a (Z.of_nat k)) (seq 0 (Z.to_nat n))
                ++ repeat d (Z.to_nat (n - n))).
  { apply (for_loop_ind
             (fun k arr => arr = map (fun k => a (Z.of_nat k)) (seq 0 (Z.to_nat k))
                                 ++ repeat d (Z.to_nat (n - k)))).
    - exact Hn.
    - simpl. now rewrite Z.sub_0_r.
    - intros k arr Hk ->. rewrite Hstep by exact Hk.
      replace (Z.to_nat (n - k)) with (Datatypes.S (Z.to_nat (n - (k + 1)))) by lia.
      cbn [repeat].
      rewrite store_here by (unfold size; rewrite length_map, length_seq; lia).
      replace (Z.to_nat (k + 1)) with (Datatypes.S (Z.to_nat k)) by lia.
      rewrite seq_S, map_app. cbn [map Nat.add]. rewrite Z2Nat.id by lia.
      now rewrite <- app_assoc. }
  rewrite H, Z.sub_diag. simpl. apply app_nil_r.
Qed.

Lemma flat_map_nth {A B : Type} (g : A -> list B) (d : A) (l : list A) :
  flat_map g l = flat_map (fun k => g (nth k l d)) (seq 0 (length l)).
Proof.
  induction l as [|x l IH] using rev_ind; [reflexivity|].
  rewrite length_app. cbn [length]. rewrite Nat.add_1_r, seq_S, !flat_map_app.
  cbn [flat_map Nat.add]. rewrite nth_middle. f_equal.
  rewrite IH, !flat_map_concat_map. f_equal. apply map_ext_in.
  intros k Hk. apply in_seq in Hk. now rewrite app_nth1 by lia.
Qed.

Lemma map_nth_seq {A : Type} (d : A) (l : list A) :
  map (fun k => nth k l d) (seq 0 (length l)) = l.
Proof.
  induction l as [|x l IH] using rev_ind; [reflexivity|].
  rewrite length_app. cbn [length]. rewrite Nat.add_1_r, seq_S, map_app.
  cbn [map Nat.add]. rewrite nth_middle. f_equal.
  rewrite <- IH at 2. apply map_ext_in.
  intros k Hk. apply in_seq in Hk. now rewrite app_nth1 by lia.
Qed.

(** a loop over the vertices of a mesh acts on its vertex array alone *)
Lemma for_loop_vertices (n : Z) (step : Z -> list float -> list float)
    (body : Z -> Mesh -> Mesh) (m : Mesh) :
  0 <= n ->
  (forall i mesh, body i mesh = set_vertices mesh (step i (vertices mesh))) ->
  for_loop n body m = set_vertices m (for_loop n step (vertices m)).
Proof.
  intros Hn Hbody.
  apply (for_loop_ind
           (fun k mesh => mesh = set_vertices m (for_loop k step (vertices m)))).
  - exact Hn.
  - now destruct m.
  - intros k mesh Hk ->. rewrite for_loop_succ by lia. now rewrite Hbody.
Qed.

(** ** createMeshFromVertices(source) *)

Lemma Forall_prefix {A : Type} (P : A -> Prop) (l : list A) (i : nat) :
  Forall P l -> Forall P (firstn i l).
Proof.
  intros H. revert i. induction H as [|x l Hx Hl IH]; intros [|i]; simpl;
    constructor; auto.
Qed.

Lemma Forall_firstn_le {A : Type} (P : A -> Prop) (l : list A) (i j : nat) :
  (i <= j)%nat -> Forall P (firstn j l) -> Forall P (firstn i l).
Proof.
  intros Hij H. replace i with (Nat.min i j) by lia.
  rewrite <- firstn_firstn. now apply Forall_prefix.
Qed.

Lemma whole_triangles_length (source : list Eigen.Vector3d) :
  size (whole_triangles source) = 3 * (size source / 3).
Proof.
  unfold whole_triangles, size. rewrite firstn_length_le.
  - rewrite Nat2Z.inj_mul, Nat2Z.inj_div. reflexivity.
  - pose proof (Nat.Div0.mul_div_le (length source) 3). lia.
Qed.

Lemma whole_triangles_firstn (source : list Eigen.Vector3d) :
  whole_triangles source = firstn (Z.to_nat (3 * (size source / 3))) source.
Proof.
  unfold whole_triangles, size. f_equal.
  rewrite <- (Nat2Z.id (3 * (length source / 3))). f_equal.
  rewrite Nat2Z.inj_mul, Nat2Z.inj_div. reflexivity.
Qed.

Lemma soup_loop_inv (source : list Eigen.Vector3d) :
  size source < 2 ^ 32 -> Forall no_nan (whole_triangles source) ->
  soup_inv (whole_triangles source)
           (for_loop (size source / 3) (soup_body source) ([], [])).
Proof.
  intros Hsize Hnan. rewrite whole_triangles_firstn in *.
  pose proof (size_nonneg source) as H0.
  set (n := size source / 3) in *.
  assert (Hn : 0 <= n) by (apply Z.div_pos; lia).
  assert (H3n : 3 * n <= size source) by (apply Z.mul_div_le; lia).
  apply (for_loop_ind
           (fun k st => soup_inv (firstn (Z.to_nat (3 * k)) source) st)).
  - exact Hn.
  - apply soup_inv_nil.
  - intros k st Hk Hinv.
    assert (Hpre : Forall no_nan (firstn (Z.to_nat (3 * (k + 1))) source))
      by (apply (Forall_firstn_le _ _ _ (Z.to_nat (3 * n))); [lia|exact Hnan]).
    set (d := indeterminate_Vector3d).
    set (P := firstn (Z.to_nat (3 * k)) source) in *.
    assert (E : firstn (Z.to_nat (3 * (k + 1))) source
                = ((P ++ [at_ d source (k * 3)]) ++ [at_ d source (k * 3 + 1)])
                  ++ [at_ d source (k * 3 + 1 + 1)]).
    { replace (Z.to_nat (3 * (k + 1)))
        with (Datatypes.S (Datatypes.S (Datatypes.S (Z.to_nat (3 * k))))) by lia.
      unfold size in H3n.
      rewrite (firstn_succ_at d), (firstn_succ_at d), (firstn_succ_at d) by lia.
      repeat f_equal; lia. }
    assert (Hsz : size (firstn (Z.to_nat (3 * (k + 1))) source) < 2 ^ 32).
    { unfold size in *. rewrite firstn_length_le by lia. lia. }
    rewrite E in *. clear E.
    rewrite !size_app in Hsz. pose proof (size_nonneg P) as HP0.
    unfold size at 2 3 4 in Hsz. cbn [length] in Hsz.
    apply Forall_app in Hpre as [Hpre Hc]. apply Forall_app in Hpre as [Hpre Hb].
    apply Forall_app in Hpre as [Hpre Ha].
    apply Forall_inv in Ha, Hb, Hc.
    unfold soup_body.
    rewrite (u32_small (k * 3)) by (unfold size in *; lia).
    rewrite (u32_small (k * 3 + 1)) by (unfold size in *; lia).
    rewrite (u32_small (k * 3 + 1 + 1)) by (unfold size in *; lia).
    apply add_vertex_inv; [| exact Hc | |].
    + apply Forall_app; split; [|now constructor]. apply Forall_app; split; [assumption|now constructor].
    + rewrite !size_app. unfold size at 2 3. cbn [length]. lia.
    + apply add_vertex_inv; [| exact Hb | |].
      * apply Forall_app; split; [assumption|now constructor].
      * rewrite !size_app. unfold size at 2. cbn [length]. lia.
      * apply add_vertex_inv; [exact Hpre | exact Ha | lia | exact Hinv].
Qed.

Lemma number_from_coords (F : list Eigen.Vector3d) d :
  flat_map (fun k => [detail.x (at_ d (number_from 0 F) (Z.of_nat k));
                      detail.y (at_ d (number_from 0 F) (Z.of_nat k));
                      detail.z (at_ d (number_from 0 F) (Z.of_nat k))])
           (seq 0 (length F))
  = flatten F.
Proof.
  unfold flatten.
  rewrite (flat_map_nth (fun p => [Eigen.x p; Eigen.y p; Eigen.z p]) indeterminate_Vector3d F).
  rewrite !flat_map_concat_map. f_equal. apply map_ext_in.
  intros k Hk. apply in_seq in Hk. rewrite at_nth.
  rewrite (number_from_nth 0 F k d indeterminate_Vector3d) by lia. reflexivity.
Qed.

Lemma createMeshFromVertices_soup_result (source : list Eigen.Vector3d) :
  3 <= size source -> 3 * size source < 2 ^ 32 ->
  Forall no_nan (whole_triangles source) ->
  createMeshFromVertices_soup source = (soup_log source, Some (soup_mesh source)).
Proof.
  intros H3 Hsize3 Hnan.
  assert (Hsize : size source < 2 ^ 32) by lia.
  pose proof (soup_loop_inv source Hsize Hnan) as Hinv.
  pose proof (whole_triangles_length source) as HW.
  set (n := size source / 3) in *.
  assert (Hn : 0 <= n < 2 ^ 32).
  { unfold n. split; [apply Z.div_pos; lia|]. apply Z.div_lt_upper_bound; lia. }
  assert (H3n : 3 * n <= size source) by (apply Z.mul_div_le; lia).
  unfold createMeshFromVertices_soup, soup_mesh, soup_log.
  destruct (Z.ltb_spec (size source) 3) as [?|_]; [lia|].
  fold n. rewrite (u32_small n) by exact Hn.
  destruct (for_loop n (soup_body source) ([], [])) as [s t].
  destruct Hinv as (Hperm & Hsort & Ht). cbn [fst snd] in *.
  set (W := whole_triangles source) in *. set (F := first_occurrences W) in *.
  assert (Hvt : StdSet.sort detail.ltLocalVertexIndex s = number_from 0 F)
    by (apply (sort_of_perm detail.index); [exact Hperm|apply number_from_sorted]).
  rewrite Hvt.
  assert (HsF : size (number_from 0 F) = size F)
    by (unfold size; now rewrite number_from_length).
  pose proof (first_occurrences_size_le W) as HFle. fold F in HFle.
  pose proof (size_nonneg F) as HF0.
  assert (Hst : size t = 3 * n) by (rewrite Ht; unfold size in *; now rewrite length_map).
  rewrite HsF, Hst, (u32_small (size F)) by lia.
  replace (3 * n / 3) with n by (rewrite Z.mul_comm, Z.div_mul; lia).
  rewrite (u32_small n) by exact Hn.
  f_equal. f_equal.
  rewrite (for_loop_vertices (size F)
             (fun i arr =>
                store (u32 (u32 (i * 3) + 2))
                      (detail.z (at_ (LocalVertexType_of indeterminate_Vector3d) (number_from 0 F) i))
                  (store (u32 (u32 (i * 3) + 1))
                      (detail.y (at_ (LocalVertexType_of indeterminate_Vector3d) (number_from 0 F) i))
                     (store (u32 (i * 3))
                        (detail.x (at_ (LocalVertexType_of indeterminate_Vector3d) (number_from 0 F) i))
                        arr))))
    by (lia || reflexivity).
  cbn [Mesh_new vertices].
  rewrite (fill3 indeterminate_double (size F)
             (fun i => detail.x (at_ (LocalVertexType_of indeterminate_Vector3d) (number_from 0 F) i))
             (fun i => detail.y (at_ (LocalVertexType_of indeterminate_Vector3d) (number_from 0 F) i))
             (fun i => detail.z (at_ (LocalVertexType_of indeterminate_Vector3d) (number_from 0 F) i))).
  2: lia.
  2: { intros i arr Hi. rewrite (u32_small (i * 3)) by lia.
       rewrite !u32_small by lia. now rewrite (Z.mul_comm i 3). }
  unfold size at 2. rewrite Nat2Z.id, number_from_coords.
  unfold set_triangles, set_vertices. cbn [vertex_count triangle_count vertices triangles normals].
  cbn [Mesh_new vertex_count triangle_count vertices triangles normals].
  rewrite std_copy_exact.
  2: { rewrite repeat_length. unfold size in Hst. lia. }
  rewrite Ht. reflexivity.
Qed.

Lemma flatten_at (d : float) (d' : Eigen.Vector3d) (F : list Eigen.Vector3d) (k : Z) :
  0 <= k < size F ->
  at_ d (flatten F) (3 * k) = Eigen.x (at_ d' F k)
  /\ at_ d (flatten F) (3 * k + 1) = Eigen.y (at_ d' F k)
  /\ at_ d (flatten F) (3 * k + 2) = Eigen.z (at_ d' F k).
Proof.
  intros Hk. unfold size in Hk.
  pose proof (firstn_skipn (Z.to_nat k) F) as Hsplit.
  destruct (skipn (Z.to_nat k) F) as [|q R] eqn:Hskip.
  { exfalso. apply (f_equal (@length _)) in Hsplit.
    rewrite app_nil_r, firstn_length_le in Hsplit by lia. lia. }
  assert (Hlen : size (firstn (Z.to_nat k) F) = k)
    by (unfold size; rewrite firstn_length_le by lia; lia).
  assert (Hq : at_ d' F k = q).
  { rewrite <- Hsplit. apply at_app_here. now rewrite Hlen. }
  rewrite Hq, <- Hsplit, flatten_app. cbn [flatten flat_map app].
  pose proof (flatten_length (firstn (Z.to_nat k) F)) as HL. rewrite Hlen in HL.
  repeat split.
  - apply at_app_here. lia.
  - change (flatten (firstn (Z.to_nat k) F) ++ Eigen.x q :: ?r)
      with (flatten (firstn (Z.to_nat k) F) ++ [Eigen.x q] ++ r).
    rewrite app_assoc. apply at_app_here.
    rewrite size_app. unfold size at 2. cbn [length]. lia.
  - change (flatten (firstn (Z.to_nat k) F) ++ Eigen.x q :: Eigen.y q :: ?r)
      with (flatten (firstn (Z.to_nat k) F) ++ [Eigen.x q; Eigen.y q] ++ r).
    rewrite app_assoc. apply at_app_here.
    rewrite size_app. unfold size at 2. cbn [length]. lia.
Qed.

Lemma soup_mesh_vertex (source : list Eigen.Vector3d) (k : Z) :
  0 <= k < size (first_occurrences (whole_triangles source)) ->
  Mesh_vertex (soup_mesh source) k
  = at_ indeterminate_Vector3d (first_occurrences (whole_triangles source)) k.
Proof.
  intros Hk. unfold Mesh_vertex, soup_mesh.
  cbn [computeNormals set_normals vertices].
  destruct (flatten_at indeterminate_double indeterminate_Vector3d _ k Hk) as (-> & -> & ->).
  now destruct (at_ indeterminate_Vector3d _ k).
Qed.

Lemma soup_mesh_points (source : list Eigen.Vector3d) :
  Mesh_points (soup_mesh source) = first_occurrences (whole_triangles source).
Proof.
  unfold Mesh_points.
  set (F := first_occurrences (whole_triangles source)).
  replace (Z.to_nat (vertex_count (soup_mesh source))) with (length F)
    by (unfold soup_mesh; cbn; unfold size; now rewrite Nat2Z.id).
  rewrite <- (map_nth_seq indeterminate_Vector3d F) at 2.
  apply map_ext_in. intros k Hk. apply in_seq in Hk.
  rewrite soup_mesh_vertex by (fold F; unfold size; lia). apply at_nth.
Qed.

Lemma first_occurrences_app (l1 l2 : list Eigen.Vector3d) :
  exists ext, first_occurrences (l1 ++ l2) = first_occurrences l1 ++ ext.
Proof.
  induction l2 as [|p l2 IH] using rev_ind.
  - exists []. now rewrite !app_nil_r.
  - destruct IH as [ext IH]. rewrite app_assoc, first_occurrences_snoc, IH.
    unfold note_point. destruct (existsb _ _).
    + now exists ext.
    + exists (ext ++ [p]). now rewrite app_assoc.
Qed.

Lemma position_of_ext (p q : Eigen.Vector3d) (l : list Eigen.Vector3d) :
  Forall no_nan l -> no_nan p -> no_nan q -> pkey p = pkey q ->
  position_of p l = position_of q l.
Proof.
  intros Hl Hp Hq Hk. induction Hl as [|f l Hf Hl IH]; [reflexivity|].
  cbn [position_of]. rewrite IH.
  assert (E : same_point f p = same_point f q).
  { apply eq_true_iff_eq. rewrite !same_point_key by assumption. now rewrite Hk. }
  now rewrite E.
Qed.

Lemma in_at {A : Type} (d : A) (l : list A) (j : Z) :
  0 <= j < size l -> In (at_ d l j) l.
Proof.
  intros Hj. unfold at_, size in *. destruct (Z.ltb_spec j 0); [lia|].
  apply nth_In. lia.
Qed.

Lemma at_map {A B : Type} (f : A -> B) (d : A) (d' : B) (l : list A) (j : Z) :
  0 <= j < size l -> at_ d' (map f l) j = f (at_ d l j).
Proof.
  intros Hj. unfold at_, size in *. destruct (Z.ltb_spec j 0); [lia|].
  rewrite (nth_indep _ d' (f d)) by (rewrite length_map; lia). apply map_nth.
Qed.

Lemma firstn_at_split {A : Type} (d : A) (l : list A) (j : Z) :
  0 <= j < size l ->
  l = firstn (Z.to_nat j) l ++ at_ d l j :: skipn (Datatypes.S (Z.to_nat j)) l.
Proof.
  intros Hj. unfold size in Hj.
  rewrite <- (firstn_skipn (Datatypes.S (Z.to_nat j)) l) at 1.
  rewrite (firstn_succ_at d) by lia. rewrite Z2Nat.id by lia.
  now rewrite <- app_assoc.
Qed.

(** C1 (amended). For every flat point stream of at least 3 points, with
    no NaN coordinate among the points of its whole triangles and small enough
    for 32-bit index arithmetic (3 * length < 2^32),
    createMeshFromVertices(source) returns a mesh whose vertex array has one
    entry per distinct coordinate triple of the processed points: its length
    is their number, every processed point has the coordinates of exactly one
    vertex, every vertex is one of the processed points, and every entry of
    the triangle-index array is below vertex_count. Coordinates are compared
    with the equality of doubles, for which +0 and -0 are the same. *)
Theorem soup_vertices_are_the_distinct_points (source : list Eigen.Vector3d) :
  3 <= size source -> 3 * size source < 2 ^ 32 ->
  Forall no_nan (whole_triangles source) ->
  exists m,
    snd (createMeshFromVertices_soup source) = Some m
    /\ vertex_count m = Z.of_nat (count_distinct (whole_triangles source))
    /\ size (vertices m) = 3 * vertex_count m
    /\ (forall p, In p (whole_triangles source) ->
          exists k, 0 <= k < vertex_count m
                    /\ same_point (Mesh_vertex m k) p = true
                    /\ forall k', 0 <= k' < vertex_count m ->
                                  same_point (Mesh_vertex m k') p = true -> k' = k)
    /\ (forall k, 0 <= k < vertex_count m ->
          In (Mesh_vertex m k) (whole_triangles source))
    /\ Forall (fun t => 0 <= t < vertex_count m) (triangles m).
Proof.
  intros H3 Hsize Hnan. exists (soup_mesh source).
  rewrite createMeshFromVertices_soup_result by assumption.
  set (W := whole_triangles source) in *. set (F := first_occurrences W).
  assert (HF : Forall no_nan F) by now apply first_occurrences_no_nan.
  destruct (first_occurrences_keys W Hnan) as [Hnd Hkeys]. fold F in Hnd, Hkeys.
  assert (Hvc : vertex_count (soup_mesh source) = size F) by reflexivity.
  assert (Hcov : forall q, In q W -> existsb (fun f => same_point f q) F = true)
    by (intros q Hq; now apply first_occurrences_covers).
  rewrite Forall_forall in Hnan, HF.
  split; [reflexivity|]. split.
  { rewrite Hvc. unfold size, F.
    now rewrite first_occurrences_length by (now apply Forall_forall). }
  split.
  { rewrite Hvc. unfold soup_mesh. cbn [computeNormals set_normals vertices].
    apply flatten_length. }
  split; [|split].
  - intros p Hp. exists (position_of p F).
    pose proof (position_of_bound p F (Hcov p Hp)) as Hb.
    split; [now rewrite Hvc|]. split.
    + rewrite soup_mesh_vertex by exact Hb. apply position_of_same. now apply Hcov.
    + intros k' Hk' Hsame. rewrite Hvc in Hk'.
      rewrite soup_mesh_vertex in Hsame by exact Hk'.
      assert (Hin : In (at_ indeterminate_Vector3d F k') F) by now apply in_at.
      apply same_point_key in Hsame; [|now apply HF|now apply Hnan].
      replace k' with (Z.of_nat (Z.to_nat k')) by lia.
      symmetry. apply (position_of_key indeterminate_Vector3d).
      * now apply Forall_forall.
      * now apply Hnan.
      * exact Hnd.
      * unfold size in Hk'. lia.
      * rewrite <- Hsame. unfold at_. destruct (Z.ltb_spec k' 0); [lia|reflexivity].
  - intros k Hk. rewrite Hvc in Hk. rewrite soup_mesh_vertex by exact Hk.
    apply (first_occurrences_incl W). now apply in_at.
  - unfold soup_mesh. cbn [computeNormals set_normals triangles vertex_count].
    rewrite Forall_forall. intros t Ht. apply in_map_iff in Ht as (p & <- & Hp).
    apply position_of_bound. now apply Hcov.
Qed.

(** C2 (amended). In soup-based construction a point absent from the
    unique-vertex set gets the next sequential id, the size of the set, and
    the assigned or found id is pushed for every occurrence. For a stream of
    at least 3 points with no NaN coordinate among the processed points and
    3 * length < 2^32 the emitted vertex array is the list of the points in
    the order of their first appearance; a point that appears for the first
    time has the number of distinct points before it as its id, a repeated
    point has the id of its earlier occurrence, and the vertex at index
    triangles[j] has the coordinates of source[j] (equal as doubles). *)
Theorem soup_ids_follow_first_appearance (source : list Eigen.Vector3d) :
  3 <= size source -> 3 * size source < 2 ^ 32 ->
  Forall no_nan (whole_triangles source) ->
  (forall p vs ts,
      snd (add_vertex p (vs, ts))
      = ts ++ [match StdSet.find detail.ltLocalVertexValue (LocalVertexType_of p) vs with
               | None => u32 (size vs)
               | Some found => detail.index found
               end])
  /\ exists m,
      snd (createMeshFromVertices_soup source) = Some m
      /\ Mesh_points m = first_occurrences (whole_triangles source)
      /\ size (triangles m) = 3 * (size source / 3)
      /\ forall j, 0 <= j < 3 * (size source / 3) ->
           let p := at_ indeterminate_Vector3d source j in
           let id := at_ indeterminate_uint (triangles m) j in
           (existsb (same_point p) (firstn (Z.to_nat j) source) = false ->
              id = Z.of_nat (count_distinct (firstn (Z.to_nat j) source)))
           /\ (forall i, 0 <= i < j ->
                 same_point (at_ indeterminate_Vector3d source i) p = true ->
                 id = at_ indeterminate_uint (triangles m) i)
           /\ same_point (Mesh_vertex m id) p = true.
Proof.
  intros H3 Hsize Hnan. split.
  { intros p vs ts. unfold add_vertex.
    destruct (StdSet.find _ _ vs); reflexivity. }
  exists (soup_mesh source).
  rewrite createMeshFromVertices_soup_result by assumption.
  pose proof (whole_triangles_length source) as HWlen.
  pose proof (whole_triangles_firstn source) as HWdef.
  set (W := whole_triangles source) in *. set (F := first_occurrences W).
  set (n := size source / 3) in *.
  assert (HF : Forall no_nan F) by now apply first_occurrences_no_nan.
  destruct (first_occurrences_keys W Hnan) as [Hnd Hkeys]. fold F in Hnd, Hkeys.
  assert (Hcov : forall q, In q W -> existsb (fun f => same_point f q) F = true)
    by (intros q Hq; now apply first_occurrences_covers).
  assert (Htri : triangles (soup_mesh source) = map (fun p => position_of p F) W)
    by reflexivity.
  assert (H3n : 3 * n <= size source) by (apply Z.mul_div_le; lia).
  assert (HatW : forall j, 0 <= j < 3 * n ->
                   at_ indeterminate_Vector3d W j = at_ indeterminate_Vector3d source j).
  { intros j Hj. unfold at_. destruct (Z.ltb_spec j 0); [lia|].
    rewrite HWdef. apply nth_firstn_eq || (rewrite nth_firstn;
      destruct (Nat.ltb_spec (Z.to_nat j) (Z.to_nat (3 * n))); [reflexivity|lia]). }
  assert (HpreW : forall j, 0 <= j <= 3 * n ->
                    firstn (Z.to_nat j) W = firstn (Z.to_nat j) source).
  { intros j Hj. rewrite HWdef, firstn_firstn. f_equal. lia. }
  split; [reflexivity|]. split; [apply soup_mesh_points|]. split.
  { rewrite Htri. unfold size in *. now rewrite length_map. }
  intros j Hj p id.
  assert (Hjw : 0 <= j < size W) by lia.
  assert (Hp : p = at_ indeterminate_Vector3d W j) by (symmetry; now apply HatW).
  assert (HpW : In p W) by (rewrite Hp; now apply in_at).
  assert (Hid : id = position_of p F).
  { unfold id. rewrite Htri, (at_map _ indeterminate_Vector3d) by exact Hjw. now rewrite <- Hp. }
  rewrite Forall_forall in Hnan.
  split; [|split].
  - intros Hnew. rewrite <- HpreW in * by lia.
    pose proof (firstn_at_split indeterminate_Vector3d W j Hjw) as Hsplit.
    rewrite <- Hp in Hsplit.
    set (P := firstn (Z.to_nat j) W) in *.
    assert (HP : Forall no_nan P) by (apply Forall_prefix; now apply Forall_forall).
    assert (Hsplit' : W = (P ++ [p]) ++ skipn (Datatypes.S (Z.to_nat j)) W)
      by (now rewrite <- app_assoc).
    destruct (first_occurrences_app (P ++ [p]) (skipn (Datatypes.S (Z.to_nat j)) W))
      as [ext Hext].
    rewrite <- Hsplit' in Hext. fold F in Hext.
    rewrite first_occurrences_snoc in Hext. unfold note_point in Hext.
    assert (Hseen : existsb (fun q => same_point q p) (first_occurrences P) = false).
    { apply not_true_is_false. intros E.
      apply (existsb_same_point_key p _ (Hnan p HpW) (first_occurrences_no_nan P HP)) in E.
      apply (first_occurrences_keys P HP) in E.
      apply (existsb_same_point_key' p _ (Hnan p HpW) HP) in E. congruence. }
    rewrite Hseen in Hext.
    rewrite Hid, Hext, position_of_app.
    + rewrite position_of_new by (assumption || (apply same_point_refl; now apply Hnan)).
      unfold size. now rewrite first_occurrences_length.
    + rewrite existsb_app. cbn [existsb].
      rewrite same_point_refl by now apply Hnan. now rewrite orb_true_r.
  - intros i Hi Hsame.
    assert (Hiw : 0 <= i < size W) by lia.
    assert (Hq : In (at_ indeterminate_Vector3d W i) W) by now apply in_at.
    rewrite <- HatW in Hsame by lia.
    rewrite Htri, (at_map _ indeterminate_Vector3d) by exact Hiw.
    rewrite Hid. symmetry. apply position_of_ext; auto.
    apply same_point_key; auto.
  - rewrite Hid.
    rewrite soup_mesh_vertex by (apply position_of_bound; now apply Hcov).
    apply position_of_same. now apply Hcov.
Qed.

(** *** What does not depend on the values of the coordinates *)

Lemma for_loop_ext {S : Type} (n : Z) (b1 b2 : Z -> S -> S) (s0 : S) :
  0 <= n -> (forall i s, 0 <= i < n -> b1 i s = b2 i s) ->
  for_loop n b1 s0 = for_loop n b2 s0.
Proof.
  intros Hn Hb.
  apply (for_loop_ind (fun k s => s = for_loop k b2 s0)); [exact Hn|reflexivity|].
  intros k s Hk ->. rewrite for_loop_succ by lia. now apply Hb.
Qed.

Lemma add_vertex_size (p : Eigen.Vector3d) st :
  size (snd (add_vertex p st)) = size (snd st) + 1.
Proof.
  destruct st as [vs ts]. unfold add_vertex.
  destruct (StdSet.find _ _ vs); cbn [snd]; rewrite size_app; reflexivity.
Qed.

Lemma soup_loop_size (source : list Eigen.Vector3d) (n : Z) :
  0 <= n -> size (snd (for_loop n (soup_body source) ([], []))) = 3 * n.
Proof.
  intros Hn.
  apply (for_loop_ind (fun k st => size (snd st) = 3 * k)); [exact Hn|reflexivity|].
  intros k st Hk IH. unfold soup_body. rewrite !add_vertex_size. lia.
Qed.

Lemma createMeshFromVertices_soup_unfold (source : list Eigen.Vector3d) :
  3 <= size source ->
  createMeshFromVertices_soup source
  = (soup_log source,
     Some (soup_assemble
             (for_loop (u32 (size source / 3)) (soup_body source) ([], [])))).
Proof.
  intros H3. unfold createMeshFromVertices_soup, soup_assemble, soup_log.
  destruct (Z.ltb_spec (size source) 3) as [?|_]; [lia|].
  destruct (for_loop _ _ _) as [vs ts]. reflexivity.
Qed.

Lemma soup_assemble_triangles st (n : Z) :
  0 <= n < 2 ^ 32 -> size (snd st) = 3 * n ->
  triangle_count (soup_assemble st) = n /\ triangles (soup_assemble st) = snd st.
Proof.
  intros Hn Hst. destruct st as [vs ts]. cbn [snd] in Hst.
  unfold soup_assemble. rewrite Hst.
  replace (3 * n / 3) with n by (rewrite Z.mul_comm, Z.div_mul; lia).
  rewrite (u32_small n) by exact Hn.
  rewrite (for_loop_vertices _
             (fun i arr =>
                let vi := at_ (LocalVertexType_of indeterminate_Vector3d)
                              (StdSet.sort detail.ltLocalVertexIndex vs) i in
                store (u32 (u32 (i * 3) + 2)) (detail.z vi)
                  (store (u32 (u32 (i * 3) + 1)) (detail.y vi)
                     (store (u32 (i * 3)) (detail.x vi) arr))))
    by (apply size_nonneg || reflexivity).
  cbn [computeNormals set_normals set_triangles set_vertices Mesh_new
       vertex_count triangle_count vertices triangles normals].
  split; [reflexivity|]. apply std_copy_exact.
  rewrite repeat_length. unfold size in Hst. cbn [snd]. lia.
Qed.

Lemma at_firstn {A : Type} (d : A) (l : list A) (k : nat) (j : Z) :
  0 <= j < Z.of_nat k -> at_ d (firstn k l) j = at_ d l j.
Proof.
  intros Hj. unfold at_. destruct (Z.ltb_spec j 0); [lia|].
  rewrite nth_firstn. destruct (Nat.ltb_spec (Z.to_nat j) k); [reflexivity|lia].
Qed.

(** C6. Soup-based construction returns no mesh for fewer than 3 points.
    For at least 3 points (fewer than 2^32) it returns a mesh of
    floor(len/3) triangles, the one it returns for the whole triangles of
    the stream alone (the remainder is dropped), and when the length is not a
    multiple of 3 it logs one diagnostic and goes on (the diagnostic is
    issued through logError). In particular 2 points fail and 4 points give
    a mesh of exactly 1 triangle. *)
Theorem soup_needs_3_points_and_drops_the_remainder (source : list Eigen.Vector3d) :
  size source < 2 ^ 32 ->
  (size source < 3 -> createMeshFromVertices_soup source = ([], None))
  /\ (3 <= size source ->
        exists m,
          createMeshFromVertices_soup source
          = (if size source mod 3 =? 0 then []
             else [mkLog LOG_ERROR NOT_DIVISIBLE_BY_3 []],
             Some m)
          /\ triangle_count m = size source / 3
          /\ size (triangles m) = 3 * (size source / 3)
          /\ snd (createMeshFromVertices_soup (whole_triangles source)) = Some m)
  /\ (forall p1 p2, createMeshFromVertices_soup [p1; p2] = ([], None))
  /\ (forall p1 p2 p3 p4,
        exists m,
          createMeshFromVertices_soup [p1; p2; p3; p4]
          = ([mkLog LOG_ERROR NOT_DIVISIBLE_BY_3 []], Some m)
          /\ triangle_count m = 1
          /\ snd (createMeshFromVertices_soup [p1; p2; p3]) = Some m).
Proof.
  intros Hsize.
  assert (Hgen : forall src, size src < 2 ^ 32 -> 3 <= size src ->
            exists m,
              createMeshFromVertices_soup src
              = (if size src mod 3 =? 0 then []
                 else [mkLog LOG_ERROR NOT_DIVISIBLE_BY_3 []],
                 Some m)
              /\ triangle_count m = size src / 3
              /\ size (triangles m) = 3 * (size src / 3)
              /\ snd (createMeshFromVertices_soup (whole_triangles src)) = Some m).
  { clear source Hsize. intros source Hsize H3.
    pose proof (whole_triangles_length source) as HW.
    set (n := size source / 3) in *.
    assert (Hn : 1 <= n < 2 ^ 32).
    { unfold n. split; [apply Z.div_le_lower_bound; lia|].
      apply Z.div_lt_upper_bound; lia. }
    assert (H3n : 3 * n <= size source) by (apply Z.mul_div_le; lia).
    rewrite createMeshFromVertices_soup_unfold by exact H3.
    rewrite createMeshFromVertices_soup_unfold by lia.
    rewrite HW. replace (3 * n / 3) with n by (rewrite Z.mul_comm, Z.div_mul; lia).
    fold n. rewrite (u32_small n) by lia.
    assert (Hloop : for_loop n (soup_body (whole_triangles source)) ([], [])
                    = for_loop n (soup_body source) ([], [])).
    { apply for_loop_ext; [lia|]. intros i st Hi. unfold soup_body.
      rewrite (u32_small (i * 3)) by lia.
      rewrite (u32_small (i * 3 + 1)) by lia.
      rewrite (u32_small (i * 3 + 1 + 1)) by lia.
      rewrite whole_triangles_firstn. fold n.
      rewrite !at_firstn by lia. reflexivity. }
    rewrite Hloop.
    pose proof (soup_loop_size source n ltac:(lia)) as Hlen.
    destruct (soup_assemble_triangles _ n ltac:(lia) Hlen) as [Htc Htr].
    eexists. split; [|split; [exact Htc|split; [|reflexivity]]].
    - unfold soup_log. destruct (size source mod 3 =? 0); reflexivity.
    - rewrite Htr. exact Hlen. }
  split; [|split; [|split]].
  - intros Hlt. unfold createMeshFromVertices_soup.
    destruct (Z.ltb_spec (size source) 3); [reflexivity|lia].
  - intros H3. now apply Hgen.
  - reflexivity.
  - intros p1 p2 p3 p4.
    destruct (Hgen [p1; p2; p3; p4]) as (m & H1 & H2 & _ & H4);
      [unfold size; simpl; lia|unfold size; simpl; lia|].
    exists m. split; [exact H1|]. split; [exact H2|exact H4].
Qed.

(** ** createMeshFromVertices(vertices, triangles) *)

Lemma vector_coords (vs : list Eigen.Vector3d) :
  flat_map (fun k => [Eigen.x (at_ indeterminate_Vector3d vs (Z.of_nat k));
                      Eigen.y (at_ indeterminate_Vector3d vs (Z.of_nat k));
                      Eigen.z (at_ indeterminate_Vector3d vs (Z.of_nat k))])
           (seq 0 (length vs))
  = flatten vs.
Proof.
  unfold flatten.
  rewrite (flat_map_nth (fun p => [Eigen.x p; Eigen.y p; Eigen.z p]) indeterminate_Vector3d vs).
  rewrite !flat_map_concat_map. f_equal. apply map_ext_in.
  intros k Hk. now rewrite at_nth.
Qed.

(** the mesh of an indexed construction: the flattened points, the indices
    that fit the 3 * (len / 3) slots of the index array, fresh normals *)
Lemma createMeshFromVertices_result (vs : list Eigen.Vector3d) (ts : list Z) :
  3 * size vs < 2 ^ 32 -> size ts / 3 < 2 ^ 32 ->
  createMeshFromVertices vs ts
  = computeNormals
      (mkMesh (size vs) (size ts / 3) (flatten vs)
              (firstn (Z.to_nat (3 * (size ts / 3))) ts)
              (repeat indeterminate_double (Z.to_nat (3 * (size ts / 3))))).
Proof.
  intros Hvs Hts. pose proof (size_nonneg vs) as Hv0. pose proof (size_nonneg ts) as Ht0.
  set (nt := size ts / 3) in *.
  assert (Hnt : 0 <= nt) by (apply Z.div_pos; lia).
  assert (H3n : 3 * nt <= size ts) by (apply Z.mul_div_le; lia).
  unfold createMeshFromVertices. fold nt.
  rewrite (u32_small nt), (u32_small (size vs)) by lia.
  rewrite (for_loop_vertices _
             (fun i arr =>
                let vi := at_ indeterminate_Vector3d vs i in
                store (u32 (3 * i + 2)) (Eigen.z vi)
                  (store (u32 (3 * i + 1)) (Eigen.y vi)
                     (store (u32 (3 * i)) (Eigen.x vi) arr))))
    by (lia || reflexivity).
  cbn [Mesh_new vertices].
  rewrite (fill3 indeterminate_double (size vs)
             (fun i => Eigen.x (at_ indeterminate_Vector3d vs i))
             (fun i => Eigen.y (at_ indeterminate_Vector3d vs i))
             (fun i => Eigen.z (at_ indeterminate_Vector3d vs i))).
  2: lia.
  2: { intros i arr Hi. cbv zeta. now rewrite !u32_small by lia. }
  unfold size at 2. rewrite Nat2Z.id, vector_coords.
  unfold set_triangles, set_vertices.
  cbn [Mesh_new vertex_count triangle_count vertices triangles normals].
  f_equal. f_equal. unfold std_copy.
  rewrite repeat_length, skipn_all2 by (rewrite repeat_length; unfold size in *; lia).
  apply app_nil_r.
Qed.

(** C8 (amended). For every vertex list (3 * length < 2^32) and every index
    list whose length is a multiple of 3 (fewer than 3 * 2^32 entries),
    indexed construction returns a mesh whose vertex and index arrays are
    verbatim copies of the inputs, with triangle_count = len(triangles)/3
    and normals computed from them. No index is checked against
    vertex_count and there is no failure case: the result is a mesh
    whatever the indices are, and for empty inputs too. *)
Theorem indexed_construction_copies_its_inputs
    (vs : list Eigen.Vector3d) (ts : list Z) :
  3 * size vs < 2 ^ 32 -> size ts mod 3 = 0 -> size ts < 3 * 2 ^ 32 ->
  let m := createMeshFromVertices vs ts in
  vertex_count m = size vs
  /\ triangle_count m = size ts / 3
  /\ vertices m = flatten vs
  /\ triangles m = ts
  /\ m = computeNormals (mkMesh (size vs) (size ts / 3) (flatten vs) ts (normals m)).
Proof.
  intros Hvs Hmod Hts m.
  assert (Hnt : size ts / 3 < 2 ^ 32) by (apply Z.div_lt_upper_bound; lia).
  assert (H3 : 3 * (size ts / 3) = size ts).
  { pose proof (Z.div_mod (size ts) 3 ltac:(lia)). lia. }
  assert (Hm : m = computeNormals
                     (mkMesh (size vs) (size ts / 3) (flatten vs) ts
                             (repeat indeterminate_double (Z.to_nat (3 * (size ts / 3)))))).
  { unfold m. rewrite createMeshFromVertices_result by assumption.
    rewrite H3. unfold size. now rewrite Nat2Z.id, firstn_all. }
  rewrite Hm. repeat split; reflexivity.
Qed.

(** ** Messages *)

Ltac gtb_cases :=
  repeat match goal with
         | |- context [?a >? ?b] => destruct (Z.gtb_spec a b)
         end.

Lemma size_cons {A : Type} (x : A) (l : list A) : size (x :: l) = size l + 1.
Proof. unfold size. cbn [length]. lia. Qed.

(** C5. constructShapeFromMsg fails exactly on malformed input. A primitive
    message of kind sphere, box, cylinder or cone fails when its dimensions
    are fewer than 1, 3, 2 and 2 values, and reports it; otherwise the shape
    holds the values found at the offsets, no default standing in for a
    missing one. A message of any other kind fails. A mesh message fails
    exactly when its vertices or its triangles are empty. A plane message
    always gives the plane of its four coefficients. *)
Theorem constructShapeFromMsg_fails_exactly_on_malformed_input :
  (forall dims,
      constructShapeFromMsg
        (SolidPrimitiveMsg (shape_msgs.mkSolidPrimitive shape_msgs.SPHERE dims))
      = match dims with
        | r :: _ => ([], Some (Sphere r))
        | _ => (logError UNABLE_TO_CONSTRUCT_SHAPE [ArgInt shape_msgs.SPHERE], None)
        end)
  /\ (forall dims,
      constructShapeFromMsg
        (SolidPrimitiveMsg (shape_msgs.mkSolidPrimitive shape_msgs.BOX dims))
      = match dims with
        | x :: y :: z :: _ => ([], Some (Box x y z))
        | _ => (logError UNABLE_TO_CONSTRUCT_SHAPE [ArgInt shape_msgs.BOX], None)
        end)
  /\ (forall dims,
      constructShapeFromMsg
        (SolidPrimitiveMsg (shape_msgs.mkSolidPrimitive shape_msgs.CYLINDER dims))
      = match dims with
        | r :: l :: _ => ([], Some (Cylinder r l))
        | _ => (logError UNABLE_TO_CONSTRUCT_SHAPE [ArgInt shape_msgs.CYLINDER], None)
        end)
  /\ (forall dims,
      constructShapeFromMsg
        (SolidPrimitiveMsg (shape_msgs.mkSolidPrimitive shape_msgs.CONE dims))
      = match dims with
        | r :: l :: _ => ([], Some (Cone r l))
        | _ => (logError UNABLE_TO_CONSTRUCT_SHAPE [ArgInt shape_msgs.CONE], None)
        end)
  /\ (forall kind dims,
      (snd (constructShapeFromMsg
              (SolidPrimitiveMsg (shape_msgs.mkSolidPrimitive kind dims))) = None
       <-> size dims < shape_tools.SolidPrimitiveDimCount kind
           \/ ~ In kind [shape_msgs.SPHERE; shape_msgs.BOX;
                         shape_msgs.CYLINDER; shape_msgs.CONE]))
  /\ (forall m,
      snd (constructShapeFromMsg (MeshMsg m)) = None
      <-> shape_msgs.vertices m = [] \/ shape_msgs.triangles m = [])
  /\ (forall p,
      constructShapeFromMsg (PlaneMsg p)
      = ([], Some (Plane (shape_msgs.coef0 p) (shape_msgs.coef1 p)
                         (shape_msgs.coef2 p) (shape_msgs.coef3 p)))).
Proof.
  assert (Hsphere : forall dims,
      constructShapeFromMsg
        (SolidPrimitiveMsg (shape_msgs.mkSolidPrimitive shape_msgs.SPHERE dims))
      = match dims with
        | r :: _ => ([], Some (Sphere r))
        | _ => (logError UNABLE_TO_CONSTRUCT_SHAPE [ArgInt shape_msgs.SPHERE], None)
        end).
  { intros [|r dims]; [reflexivity|].
    unfold constructShapeFromMsg, constructShapeFromMsg_SolidPrimitive.
    cbn [shape_msgs.type shape_msgs.dimensions].
    change (shape_msgs.SPHERE =? shape_msgs.SPHERE) with true. cbv iota.
    pose proof (size_nonneg dims). rewrite size_cons.
    unfold shape_msgs.SPHERE_RADIUS. gtb_cases; try lia. reflexivity. }
  assert (Hbox : forall dims,
      constructShapeFromMsg
        (SolidPrimitiveMsg (shape_msgs.mkSolidPrimitive shape_msgs.BOX dims))
      = match dims with
        | x :: y :: z :: _ => ([], Some (Box x y z))
        | _ => (logError UNABLE_TO_CONSTRUCT_SHAPE [ArgInt shape_msgs.BOX], None)
        end).
  { intros [|x [|y [|z dims]]]; try reflexivity.
    unfold constructShapeFromMsg, constructShapeFromMsg_SolidPrimitive.
    cbn [shape_msgs.type shape_msgs.dimensions].
    change (shape_msgs.BOX =? shape_msgs.SPHERE) with false.
    change (shape_msgs.BOX =? shape_msgs.BOX) with true. cbv iota.
    pose proof (size_nonneg dims). rewrite !size_cons.
    unfold shape_msgs.BOX_X, shape_msgs.BOX_Y, shape_msgs.BOX_Z.
    gtb_cases; try lia. reflexivity. }
  assert (Hcyl : forall dims,
      constructShapeFromMsg
        (SolidPrimitiveMsg (shape_msgs.mkSolidPrimitive shape_msgs.CYLINDER dims))
      = match dims with
        | r :: l :: _ => ([], Some (Cylinder r l))
        | _ => (logError UNABLE_TO_CONSTRUCT_SHAPE [ArgInt shape_msgs.CYLINDER], None)
        end).
  { intros [|x [|y dims]]; try reflexivity.
    unfold constructShapeFromMsg, constructShapeFromMsg_SolidPrimitive.
    cbn [shape_msgs.type shape_msgs.dimensions].
    change (shape_msgs.CYLINDER =? shape_msgs.SPHERE) with false.
    change (shape_msgs.CYLINDER =? shape_msgs.BOX) with false.
    change (shape_msgs.CYLINDER =? shape_msgs.CYLINDER) with true. cbv iota.
    pose proof (size_nonneg dims). rewrite !size_cons.
    unfold shape_msgs.CYLINDER_RADIUS, shape_msgs.CYLINDER_HEIGHT.
    gtb_cases; try lia. reflexivity. }
  assert (Hcone : forall dims,
      constructShapeFromMsg
        (SolidPrimitiveMsg (shape_msgs.mkSolidPrimitive shape_msgs.CONE dims))
      = match dims with
        | r :: l :: _ => ([], Some (Cone r l))
        | _ => (logError UNABLE_TO_CONSTRUCT_SHAPE [ArgInt shape_msgs.CONE], None)
        end).
  { intros [|x [|y dims]]; try reflexivity.
    unfold constructShapeFromMsg, constructShapeFromMsg_SolidPrimitive.
    cbn [shape_msgs.type shape_msgs.dimensions].
    change (shape_msgs.CONE =? shape_msgs.SPHERE) with false.
    change (shape_msgs.CONE =? shape_msgs.BOX) with false.
    change (shape_msgs.CONE =? shape_msgs.CYLINDER) with false.
    change (shape_msgs.CONE =? shape_msgs.CONE) with true. cbv iota.
    pose proof (size_nonneg dims). rewrite !size_cons.
    unfold shape_msgs.CONE_RADIUS, shape_msgs.CONE_HEIGHT.
    gtb_cases; try lia. reflexivity. }
  repeat split; try assumption.
  - (* a failure is a short list or an unknown kind *)
    intros Hnone.
    destruct (Z.eq_dec kind shape_msgs.SPHERE) as [->|N1].
    { left. rewrite Hsphere in Hnone. destruct dims; [reflexivity|discriminate]. }
    destruct (Z.eq_dec kind shape_msgs.BOX) as [->|N2].
    { left. rewrite Hbox in Hnone.
      destruct dims as [|x [|y [|z dims]]]; try discriminate; reflexivity. }
    destruct (Z.eq_dec kind shape_msgs.CYLINDER) as [->|N3].
    { left. rewrite Hcyl in Hnone.
      destruct dims as [|x [|y dims]]; try discriminate; reflexivity. }
    destruct (Z.eq_dec kind shape_msgs.CONE) as [->|N4].
    { left. rewrite Hcone in Hnone.
      destruct dims as [|x [|y dims]]; try discriminate; reflexivity. }
    right. intros [H|[H|[H|[H|[]]]]]; congruence.
  - intros [Hshort|Hkind].
    + destruct (Z.eq_dec kind shape_msgs.SPHERE) as [->|N1].
      { rewrite Hsphere. destruct dims as [|r dims]; [reflexivity|].
        exfalso. pose proof (size_nonneg dims). rewrite size_cons in Hshort.
        change (shape_tools.SolidPrimitiveDimCount shape_msgs.SPHERE) with 1 in Hshort. lia. }
      destruct (Z.eq_dec kind shape_msgs.BOX) as [->|N2].
      { rewrite Hbox. destruct dims as [|x [|y [|z dims]]]; try reflexivity.
        exfalso. pose proof (size_nonneg dims). rewrite !size_cons in Hshort.
        change (shape_tools.SolidPrimitiveDimCount shape_msgs.BOX) with 3 in Hshort. lia. }
      destruct (Z.eq_dec kind shape_msgs.CYLINDER) as [->|N3].
      { rewrite Hcyl. destruct dims as [|x [|y dims]]; try reflexivity.
        exfalso. pose proof (size_nonneg dims). rewrite !size_cons in Hshort.
        change (shape_tools.SolidPrimitiveDimCount shape_msgs.CYLINDER) with 2 in Hshort. lia. }
      destruct (Z.eq_dec kind shape_msgs.CONE) as [->|N4].
      { rewrite Hcone. destruct dims as [|x [|y dims]]; try reflexivity.
        exfalso. pose proof (size_nonneg dims). rewrite !size_cons in Hshort.
        change (shape_tools.SolidPrimitiveDimCount shape_msgs.CONE) with 2 in Hshort. lia. }
      unfold constructShapeFromMsg, constructShapeFromMsg_SolidPrimitive.
      cbn [shape_msgs.type shape_msgs.dimensions].
      apply Z.eqb_neq in N1, N2, N3, N4. now rewrite N1, N2, N3, N4.
    + unfold constructShapeFromMsg, constructShapeFromMsg_SolidPrimitive.
      cbn [shape_msgs.type shape_msgs.dimensions].
      assert (N1 : (kind =? shape_msgs.SPHERE) = false)
        by (apply Z.eqb_neq; intros ->; apply Hkind; simpl; tauto).
      assert (N2 : (kind =? shape_msgs.BOX) = false)
        by (apply Z.eqb_neq; intros ->; apply Hkind; simpl; tauto).
      assert (N3 : (kind =? shape_msgs.CYLINDER) = false)
        by (apply Z.eqb_neq; intros ->; apply Hkind; simpl; tauto).
      assert (N4 : (kind =? shape_msgs.CONE) = false)
        by (apply Z.eqb_neq; intros ->; apply Hkind; simpl; tauto).
      now rewrite N1, N2, N3, N4.
  - intros Hnone. destruct m as [ts vs].
    unfold constructShapeFromMsg, constructShapeFromMsg_Mesh in *.
    cbn [shape_msgs.triangles shape_msgs.vertices] in *.
    destruct ts, vs; cbn [is_nil orb] in Hnone; auto; discriminate.
  - intros [H|H]; destruct m as [ts vs];
      unfold constructShapeFromMsg, constructShapeFromMsg_Mesh in *;
      cbn [shape_msgs.triangles shape_msgs.vertices] in *; subst.
    + destruct ts; reflexivity.
    + reflexivity.
Qed.

Lemma chunks3_nat {A : Type} (d : A) (n : nat) (l : list A) :
  length l = (3 * n)%nat ->
  flat_map (fun k => [nth (3 * k) l d; nth (3 * k + 1) l d; nth (3 * k + 2) l d])
           (seq 0 n)
  = l.
Proof.
  revert l. induction n as [|n IH]; intros l Hl.
  - destruct l; [reflexivity|simpl in Hl; lia].
  - destruct l as [|a [|b [|c l]]]; simpl in Hl; try lia.
    transitivity
      ([a; b; c]
         ++ flat_map (fun k => [nth (3 * k) l d; nth (3 * k + 1) l d;
                                nth (3 * k + 2) l d]) (seq 0 n)).
    2: { rewrite IH by lia. reflexivity. }
    rewrite !flat_map_concat_map. cbn [seq map concat]. f_equal.
    rewrite <- seq_shift, map_map. f_equal. apply map_ext. intros k.
    replace (3 * Datatypes.S k)%nat
      with (Datatypes.S (Datatypes.S (Datatypes.S (3 * k)))) by lia.
    reflexivity.
Qed.

(** an array of 3n slots is the sequence of its n chunks *)
Lemma chunks3 {A : Type} (d : A) (n : Z) (l : list A) :
  0 <= n -> size l = 3 * n ->
  flat_map (fun k => [at_ d l (3 * Z.of_nat k); at_ d l (3 * Z.of_nat k + 1);
                      at_ d l (3 * Z.of_nat k + 2)])
           (seq 0 (Z.to_nat n))
  = l.
Proof.
  intros Hn Hl. unfold size in Hl.
  etransitivity; [|apply (chunks3_nat d (Z.to_nat n) l); lia].
  rewrite !flat_map_concat_map. f_equal. apply map_ext. intros k.
  replace (3 * Z.of_nat k) with (Z.of_nat (3 * k)) by lia.
  replace (Z.of_nat (3 * k) + 1) with (Z.of_nat (3 * k + 1)) by lia.
  replace (Z.of_nat (3 * k) + 2) with (Z.of_nat (3 * k + 2)) by lia.
  now rewrite !at_nth.
Qed.

Lemma constructMsgFromShape_Mesh (m : Mesh) (msg0 : ShapeMsg) :
  Mesh_wf m ->
  constructMsgFromShape (MeshShape m) msg0 = ([], (true, MeshMsg (Mesh_msg m))).
Proof.
  intros (Hv0 & Hv & Ht0 & Ht & _).
  unfold constructMsgFromShape, Mesh_msg. do 4 f_equal.
  - replace (size (repeat MeshTriangle_0 (Z.to_nat (triangle_count m))))
      with (triangle_count m) by (unfold size; rewrite repeat_length; lia).
    rewrite (fill1 MeshTriangle_0 (triangle_count m)
               (fun i => shape_msgs.mkMeshTriangle
                           (at_ indeterminate_uint (triangles m) (3 * i))
                           (at_ indeterminate_uint (triangles m) (3 * i + 1))
                           (at_ indeterminate_uint (triangles m) (3 * i + 2)))).
    + reflexivity.
    + exact Ht0.
    + intros i arr Hi. cbv zeta. rewrite (u32_small (i * 3)) by lia.
      rewrite !u32_small by lia. now rewrite (Z.mul_comm i 3).
  - rewrite (fill1 Point_0 (vertex_count m)
               (fun i => geometry_msgs.mkPoint
                           (at_ indeterminate_double (vertices m) (3 * i))
                           (at_ indeterminate_double (vertices m) (3 * i + 1))
                           (at_ indeterminate_double (vertices m) (3 * i + 2)))).
    + reflexivity.
    + exact Hv0.
    + intros i arr Hi. cbv zeta. rewrite (u32_small (i * 3)) by lia.
      rewrite !u32_small by lia. now rewrite (Z.mul_comm i 3).
Qed.

(** a mesh message is flattened and handed to the indexed construction *)
Lemma constructShapeFromMsg_Mesh_result (msg : shape_msgs.Mesh) :
  shape_msgs.vertices msg <> [] -> shape_msgs.triangles msg <> [] ->
  3 * size (shape_msgs.triangles msg) < 2 ^ 32 ->
  constructShapeFromMsg_Mesh msg
  = ([], Some (MeshShape
                 (createMeshFromVertices
                    (map (fun p => Eigen.mkVector3d (geometry_msgs.x p)
                                     (geometry_msgs.y p) (geometry_msgs.z p))
                         (shape_msgs.vertices msg))
                    (flat_map (fun t => [shape_msgs.vertex_indices0 t;
                                         shape_msgs.vertex_indices1 t;
                                         shape_msgs.vertex_indices2 t])
                              (shape_msgs.triangles msg))))).
Proof.
  destruct msg as [ts vs]. cbn [shape_msgs.vertices shape_msgs.triangles].
  intros Hvs Hts Hsize. unfold constructShapeFromMsg_Mesh.
  cbn [shape_msgs.vertices shape_msgs.triangles].
  destruct ts as [|t0 ts']; [congruence|]. destruct vs as [|v0 vs']; [congruence|].
  cbn [is_nil orb]. set (ts := t0 :: ts') in *. set (vs := v0 :: vs') in *.
  do 4 f_equal.
  - replace (length vs) with (Z.to_nat (size vs)) by (unfold size; lia).
    rewrite (fill1 indeterminate_Vector3d (size vs)
               (fun i => Eigen.mkVector3d
                           (geometry_msgs.x (at_ Point_0 vs i))
                           (geometry_msgs.y (at_ Point_0 vs i))
                           (geometry_msgs.z (at_ Point_0 vs i))));
      [|apply size_nonneg|reflexivity].
    unfold size. rewrite Nat2Z.id.
    etransitivity;
      [|apply (f_equal (map (fun p => Eigen.mkVector3d (geometry_msgs.x p)
                                        (geometry_msgs.y p) (geometry_msgs.z p)))
                       (map_nth_seq Point_0 vs))].
    rewrite map_map. apply map_ext. intros k. now rewrite at_nth.
  - replace (length ts * 3)%nat with (Z.to_nat (3 * size ts)) by (unfold size; lia).
    pose proof (size_nonneg ts) as H0.
    rewrite (fill3 0 (size ts)
               (fun i => shape_msgs.vertex_indices0 (at_ MeshTriangle_0 ts i))
               (fun i => shape_msgs.vertex_indices1 (at_ MeshTriangle_0 ts i))
               (fun i => shape_msgs.vertex_indices2 (at_ MeshTriangle_0 ts i))).
    + unfold size. rewrite Nat2Z.id.
      rewrite (flat_map_nth _ MeshTriangle_0 ts).
      rewrite !flat_map_concat_map. f_equal. apply map_ext. intros k.
      now rewrite at_nth.
    + exact H0.
    + intros i arr Hi. cbv zeta. rewrite (u32_small (i * 3)) by lia.
      rewrite (u32_small (i * 3 + 1)) by lia.
      rewrite (u32_small (i * 3 + 1 + 1)) by lia.
      rewrite (Z.mul_comm i 3). now replace (3 * i + 1 + 1) with (3 * i + 2) by lia.
Qed.

(** the normals of a mesh do not enter their recomputation *)
Lemma computeNormals_ignores_normals vc tc vs ts n1 n2 :
  computeNormals (mkMesh vc tc vs ts n1) = computeNormals (mkMesh vc tc vs ts n2).
Proof. reflexivity. Qed.

Lemma mesh_round_trip (m : Mesh) (msg0 : ShapeMsg) :
  Mesh_wf m -> 0 < vertex_count m -> 0 < triangle_count m ->
  constructShapeFromMsg (snd (snd (constructMsgFromShape (MeshShape m) msg0)))
  = ([], Some (MeshShape (computeNormals m))).
Proof.
  intros Hwf Hvpos Htpos. rewrite constructMsgFromShape_Mesh by exact Hwf.
  destruct Hwf as (Hv0 & Hv & Ht0 & Ht & Hvl & Htl & _).
  cbn [snd constructShapeFromMsg].
  assert (Hsv : length (shape_msgs.vertices (Mesh_msg m)) = Z.to_nat (vertex_count m))
    by (unfold Mesh_msg; cbn; now rewrite length_map, length_seq).
  assert (Hst : length (shape_msgs.triangles (Mesh_msg m)) = Z.to_nat (triangle_count m))
    by (unfold Mesh_msg; cbn; now rewrite length_map, length_seq).
  rewrite constructShapeFromMsg_Mesh_result.
  2: { intros E. rewrite E in Hsv. simpl in Hsv. lia. }
  2: { intros E. rewrite E in Hst. simpl in Hst. lia. }
  2: { unfold size. rewrite Hst. lia. }
  assert (Hverts :
    flatten (map (fun p => Eigen.mkVector3d (geometry_msgs.x p) (geometry_msgs.y p)
                                            (geometry_msgs.z p))
                 (shape_msgs.vertices (Mesh_msg m)))
    = vertices m).
  { unfold Mesh_msg, flatten. cbn [shape_msgs.vertices].
    rewrite !flat_map_concat_map, !map_map. rewrite <- flat_map_concat_map.
    cbn [geometry_msgs.x geometry_msgs.y geometry_msgs.z Eigen.x Eigen.y Eigen.z].
    now apply chunks3. }
  assert (Htris :
    flat_map (fun t => [shape_msgs.vertex_indices0 t; shape_msgs.vertex_indices1 t;
                        shape_msgs.vertex_indices2 t])
             (shape_msgs.triangles (Mesh_msg m))
    = triangles m).
  { unfold Mesh_msg. cbn [shape_msgs.triangles].
    rewrite !flat_map_concat_map, !map_map. rewrite <- flat_map_concat_map.
    cbn [shape_msgs.vertex_indices0 shape_msgs.vertex_indices1 shape_msgs.vertex_indices2].
    now apply chunks3. }
  rewrite Htris.
  rewrite createMeshFromVertices_result.
  2: { unfold size. rewrite length_map, Hsv. lia. }
  2: { rewrite Htl. rewrite Z.mul_comm, Z.div_mul by lia. lia. }
  rewrite Hverts, Htl. replace (3 * triangle_count m / 3) with (triangle_count m)
    by (rewrite Z.mul_comm, Z.div_mul; lia).
  replace (Z.to_nat (3 * triangle_count m)) with (length (triangles m))
    by (unfold size in Htl; lia).
  rewrite firstn_all.
  replace (size (map _ (shape_msgs.vertices (Mesh_msg m)))) with (vertex_count m)
    by (unfold size; rewrite length_map, Hsv; lia).
  destruct m as [vc tc vs ts ns].
  cbn [vertex_count triangle_count vertices triangles normals].
  do 3 f_equal.
Qed.

(** C4 (amended). For every sphere, box, cylinder, cone and plane, and for
    every mesh that keeps the invariants of a mesh and has at least one
    vertex and one triangle, converting the shape to a message and back
    yields the shape again, the normals of a mesh being computed anew (so a
    shape value-equal to the original whenever the original's normals are
    the computed ones). constructMsgFromShape applied to the opaque
    volumetric variant or to an unrecognised discriminant returns false,
    logs the failure and leaves the message as it was. *)
Theorem message_round_trip (s : Shape) (msg0 : ShapeMsg) :
  (supported s ->
   (forall m, s = MeshShape m -> 0 < vertex_count m /\ 0 < triangle_count m) ->
   exists msg,
      constructMsgFromShape s msg0 = ([], (true, msg))
      /\ constructShapeFromMsg msg = ([], Some (with_fresh_normals s))
      /\ (with_fresh_normals s = s -> constructShapeFromMsg msg = ([], Some s)))
  /\ (forall msg1,
        constructMsgFromShape OcTree msg1
        = (logError UNABLE_TO_CONSTRUCT_MSG [ArgShapeType OCTREE],
           (false, msg1))
        /\ constructMsgFromShape UnknownShape msg1
           = (logError UNABLE_TO_CONSTRUCT_MSG [ArgShapeType UNKNOWN_SHAPE],
              (false, msg1))).
Proof.
  split; [|intros msg1; split; reflexivity]. intros Hs Hmesh.
  destruct s as [r|x y z|r l|r l|a b c d|m| |]; try contradiction.
  1-5: eexists; split; [reflexivity|]; split; [reflexivity|intros _; reflexivity].
  destruct (Hmesh m eq_refl) as [Hv Ht].
  exists (MeshMsg (Mesh_msg m)). split; [now apply constructMsgFromShape_Mesh|].
  pose proof (mesh_round_trip m msg0 Hs Hv Ht) as H.
  rewrite constructMsgFromShape_Mesh in H by exact Hs. cbn [snd] in H.
  split; [exact H|]. intros E. rewrite H.
  change (MeshShape (computeNormals m) = MeshShape m) in E. now rewrite E.
Qed.

(** ** Extents *)

(** C9. For every plane message, whatever its four coefficients,
    computeShapeExtents returns the zero vector; so does the extent of a
    plane shape, which goes through its message, and nothing is logged. *)
Theorem extents_of_a_plane_are_zero :
  (forall p : shape_msgs.Plane,
      computeShapeExtents_msg (PlaneMsg p) = Eigen.mkVector3d 0 0 0)
  /\ (forall a b c d : float,
      computeShapeExtents (Plane a b c d) = ([], Eigen.mkVector3d 0 0 0)).
Proof. split; reflexivity. Qed.

(** C10. For every shape whose conversion to a message fails (the opaque
    volumetric variant or an unrecognised discriminant) computeShapeExtents
    returns the zero vector, the value it returns for a plane; the only
    trace of the failure is the diagnostic that constructMsgFromShape logs. *)
Theorem extents_of_an_unsupported_shape_are_zero (s : Shape) (msg0 : ShapeMsg) :
  fst (snd (constructMsgFromShape s msg0)) = false ->
  (s = OcTree \/ s = UnknownShape)
  /\ computeShapeExtents s
     = (logError UNABLE_TO_CONSTRUCT_MSG [ArgShapeType (shape_type s)],
        Eigen.mkVector3d 0 0 0)
  /\ forall p : shape_msgs.Plane,
       snd (computeShapeExtents s) = computeShapeExtents_msg (PlaneMsg p).
Proof.
  intros H. destruct s; try discriminate H.
  - split; [now left|]. split; reflexivity.
  - split; [now right|]. split; reflexivity.
Qed.

(** ** Text: what makes the load fail *)

Lemma good_not_eof (i : ios.istream) : ios.good i = true -> ios.eof i = false.
Proof.
  unfold ios.good, ios.eof. destruct (ios.eofbit i); [discriminate|reflexivity].
Qed.

(** the state after [in >> type] on a fresh stream: good unless the text
    holds nothing but white space or the token runs to its end *)
Lemma extract_string_good (text : string) :
  ios.good (snd (ios.extract_string (istream_of text)))
  = negb (ios.is_empty (ios.skipws text))
    && negb (ios.is_empty (snd (ios.word (ios.skipws text)))).
Proof.
  unfold ios.extract_string, ios.sentry, istream_of. cbn [ios.good ios.eofbit ios.failbit ios.buffer negb andb].
  destruct (ios.skipws text) as [|c b] eqn:E; [reflexivity|].
  cbn [ios.buffer ios.is_empty negb andb].
  destruct (ios.word (String c b)) as [w r]. cbn [snd ios.good ios.eofbit ios.failbit].
  destruct r; reflexivity.
Qed.

(** C7 (amended). constructShapeFromText returns a null result when the
    stream is not good on entry, when no type token can be read or the
    token is the last thing in the stream (both leave the stream at its
    end; nothing is logged), and when the token is none of the six type
    names (this case alone logs a diagnostic). When the token is the name
    of a sphere, box, cylinder, cone or plane and is followed by at least
    one character, a shape of that kind is returned without a diagnostic
    whatever follows: missing numeric fields of these five do not make the
    load fail. Nothing is stated about a mesh whose numbers are missing. *)
Theorem text_load_fails_only_on_its_type_token (i : ios.istream) :
  (ios.good i = false -> constructShapeFromText i = ([], None, i))
  /\ (ios.good i = true ->
      (ios.good (snd (ios.extract_string i)) = false ->
         constructShapeFromText i = ([], None, snd (ios.extract_string i)))
      /\ (ios.good (snd (ios.extract_string i)) = true ->
          exists token,
            fst (ios.extract_string i) = Some token
            /\ (~ In token text_type_names ->
                constructShapeFromText i
                = (logError UNKNOWN_SHAPE_TYPE [ArgStr token], None,
                   snd (ios.extract_string i)))
            /\ (In token primitive_type_names ->
                exists shape i2,
                  constructShapeFromText i = ([], Some shape, i2)
                  /\ shape_name shape = token)))
  /\ (forall text,
        ios.good (snd (ios.extract_string (istream_of text)))
        = negb (ios.is_empty (ios.skipws text))
          && negb (ios.is_empty (snd (ios.word (ios.skipws text))))).
Proof.
  split; [|split; [|apply extract_string_good]].
  - intros H. unfold constructShapeFromText. now rewrite H.
  - intros Hgood. unfold constructShapeFromText.
    rewrite Hgood, (good_not_eof i Hgood). cbn [negb andb].
    destruct (ios.extract_string i) as [w i1] eqn:Ex. cbn [fst snd].
    split.
    + intros H1. rewrite H1. reflexivity.
    + intros H1. rewrite H1, (good_not_eof i1 H1). cbn [negb andb].
      assert (Hw : exists token, w = Some token).
      { unfold ios.extract_string in Ex. destruct (ios.sentry i) as [ok i0] eqn:Es.
        destruct ok.
        - destruct (ios.word (ios.buffer i0)) as [t r]. inversion Ex. now exists t.
        - inversion Ex; subst. unfold ios.sentry in Es. rewrite Hgood in Es.
          destruct (ios.skipws (ios.buffer i)); inversion Es; subst; discriminate H1. }
      destruct Hw as [token ->]. exists token. split; [reflexivity|].
      unfold text_type_names, primitive_type_names.
      destruct (String.eqb_spec token Sphere_STRING_NAME) as [E1|N1].
      { split; [intros N; exfalso; apply N; subst token; simpl; auto 10|]. intros _.
        destruct (read_double i1).
        do 2 eexists. split; [reflexivity|]. symmetry. assumption. }
      destruct (String.eqb_spec token Box_STRING_NAME) as [E2|N2].
      { split; [intros N; exfalso; apply N; subst token; simpl; auto 10|]. intros _.
        repeat match goal with
               | |- context [read_double ?x] => destruct (read_double x)
               end.
        do 2 eexists. split; [reflexivity|]. symmetry. assumption. }
      destruct (String.eqb_spec token Cylinder_STRING_NAME) as [E3|N3].
      { split; [intros N; exfalso; apply N; subst token; simpl; auto 10|]. intros _.
        repeat match goal with
               | |- context [read_double ?x] => destruct (read_double x)
               end.
        do 2 eexists. split; [reflexivity|]. symmetry. assumption. }
      destruct (String.eqb_spec token Cone_STRING_NAME) as [E4|N4].
      { split; [intros N; exfalso; apply N; subst token; simpl; auto 10|]. intros _.
        repeat match goal with
               | |- context [read_double ?x] => destruct (read_double x)
               end.
        do 2 eexists. split; [reflexivity|]. symmetry. assumption. }
      destruct (String.eqb_spec token Plane_STRING_NAME) as [E5|N5].
      { split; [intros N; exfalso; apply N; subst token; simpl; auto 10|]. intros _.
        repeat match goal with
               | |- context [read_double ?x] => destruct (read_double x)
               end.
        do 2 eexists. split; [reflexivity|]. symmetry. assumption. }
      destruct (String.eqb_spec token Mesh_STRING_NAME) as [E6|N6].
      { split; [intros N; exfalso; apply N; subst token; simpl; auto 10|].
        intros [H|[H|[H|[H|[H|[]]]]]]; congruence. }
      split; [reflexivity|].
      intros [H|[H|[H|[H|[H|[]]]]]]; congruence.
Qed.

(** ** Text: what a load reads back from a save *)

Lemma append_assoc (a b c : string) : (a +++ b) +++ c = a +++ (b +++ c).
Proof. induction a as [|x a IH]; simpl; [reflexivity|]. now rewrite IH. Qed.

Lemma append_nil_r (a : string) : a +++ "" = a.
Proof. induction a as [|x a IH]; simpl; [reflexivity|]. now rewrite IH. Qed.

Lemma digit_value_char (d : Z) :
  0 <= d < 10 ->
  ios.digit_value (ios.digit_char d) = d /\ ios.isdigit (ios.digit_char d) = true.
Proof.
  intros H.
  assert (E : d = 0 \/ d = 1 \/ d = 2 \/ d = 3 \/ d = 4 \/ d = 5 \/ d = 6
              \/ d = 7 \/ d = 8 \/ d = 9) by lia.
  repeat (destruct E as [->|E]; [split; reflexivity|]). subst. split; reflexivity.
Qed.

Lemma number_app (a : Z) (s1 s2 : string) :
  ios.number a (s1 +++ s2) = ios.number (ios.number a s1) s2.
Proof. revert a. induction s1 as [|c s1 IH]; intros a; simpl; [reflexivity|]. apply IH. Qed.

Lemma all_digits_app (s1 s2 : string) :
  all_digits s1 -> all_digits s2 -> all_digits (s1 +++ s2).
Proof. induction s1 as [|c s1 IH]; simpl; [tauto|]. intros [H1 H2] H3. split; auto. Qed.

Lemma decimal_aux_spec (fuel : nat) (n : Z) (acc : string) :
  0 <= n < 10 ^ Z.of_nat fuel -> (0 < fuel)%nat ->
  exists ds, ios.decimal_aux fuel n acc = ds +++ acc
             /\ all_digits ds /\ ds <> ""
             /\ forall a, ios.number a ds = a * 10 ^ Z.of_nat (String.length ds) + n.
Proof.
  revert n acc. induction fuel as [|fuel IH]; intros n acc Hn Hf; [lia|].
  cbn [ios.decimal_aux].
  assert (Hmod : 0 <= n mod 10 < 10) by (apply Z.mod_pos_bound; lia).
  destruct (digit_value_char (n mod 10) Hmod) as [Hv Hd].
  destruct (Z.ltb_spec n 10) as [Hlt|Hge].
  - exists (String (ios.digit_char (n mod 10)) ""). repeat split; try assumption.
    + discriminate.
    + intros a. cbn [ios.number String.length]. rewrite Hv, Z.mod_small by lia.
      change (10 ^ Z.of_nat 1) with 10. lia.
  - assert (Hf' : (0 < fuel)%nat).
    { destruct fuel; [|lia]. change (10 ^ Z.of_nat 1) with 10 in Hn. lia. }
    assert (Hn' : 0 <= n / 10 < 10 ^ Z.of_nat fuel).
    { split; [apply Z.div_pos; lia|]. apply Z.div_lt_upper_bound; [lia|].
      rewrite Nat2Z.inj_succ, Z.pow_succ_r in Hn by lia. lia. }
    destruct (IH (n / 10) (String (ios.digit_char (n mod 10)) acc) Hn' Hf')
      as (ds & Eq & Hds & Hne & Hnum).
    exists (ds +++ String (ios.digit_char (n mod 10)) "").
    rewrite Eq, append_assoc. split; [reflexivity|]. split; [|split].
    + apply all_digits_app; [exact Hds|]. simpl. tauto.
    + destruct ds; [congruence|discriminate].
    + intros a. rewrite number_app, Hnum. cbn [ios.number]. rewrite Hv.
      assert (Hl : Z.of_nat (String.length (ds +++ String (ios.digit_char (n mod 10)) ""))
                   = Z.of_nat (String.length ds) + 1).
      { clear. induction ds as [|c ds IH]; simpl String.length; [reflexivity|].
        rewrite !Nat2Z.inj_succ, IH. lia. }
      rewrite Hl, Z.pow_add_r by lia. change (10 ^ 1) with 10.
      pose proof (Z.div_mod n 10 ltac:(lia)). lia.
Qed.

(** the decimal text of an unsigned number: digits, and the number back *)
Lemma decimal_spec (n : Z) :
  0 <= n ->
  all_digits (ios.decimal n) /\ ios.decimal n <> ""
  /\ ios.number 0 (ios.decimal n) = n.
Proof.
  intros Hn. unfold ios.decimal.
  destruct (decimal_aux_spec (Datatypes.S (Z.to_nat (Z.log2 n))) n "") as (ds & Eq & Hds & Hne & Hnum).
  - split; [exact Hn|].
    destruct (Z.eq_dec n 0) as [->|Hnz]; [reflexivity|].
    rewrite Nat2Z.inj_succ, Z2Nat.id by apply Z.log2_nonneg.
    pose proof (Z.log2_spec n ltac:(lia)) as [_ Hup].
    eapply Z.lt_le_trans; [exact Hup|].
    apply Z.pow_le_mono_l. pose proof (Z.log2_nonneg n). lia.
  - lia.
  - rewrite Eq, append_nil_r. repeat split; try assumption. rewrite Hnum. lia.
Qed.

Ltac each_ascii c :=
  let b0 := fresh in let b1 := fresh in let b2 := fresh in let b3 := fresh in
  let b4 := fresh in let b5 := fresh in let b6 := fresh in let b7 := fresh in
  destruct c as [b0 b1 b2 b3 b4 b5 b6 b7];
  destruct b0, b1, b2, b3, b4, b5, b6, b7.

(** white space is none of the characters of a number *)
Lemma isspace_stops (c : ascii) :
  ios.isspace c = true ->
  ios.isdigit c = false /\ Ascii.eqb c "." = false /\ Ascii.eqb c "e" = false
  /\ Ascii.eqb c "E" = false /\ Ascii.eqb c "+" = false
  /\ Ascii.eqb c "-" = false /\ Ascii.eqb c "0" = false.
Proof.
  each_ascii c; intros H; try discriminate H; repeat split; reflexivity.
Qed.

Lemma isdigit_starts (c : ascii) :
  ios.isdigit c = true ->
  ios.isspace c = false /\ Ascii.eqb c "+" = false /\ Ascii.eqb c "-" = false.
Proof.
  each_ascii c; intros H; try discriminate H; repeat split; reflexivity.
Qed.

Lemma span_digits_all (ds k : string) :
  all_digits ds -> starts_with_space k ->
  ios.span_digits (ds +++ k) = (ds, k).
Proof.
  intros Hds (c & k' & -> & Hc). induction ds as [|x ds IH].
  - simpl. destruct (isspace_stops c Hc) as [-> _]. reflexivity.
  - destruct Hds as [Hx Hds]. simpl. rewrite Hx.
    cbn [String.append] in IH. now rewrite (IH Hds).
Qed.

(** [in >> n] on a number that [out << n] wrote, between white space *)
Lemma extract_uint_token (c0 : ascii) (n : Z) (k : string) :
  ios.isspace c0 = true -> 0 <= n < 2 ^ 32 -> starts_with_space k ->
  ios.extract_uint (ios.mkIstream (String c0 (ios.decimal n +++ k)) false false)
  = (Some n, ios.mkIstream k false false).
Proof.
  intros Hc0 Hn Hk.
  destruct (decimal_spec n (proj1 Hn)) as (Hds & Hne & Hnum).
  pose proof (span_digits_all _ k Hds Hk) as Hspan.
  destruct Hk as (c & k' & -> & Hc).
  destruct (ios.decimal n) as [|x ds] eqn:E; [congruence|].
  destruct Hds as [Hx Hds]. destruct (isdigit_starts x Hx) as (Hsp & Hplus & Hminus).
  unfold ios.extract_uint, ios.sentry.
  cbn [ios.good ios.eofbit ios.failbit negb andb ios.buffer ios.skipws String.append].
  rewrite Hc0, Hsp. cbn [ios.buffer ios.take_sign]. rewrite Hminus, Hplus.
  cbn [String.append] in Hspan. rewrite Hspan, Hnum.
  cbn [ios.is_empty orb].
  replace (ios.UINT_MAX <? n) with false
    by (symmetry; apply Z.ltb_ge; unfold ios.UINT_MAX; lia).
  rewrite Z.mod_small by exact Hn. reflexivity.
Qed.

Lemma float_loop_continue (n : nat) : forall (s x k : string) (fm fd fs : bool),
  (String.length s <= n)%nat -> starts_with_space k ->
  ios.float_loop fm fd fs s = (x, "") ->
  ios.float_loop fm fd fs (s +++ k) = (x, k).
Proof.
  induction n as [|n IH]; intros s x k fm fd fs Hlen Hk H.
  - destruct s; [|simpl in Hlen; lia].
    destruct Hk as (c & k' & -> & Hc).
    destruct (isspace_stops c Hc) as (Hd & Hdot & He & HE & _).
    simpl in H. injection H as <-. simpl. rewrite Hd, Hdot, He, HE. reflexivity.
  - destruct s as [|c s]; [apply (IH "" x k fm fd fs); [simpl; lia|assumption..]|].
    simpl in Hlen. cbn [String.append ios.float_loop] in *.
    destruct (ios.isdigit c).
    { destruct (ios.float_loop true fd fs s) as [x' r'] eqn:E.
      injection H as <- ->. rewrite (IH s x' k true fd fs); [reflexivity|lia|assumption..]. }
    destruct (Ascii.eqb c "." && negb fd && negb fs).
    { destruct (ios.float_loop fm true fs s) as [x' r'] eqn:E.
      injection H as <- ->. rewrite (IH s x' k fm true fs); [reflexivity|lia|assumption..]. }
    destruct ((Ascii.eqb c "e" || Ascii.eqb c "E") && negb fs && fm); [|discriminate H].
    destruct s as [|c2 s].
    { injection H as <-. pose proof Hk as (c' & k' & -> & Hc).
      destruct (isspace_stops c' Hc) as (Hd & Hdot & He & HE & Hplus & Hminus & _).
      cbn [String.append]. rewrite Hplus, Hminus. cbn [orb].
      cbn [ios.float_loop]. rewrite Hd, Hdot, He, HE. reflexivity. }
    cbn [String.append]. simpl in Hlen.
    destruct (Ascii.eqb c2 "+" || Ascii.eqb c2 "-").
    { destruct (ios.float_loop fm fd true s) as [x' r'] eqn:E.
      injection H as <- ->. rewrite (IH s x' k fm fd true); [reflexivity|lia|assumption..]. }
    destruct (ios.float_loop fm fd true (String c2 s)) as [x' r'] eqn:E.
    injection H as <- ->.
    change (String c2 (s +++ k)) with (String c2 s +++ k).
    rewrite (IH (String c2 s) x' k fm fd true); [reflexivity|simpl; lia|assumption..].
Qed.

Lemma skip_zeros_continue (s k : string) :
  starts_with_space k -> ios.skip_zeros (s +++ k) = ios.skip_zeros s +++ k.
Proof.
  intros (c & k' & -> & Hc). destruct (isspace_stops c Hc) as (_ & _ & _ & _ & _ & _ & H0).
  induction s as [|x s IH]; simpl.
  - now rewrite H0.
  - destruct (Ascii.eqb x "0"); [exact IH|reflexivity].
Qed.

(** the field that [>>] accumulates from a text does not change when
    white space follows the text *)
Lemma extract_float_continue (s x k : string) :
  starts_with_space k ->
  ios.extract_float s = (x, "") -> ios.extract_float (s +++ k) = (x, k).
Proof.
  intros Hk H. pose proof Hk as (c & k' & Ek & Hc).
  destruct (isspace_stops c Hc) as (Hd & Hdot & He & HE & Hplus & Hminus & H0).
  assert (Hgo : forall s x fm, ios.float_loop fm false false (ios.skip_zeros s) = (x, "") ->
                ios.float_loop fm false false (ios.skip_zeros (s +++ k)) = (x, k)).
  { intros s0 x0 fm H1. rewrite skip_zeros_continue by exact Hk.
    now apply (float_loop_continue (String.length (ios.skip_zeros s0))). }
  unfold ios.extract_float in *.
  destruct s as [|a s].
  - cbn [String.append]. rewrite Ek. rewrite Hminus, Hplus. rewrite <- Ek.
    assert (E0 : ios.starts_with "0" k = false) by (rewrite Ek; exact H0).
    rewrite E0. cbn [ios.starts_with] in H.
    destruct (ios.float_loop false false false (ios.skip_zeros "")) as [x' r'] eqn:E.
    injection H as <- ->. pose proof (Hgo "" x' false E) as G.
    cbn [String.append] in G. now rewrite G.
  - cbn [String.append].
    destruct (Ascii.eqb a "-").
    { destruct (ios.float_loop (ios.starts_with "0" s) false false (ios.skip_zeros s))
        as [x' r'] eqn:E. injection H as <- ->.
      destruct s as [|b s].
      - cbn [String.append]. assert (E0 : ios.starts_with "0" k = false) by (rewrite Ek; exact H0).
        rewrite E0. cbn [ios.starts_with] in E. pose proof (Hgo "" x' false E) as G.
        cbn [String.append] in G. now rewrite G.
      - cbn [String.append ios.starts_with] in *.
        change (String b (s +++ k)) with (String b s +++ k).
        now rewrite (Hgo (String b s) x' _ E). }
    destruct (Ascii.eqb a "+").
    { destruct (ios.float_loop (ios.starts_with "0" s) false false (ios.skip_zeros s))
        as [x' r'] eqn:E. injection H as <- ->.
      destruct s as [|b s].
      - cbn [String.append]. assert (E0 : ios.starts_with "0" k = false) by (rewrite Ek; exact H0).
        rewrite E0. cbn [ios.starts_with] in E. pose proof (Hgo "" x' false E) as G.
        cbn [String.append] in G. now rewrite G.
      - cbn [String.append ios.starts_with] in *.
        change (String b (s +++ k)) with (String b s +++ k).
        now rewrite (Hgo (String b s) x' _ E). }
    cbn [ios.starts_with] in *.
    destruct (ios.float_loop (Ascii.eqb a "0") false false (ios.skip_zeros (String a s)))
      as [x' r'] eqn:E. injection H as <- ->.
    change (String a (s +++ k)) with (String a s +++ k).
    now rewrite (Hgo (String a s) x' _ E).
Qed.

Lemma extract_float_space (c : ascii) (s : string) :
  ios.isspace c = true -> ios.extract_float (String c s) = ("", String c s).
Proof.
  intros Hc. destruct (isspace_stops c Hc) as (Hd & Hdot & He & HE & Hplus & Hminus & H0).
  unfold ios.extract_float. rewrite Hminus, Hplus. cbn [ios.starts_with ios.skip_zeros].
  rewrite H0. cbn [ios.float_loop]. rewrite Hd, Hdot, He, HE. reflexivity.
Qed.

(** a number that can be read back starts with a character of its own *)
Lemma reread_starts (d v : float) :
  reread d = Some v ->
  exists c s, ios.print_double d = String c s /\ ios.isspace c = false.
Proof.
  unfold reread. destruct (ios.print_double d) as [|c s].
  - intros H. vm_compute in H. discriminate H.
  - intros H. exists c, s. split; [reflexivity|].
    destruct (ios.isspace c) eqn:Hc; [|reflexivity].
    rewrite (extract_float_space c s Hc) in H. discriminate H.
Qed.

(** [in >> x] on a number that [out << d] wrote, between white space *)
Lemma extract_double_token (c0 : ascii) (d v : float) (k : string) :
  ios.isspace c0 = true -> reread d = Some v -> starts_with_space k ->
  ios.extract_double (ios.mkIstream (String c0 (ios.print_double d +++ k)) false false)
  = (Some v, ios.mkIstream k false false).
Proof.
  intros Hc0 Hd Hk.
  destruct (reread_starts d v Hd) as (c & s & E & Hc).
  unfold reread in Hd.
  destruct (ios.extract_float (ios.print_double d)) as [xtrc r] eqn:Ex.
  destruct (ios.convert_to_v xtrc) as [v' fail] eqn:Ev.
  destruct r; [|discriminate Hd]. destruct fail; [discriminate Hd|].
  cbn [ios.is_empty negb andb] in Hd. injection Hd as ->.
  pose proof (extract_float_continue _ _ k Hk Ex) as Hx.
  unfold ios.extract_double, ios.sentry.
  cbn [ios.good ios.eofbit ios.failbit negb andb ios.buffer ios.skipws].
  rewrite Hc0. rewrite E in *. cbn [String.append ios.skipws] in *. rewrite Hc.
  cbn [ios.buffer]. rewrite Hx, Ev.
  destruct Hk as (c' & k' & -> & _). reflexivity.
Qed.

Lemma tokens_app (l1 l2 : list (ascii * string)) (t : string) :
  tokens (l1 ++ l2) t = tokens l1 (tokens l2 t).
Proof.
  induction l1 as [|[c x] l1 IH]; [reflexivity|].
  cbn [app tokens]. now rewrite IH.
Qed.

Lemma tokens_append (l : list (ascii * string)) (t x : string) :
  tokens l t +++ x = tokens l (t +++ x).
Proof.
  induction l as [|[c y] l IH]; [reflexivity|].
  cbn [tokens String.append]. now rewrite append_assoc, IH.
Qed.

Lemma endl_starts_with_space : starts_with_space endl.
Proof. exists "010"%char, "". split; reflexivity. Qed.

Lemma tokens_start (l : list (ascii * string)) (t : string) :
  spaced l -> starts_with_space t -> starts_with_space (tokens l t).
Proof.
  intros Hl Ht. destruct l as [|[c x] l]; [exact Ht|].
  exists c, (x +++ tokens l t). split; [reflexivity|].
  exact (Forall_inv Hl).
Qed.

Lemma spaced_app (l1 l2 : list (ascii * string)) :
  spaced l1 -> spaced l2 -> spaced (l1 ++ l2).
Proof. intros H1 H2. apply Forall_app. now split. Qed.

Lemma spaced_flat_map {A : Type} (g : A -> list (ascii * string)) (l : list A) :
  (forall x, spaced (g x)) -> spaced (flat_map g l).
Proof.
  intros Hg. induction l as [|x l IH]; [constructor|].
  cbn [flat_map]. apply spaced_app; auto.
Qed.

Lemma read_double_token (c : ascii) (d v : float) (l : list (ascii * string))
    (t : string) :
  ios.isspace c = true -> reread d = Some v -> spaced l -> starts_with_space t ->
  ios.extract_double (ios.mkIstream (tokens ((c, ios.print_double d) :: l) t) false false)
  = (Some v, ios.mkIstream (tokens l t) false false).
Proof.
  intros Hc Hd Hl Ht. cbn [tokens].
  apply extract_double_token; [assumption..|]. now apply tokens_start.
Qed.

Lemma read_uint_token (c : ascii) (n : Z) (l : list (ascii * string)) (t : string) :
  ios.isspace c = true -> 0 <= n < 2 ^ 32 -> spaced l -> starts_with_space t ->
  ios.extract_uint (ios.mkIstream (tokens ((c, ios.decimal n) :: l) t) false false)
  = (Some n, ios.mkIstream (tokens l t) false false).
Proof.
  intros Hc Hn Hl Ht. cbn [tokens].
  apply extract_uint_token; [assumption..|]. now apply tokens_start.
Qed.

Lemma word_continue (w k : string) :
  no_space w = true -> starts_with_space k -> ios.word (w +++ k) = (w, k).
Proof.
  intros Hw (c & k' & -> & Hc). induction w as [|x w IH].
  - simpl. now rewrite Hc.
  - simpl in Hw. apply andb_prop in Hw as [Hx Hw].
    apply negb_true_iff in Hx. simpl. rewrite Hx.
    cbn [String.append] in IH. now rewrite (IH Hw).
Qed.

(** [in >> str] on a name that white space follows *)
Lemma extract_string_word (w k : string) :
  w <> "" -> no_space w = true -> starts_with_space k ->
  ios.extract_string (ios.mkIstream (w +++ k) false false)
  = (Some w, ios.mkIstream k false false).
Proof.
  intros Hne Hw Hk. pose proof (word_continue w k Hw Hk) as E.
  destruct w as [|x w]; [congruence|].
  simpl in Hw. apply andb_prop in Hw as [Hx _]. apply negb_true_iff in Hx.
  unfold ios.extract_string, ios.sentry.
  cbn [ios.good ios.eofbit ios.failbit negb andb ios.buffer String.append ios.skipws].
  rewrite Hx. cbn [ios.buffer]. cbn [String.append] in E. rewrite E.
  destruct Hk as (c & k' & -> & _). reflexivity.
Qed.

Lemma reread_all_at (d d' : float) (vs vs' : list float) :
  reread_all vs = Some vs' ->
  size vs' = size vs
  /\ forall j, 0 <= j < size vs -> reread (at_ d vs j) = Some (at_ d' vs' j).
Proof.
  revert vs'. induction vs as [|x vs IH]; intros vs' H.
  - injection H as <-. split; [reflexivity|]. unfold size. simpl. lia.
  - cbn [reread_all] in H. destruct (reread x) as [v|] eqn:Ex; [|discriminate H].
    destruct (reread_all vs) as [vs0|]; [|discriminate H]. injection H as <-.
    destruct (IH vs0 eq_refl) as [Hlen Hat]. unfold size in *.
    split; [cbn [length]; lia|].
    intros j Hj. cbn [length] in Hj.
    destruct (Z.eq_dec j 0) as [->|Hnz]; [exact Ex|].
    specialize (Hat (j - 1) ltac:(lia)). unfold at_ in *.
    destruct (Z.ltb_spec j 0) as [?|_]; [lia|].
    destruct (Z.ltb_spec (j - 1) 0) as [?|_]; [lia|].
    replace (Z.to_nat j) with (Datatypes.S (Z.to_nat (j - 1))) by lia. exact Hat.
Qed.

(** *** The lines of a mesh *)

Lemma append_line (p : string) (l : list (ascii * string)) (t1 t2 t3 : string) :
  (p +++ tokens l endl) +++ t1 +++ " " +++ t2 +++ " " +++ t3 +++ endl
  = p +++ tokens (l ++ [("010"%char, t1); (" "%char, t2); (" "%char, t3)]) endl.
Proof. rewrite append_assoc, tokens_append, tokens_app. reflexivity. Qed.

Lemma save_lines (n : Z) (line : nat -> list (ascii * string))
    (body : Z -> string -> string) (p : string) (l0 : list (ascii * string)) :
  0 <= n ->
  (forall k l, 0 <= k < n ->
     body k (p +++ tokens l endl) = p +++ tokens (l ++ line (Z.to_nat k)) endl) ->
  for_loop n body (p +++ tokens l0 endl)
  = p +++ tokens (l0 ++ flat_map line (seq 0 (Z.to_nat n))) endl.
Proof.
  intros Hn Hbody.
  apply (for_loop_ind
           (fun k out => out = p +++ tokens (l0 ++ flat_map line (seq 0 (Z.to_nat k))) endl)).
  - exact Hn.
  - simpl. now rewrite app_nil_r.
  - intros k out Hk ->. rewrite Hbody by exact Hk.
    now rewrite seq_flat_map_succ, app_assoc by lia.
Qed.

(** the text of a mesh: the counts, a line per vertex, a line per triangle *)
Lemma saveAsText_Mesh (m : Mesh) (out : string) :
  Mesh_wf m ->
  saveAsText (MeshShape m) out
  = ([], (out +++ Mesh_STRING_NAME) +++ tokens (mesh_tokens m) endl).
Proof.
  intros (Hv0 & Hv & Ht0 & Ht & _).
  unfold saveAsText, mesh_tokens. f_equal.
  replace (out +++ Mesh_STRING_NAME +++ endl)
    with ((out +++ Mesh_STRING_NAME) +++ tokens [] endl)
    by (now rewrite append_assoc).
  rewrite append_assoc, tokens_append.
  change (tokens [] (endl +++ ios.decimal (vertex_count m) +++ " "
                     +++ ios.decimal (triangle_count m) +++ endl))
    with (tokens [("010"%char, ios.decimal (vertex_count m));
                  (" "%char, ios.decimal (triangle_count m))] endl).
  rewrite (save_lines (vertex_count m) (vertex_line (vertices m))).
  - rewrite (save_lines (triangle_count m) (triangle_line (triangles m))).
    + now rewrite <- app_assoc.
    + exact Ht0.
    + intros k l Hk. rewrite append_line. unfold triangle_line.
      rewrite Z2Nat.id by lia. replace (k * 3) with (3 * k) by lia.
      rewrite !(u32_small (3 * k)) by lia. now rewrite !u32_small by lia.
  - exact Hv0.
  - intros k l Hk. rewrite append_line. unfold vertex_line.
    rewrite Z2Nat.id by lia. replace (k * 3) with (3 * k) by lia.
    rewrite !(u32_small (3 * k)) by lia. now rewrite !u32_small by lia.
Qed.

(** a loop over a state and a stream whose position in each round is known *)
Lemma for_loop_with_stream {M I : Type} (n : Z) (body : Z -> M * I -> M * I)
    (step : Z -> M -> M) (pos : Z -> I) (m0 : M) :
  0 <= n ->
  (forall k m, 0 <= k < n -> body k (m, pos k) = (step k m, pos (k + 1))) ->
  for_loop n body (m0, pos 0) = (for_loop n step m0, pos n).
Proof.
  intros Hn Hbody.
  apply (for_loop_ind (fun k s => s = (for_loop k step m0, pos k))).
  - exact Hn.
  - reflexivity.
  - intros k s Hk ->. rewrite Hbody by exact Hk. now rewrite for_loop_succ by lia.
Qed.

Lemma for_loop_triangles (n : Z) (step : Z -> list Z -> list Z)
    (body : Z -> Mesh -> Mesh) (m : Mesh) :
  0 <= n ->
  (forall i mesh, body i mesh = set_triangles mesh (step i (triangles mesh))) ->
  for_loop n body m = set_triangles m (for_loop n step (triangles m)).
Proof.
  intros Hn Hbody.
  apply (for_loop_ind
           (fun k mesh => mesh = set_triangles m (for_loop k step (triangles m)))).
  - exact Hn.
  - now destruct m.
  - intros k mesh Hk ->. rewrite Hbody, for_loop_succ by lia. reflexivity.
Qed.

Lemma before_line_next (line : nat -> list (ascii * string)) (n : Z)
    (rest : list (ascii * string)) (tail : string) (k : Z) :
  0 <= k < n ->
  before_line line n rest tail k
  = ios.mkIstream
      (tokens (line (Z.to_nat k)
               ++ flat_map line (seq (Z.to_nat (k + 1)) (Z.to_nat (n - (k + 1)))) ++ rest)
              tail) false false.
Proof.
  intros Hk. unfold before_line.
  replace (Z.to_nat (n - k)) with (Datatypes.S (Z.to_nat (n - (k + 1)))) by lia.
  replace (Z.to_nat (k + 1)) with (Datatypes.S (Z.to_nat k)) by lia.
  cbn [seq flat_map]. now rewrite <- app_assoc.
Qed.

Lemma before_line_first (line : nat -> list (ascii * string)) (n : Z)
    (rest : list (ascii * string)) (tail : string) :
  before_line line n rest tail 0
  = ios.mkIstream (tokens (flat_map line (seq 0 (Z.to_nat n)) ++ rest) tail)
                  false false.
Proof. unfold before_line. now rewrite Z.sub_0_r. Qed.

Lemma before_line_last (line : nat -> list (ascii * string)) (n : Z)
    (rest : list (ascii * string)) (tail : string) :
  before_line line n rest tail n = ios.mkIstream (tokens rest tail) false false.
Proof. unfold before_line. now rewrite Z.sub_diag. Qed.

Lemma spaced_vertex_lines (vs : list float) (l : list nat) :
  spaced (flat_map (vertex_line vs) l).
Proof. apply spaced_flat_map. intros k. repeat constructor. Qed.

Lemma spaced_triangle_lines (ts : list Z) (l : list nat) :
  spaced (flat_map (triangle_line ts) l).
Proof. apply spaced_flat_map. intros k. repeat constructor. Qed.

Lemma at_in_range (ts : list Z) (j : Z) :
  Forall (fun t => 0 <= t < 2 ^ 32) ts -> 0 <= j < size ts ->
  0 <= at_ indeterminate_uint ts j < 2 ^ 32.
Proof.
  intros Hall Hj. unfold at_, size in *.
  destruct (Z.ltb_spec j 0) as [?|_]; [lia|].
  rewrite Forall_forall in Hall. apply Hall. apply nth_In. lia.
Qed.

(** the vertex lines of a mesh text, read into a new mesh *)
Lemma read_vertex_lines (vc tc : Z) (vs vs' : list float)
    (rest : list (ascii * string)) (tail : string) :
  0 <= vc -> 3 * vc < 2 ^ 32 -> size vs = 3 * vc ->
  reread_all vs = Some vs' -> spaced rest -> starts_with_space tail ->
  for_loop vc
    (fun k '(m, i) =>
       let i3 := u32 (k * 3) in
       let (r, i) := ios.extract_double i in
       let a := read_into r i3 (vertices m) in
       let (r, i) := ios.extract_double i in
       let a := read_into r (u32 (i3 + 1)) a in
       let (r, i) := ios.extract_double i in
       let a := read_into r (u32 (i3 + 2)) a in
       (set_vertices m a, i))
    (Mesh_new vc tc, before_line (vertex_line vs) vc rest tail 0)
  = (set_vertices (Mesh_new vc tc) vs', before_line (vertex_line vs) vc rest tail vc).
Proof.
  intros Hv0 Hv Hsize Hre Hrest Htail.
  destruct (reread_all_at indeterminate_double indeterminate_double vs vs' Hre)
    as [Hsize' Hat].
  set (step := fun (k : Z) (a : list float) =>
         store (3 * k + 2) (at_ indeterminate_double vs' (3 * k + 2))
           (store (3 * k + 1) (at_ indeterminate_double vs' (3 * k + 1))
              (store (3 * k) (at_ indeterminate_double vs' (3 * k)) a))).
  rewrite (for_loop_with_stream vc _ (fun k m => set_vertices m (step k (vertices m)))
             (before_line (vertex_line vs) vc rest tail)).
  - f_equal. rewrite (for_loop_vertices vc step) by (exact Hv0 || reflexivity).
    f_equal. cbn [Mesh_new vertices]. unfold step.
    rewrite (fill3 indeterminate_double vc
               (fun k => at_ indeterminate_double vs' (3 * k))
               (fun k => at_ indeterminate_double vs' (3 * k + 1))
               (fun k => at_ indeterminate_double vs' (3 * k + 2)))
      by (exact Hv0 || reflexivity).
    apply chunks3; [exact Hv0|lia].
  - exact Hv0.
  - intros k m Hk. rewrite before_line_next by exact Hk.
    unfold vertex_line at 1. cbn [app]. rewrite Z2Nat.id by lia.
    assert (Hsp : spaced (flat_map (vertex_line vs)
                            (seq (Z.to_nat (k + 1)) (Z.to_nat (vc - (k + 1)))) ++ rest))
      by (apply spaced_app; [apply spaced_vertex_lines|exact Hrest]).
    rewrite (read_double_token _ _ (at_ indeterminate_double vs' (3 * k)));
      [|reflexivity|apply Hat; lia|repeat constructor; exact Hsp
       |exact Htail].
    rewrite (read_double_token _ _ (at_ indeterminate_double vs' (3 * k + 1)));
      [|reflexivity|apply Hat; lia|repeat constructor; exact Hsp
       |exact Htail].
    rewrite (read_double_token _ _ (at_ indeterminate_double vs' (3 * k + 2)));
      [|reflexivity|apply Hat; lia|exact Hsp|exact Htail].
    cbn [read_into]. replace (k * 3) with (3 * k) by lia.
    rewrite !(u32_small (3 * k)) by lia. rewrite !u32_small by lia.
    reflexivity.
Qed.

(** the triangle lines of a mesh text, read into a mesh *)
Lemma read_triangle_lines (m : Mesh) (tc : Z) (ts : list Z)
    (rest : list (ascii * string)) (tail : string) :
  0 <= tc -> 3 * tc < 2 ^ 32 -> size ts = 3 * tc ->
  Forall (fun t => 0 <= t < 2 ^ 32) ts -> spaced rest -> starts_with_space tail ->
  triangles m = repeat indeterminate_uint (Z.to_nat (3 * tc)) ->
  for_loop tc
    (fun k '(m, i) =>
       let i3 := u32 (k * 3) in
       let (r, i) := ios.extract_uint i in
       let a := read_into r i3 (triangles m) in
       let (r, i) := ios.extract_uint i in
       let a := read_into r (u32 (i3 + 1)) a in
       let (r, i) := ios.extract_uint i in
       let a := read_into r (u32 (i3 + 2)) a in
       (set_triangles m a, i))
    (m, before_line (triangle_line ts) tc rest tail 0)
  = (set_triangles m ts, before_line (triangle_line ts) tc rest tail tc).
Proof.
  intros Ht0 Ht Hsize Hall Hrest Htail Hm.
  set (step := fun (k : Z) (a : list Z) =>
         store (3 * k + 2) (at_ indeterminate_uint ts (3 * k + 2))
           (store (3 * k + 1) (at_ indeterminate_uint ts (3 * k + 1))
              (store (3 * k) (at_ indeterminate_uint ts (3 * k)) a))).
  rewrite (for_loop_with_stream tc _ (fun k m => set_triangles m (step k (triangles m)))
             (before_line (triangle_line ts) tc rest tail)).
  - f_equal. rewrite (for_loop_triangles tc step) by (exact Ht0 || reflexivity).
    f_equal. rewrite Hm. unfold step.
    rewrite (fill3 indeterminate_uint tc
               (fun k => at_ indeterminate_uint ts (3 * k))
               (fun k => at_ indeterminate_uint ts (3 * k + 1))
               (fun k => at_ indeterminate_uint ts (3 * k + 2)))
      by (exact Ht0 || reflexivity).
    apply chunks3; [exact Ht0|lia].
  - exact Ht0.
  - intros k m' Hk. rewrite before_line_next by exact Hk.
    unfold triangle_line at 1. cbn [app]. rewrite Z2Nat.id by lia.
    assert (Hsp : spaced (flat_map (triangle_line ts)
                            (seq (Z.to_nat (k + 1)) (Z.to_nat (tc - (k + 1)))) ++ rest))
      by (apply spaced_app; [apply spaced_triangle_lines|exact Hrest]).
    rewrite read_uint_token;
      [|reflexivity|apply at_in_range; [exact Hall|lia]|repeat constructor; exact Hsp
       |exact Htail].
    rewrite read_uint_token;
      [|reflexivity|apply at_in_range; [exact Hall|lia]|repeat constructor; exact Hsp
       |exact Htail].
    rewrite read_uint_token;
      [|reflexivity|apply at_in_range; [exact Hall|lia]|exact Hsp
       |exact Htail].
    cbn [read_into]. replace (k * 3) with (3 * k) by lia.
    rewrite !(u32_small (3 * k)) by lia. rewrite !u32_small by lia.
    reflexivity.
Qed.

(** *** The text of a shape and its load *)

Lemma skipws_lead (lead x : string) :
  ios.skipws lead = "" -> ios.skipws (lead +++ x) = ios.skipws x.
Proof.
  induction lead as [|c lead IH]; [reflexivity|]. simpl.
  destruct (ios.isspace c); [exact IH|discriminate].
Qed.

Lemma endl_app_starts_with_space (rest : string) : starts_with_space (endl +++ rest).
Proof. exists "010"%char, rest. split; reflexivity. Qed.

(** [in >> str] on a name between white space *)
Lemma extract_string_word_after (lead w k : string) :
  ios.skipws lead = "" -> w <> "" -> no_space w = true -> starts_with_space k ->
  ios.extract_string (ios.mkIstream (lead +++ w +++ k) false false)
  = (Some w, ios.mkIstream k false false).
Proof.
  intros Hlead Hne Hw Hk. rewrite <- (extract_string_word w k Hne Hw Hk).
  unfold ios.extract_string, ios.sentry.
  cbn [ios.good ios.eofbit ios.failbit negb andb ios.buffer].
  now rewrite (skipws_lead lead (w +++ k) Hlead).
Qed.

(** the text of a supported shape, appended to the stream: its name, then
    its tokens, then a line end *)
Lemma saveAsText_tokens (s : Shape) (out : string) :
  supported s ->
  saveAsText s out
  = ([], (out +++ shape_name s) +++ tokens (shape_tokens s) endl).
Proof.
  intros Hs. destruct s as [r|x y z|r l|r l|a b c d|m| |]; try contradiction;
    try (cbn [saveAsText shape_name shape_tokens];
         rewrite !append_assoc; reflexivity).
  cbn [supported] in Hs. now rewrite (saveAsText_Mesh m out Hs).
Qed.

Ltac text_side :=
  first [assumption | reflexivity | discriminate
        | apply endl_app_starts_with_space
        | apply tokens_start;
          [repeat constructor; assumption|apply endl_app_starts_with_space]
        | repeat constructor; assumption].

Ltac read_type_name :=
  unfold constructShapeFromText;
  cbn [ios.good ios.eof ios.eofbit ios.failbit negb andb shape_name shape_tokens];
  rewrite extract_string_word_after by text_side;
  cbn [ios.good ios.eof ios.eofbit ios.failbit negb andb];
  repeat match goal with
         | |- context [String.eqb ?a ?b] =>
             let v := eval vm_compute in (String.eqb a b) in
             change (String.eqb a b) with v
         end;
  cbv iota.

Ltac read_number H :=
  unfold read_double;
  rewrite (fun c l t Hc => read_double_token c _ _ l t Hc H) by text_side.

(** the load of the text of a shape, after white space and before any
    text: the shape as its text carries it, and the stream at the line end
    that closes the text of the shape *)
Lemma text_of_a_shape_loads (s s' : Shape) (lead rest : string) :
  supported s -> reload s = Some s' -> ios.skipws lead = "" ->
  constructShapeFromText
    (ios.mkIstream
       (lead +++ shape_name s +++ tokens (shape_tokens s) (endl +++ rest))
       false false)
  = ([], Some s', ios.mkIstream (endl +++ rest) false false).
Proof.
  intros Hs Hre Hlead.
  destruct s as [r|x y z|r l|r l|a b c d|m| |]; try contradiction.
  - cbn [reload] in Hre.
    destruct (reread r) as [r'|] eqn:Er; [|discriminate Hre]. injection Hre as <-.
    read_type_name. read_number Er. reflexivity.
  - cbn [reload] in Hre.
    destruct (reread x) as [x'|] eqn:Ex; [|discriminate Hre].
    destruct (reread y) as [y'|] eqn:Ey; [|discriminate Hre].
    destruct (reread z) as [z'|] eqn:Ez; [|discriminate Hre]. injection Hre as <-.
    read_type_name. read_number Ex. read_number Ey. read_number Ez. reflexivity.
  - cbn [reload] in Hre.
    destruct (reread r) as [r'|] eqn:Er; [|discriminate Hre].
    destruct (reread l) as [l'|] eqn:El; [|discriminate Hre]. injection Hre as <-.
    read_type_name. read_number Er. read_number El. reflexivity.
  - cbn [reload] in Hre.
    destruct (reread r) as [r'|] eqn:Er; [|discriminate Hre].
    destruct (reread l) as [l'|] eqn:El; [|discriminate Hre]. injection Hre as <-.
    read_type_name. read_number Er. read_number El. reflexivity.
  - cbn [reload] in Hre.
    destruct (reread a) as [a'|] eqn:Ea; [|discriminate Hre].
    destruct (reread b) as [b'|] eqn:Eb; [|discriminate Hre].
    destruct (reread c) as [c'|] eqn:Ec; [|discriminate Hre].
    destruct (reread d) as [d'|] eqn:Ed; [|discriminate Hre]. injection Hre as <-.
    read_type_name. read_number Ea. read_number Eb. read_number Ec. read_number Ed.
    reflexivity.
  - cbn [supported] in Hs.
    destruct Hs as (Hv0 & Hv & Ht0 & Ht & Hvs & Hts & Hall).
    cbn [reload] in Hre.
    destruct (reread_all (vertices m)) as [vs'|] eqn:Evs; [|discriminate Hre].
    injection Hre as <-.
    assert (Hsp : spaced (flat_map (vertex_line (vertices m))
                            (seq 0 (Z.to_nat (vertex_count m)))
                          ++ flat_map (triangle_line (triangles m))
                               (seq 0 (Z.to_nat (triangle_count m)))))
      by (apply spaced_app; [apply spaced_vertex_lines|apply spaced_triangle_lines]).
    read_type_name. unfold mesh_tokens. cbn [app]. unfold read_uint.
    rewrite read_uint_token;
      [|reflexivity|lia|repeat constructor; exact Hsp|apply endl_app_starts_with_space].
    rewrite read_uint_token;
      [|reflexivity|lia|exact Hsp|apply endl_app_starts_with_space].
    cbn [Mesh_new vertex_count].
    change (mkMesh (vertex_count m) (triangle_count m)
              (repeat indeterminate_double (Z.to_nat (3 * vertex_count m)))
              (repeat indeterminate_uint (Z.to_nat (3 * triangle_count m)))
              (repeat indeterminate_double (Z.to_nat (3 * triangle_count m))))
      with (Mesh_new (vertex_count m) (triangle_count m)).
    rewrite <- before_line_first.
    rewrite (read_vertex_lines _ _ _ vs' _ _ Hv0 Hv Hvs Evs (spaced_triangle_lines _ _)
               (endl_app_starts_with_space rest)).
    rewrite before_line_last.
    rewrite <- (app_nil_r (flat_map (triangle_line (triangles m)) _)).
    rewrite <- before_line_first.
    cbn [set_vertices Mesh_new triangle_count].
    rewrite read_triangle_lines;
      [|exact Ht0|exact Ht|exact Hts|exact Hall|constructor
       |apply endl_app_starts_with_space|reflexivity].
    rewrite before_line_last. reflexivity.
Qed.

(** X1: for every supported shape whose doubles can each be read back from
    their six-digit rendering (reload), saveAsText logs nothing and
    constructShapeFromText on the saved text returns the shape with every
    double replaced by the value read back, the counts and indices of a
    mesh as they were and its normals computed anew; the final line end is
    left in the stream. *)
Theorem text_round_trip_rereads_each_number (s s' : Shape) :
  supported s -> reload s = Some s' ->
  fst (saveAsText s "") = []
  /\ constructShapeFromText (istream_of (snd (saveAsText s "")))
     = ([], Some s', ios.mkIstream endl false false).
Proof.
  intros Hs Hre. rewrite (saveAsText_tokens s "" Hs). split; [reflexivity|].
  exact (text_of_a_shape_loads s s' "" "" Hs Hre eq_refl).
Qed.

(** * Further properties of the operations *)

(** ** The comparator of the vertex set *)

Lemma ltb_irrefl (a : float) : PrimFloat.ltb a a = false.
Proof.
  rewrite ltb_spec. unfold SFltb.
  destruct (Prim2SF a) as [s|s| |s m e]; simpl; try reflexivity.
  - destruct s; reflexivity.
  - rewrite Z.compare_refl, Pos.compare_cont_refl. destruct s; reflexivity.
Qed.

(** X2: ltLocalVertexValue never puts a vertex before itself; on vertices
    without a NaN coordinate it is asymmetric and transitive, and two
    vertices are unordered exactly when their coordinates are equal as
    doubles (==), so it is a strict weak ordering whose classes are the
    points; a NaN breaks this: (NaN,0,0) is unordered with (1,0,0) and with
    (2,0,0), which are ordered. *)
Theorem ltLocalVertexValue_orders_the_points_without_nan :
  (forall p, detail.ltLocalVertexValue p p = false)
  /\ (forall p q, lv_no_nan p -> lv_no_nan q ->
        detail.ltLocalVertexValue p q = true ->
        detail.ltLocalVertexValue q p = false)
  /\ (forall p q r, lv_no_nan p -> lv_no_nan q -> lv_no_nan r ->
        detail.ltLocalVertexValue p q = true ->
        detail.ltLocalVertexValue q r = true ->
        detail.ltLocalVertexValue p r = true)
  /\ (forall p q, lv_no_nan p -> lv_no_nan q ->
        (detail.ltLocalVertexValue p q = false
         /\ detail.ltLocalVertexValue q p = false
         <-> PrimFloat.eqb (detail.x p) (detail.x q) = true
             /\ PrimFloat.eqb (detail.y p) (detail.y q) = true
             /\ PrimFloat.eqb (detail.z p) (detail.z q) = true))
  /\ (exists p q r,
        detail.ltLocalVertexValue p q = false
        /\ detail.ltLocalVertexValue q p = false
        /\ detail.ltLocalVertexValue p r = false
        /\ detail.ltLocalVertexValue r p = false
        /\ detail.ltLocalVertexValue q r = true).
Proof.
  split; [|split; [|split; [|split]]].
  - intros p. unfold detail.ltLocalVertexValue. now rewrite !ltb_irrefl.
  - intros p q Hp Hq H. apply (ltLocalVertexValue_key p q Hp Hq) in H.
    apply not_true_is_false. intros H'.
    apply (ltLocalVertexValue_key q p Hq Hp) in H'.
    exact (vkey_lt_irrefl _ (vkey_lt_trans _ _ _ H H')).
  - intros p q r Hp Hq Hr H1 H2.
    apply (ltLocalVertexValue_key p q Hp Hq) in H1.
    apply (ltLocalVertexValue_key q r Hq Hr) in H2.
    apply (ltLocalVertexValue_key p r Hp Hr).
    exact (vkey_lt_trans _ _ _ H1 H2).
  - intros p q Hp Hq.
    pose proof (ltLocalVertexValue_key p q Hp Hq) as K1.
    pose proof (ltLocalVertexValue_key q p Hq Hp) as K2.
    destruct Hp as (Hx & Hy & Hz), Hq as (Hx' & Hy' & Hz').
    rewrite !eqb_key by assumption.
    split.
    + intros [H1 H2].
      destruct (vkey_lt_total (vkey p) (vkey q)) as [H|[H|H]].
      * apply K1 in H. congruence.
      * unfold vkey in H. inversion H. auto.
      * apply K2 in H. congruence.
    + intros (E1 & E2 & E3).
      assert (E : vkey p = vkey q) by (unfold vkey; congruence).
      split; apply not_true_is_false; intros H.
      * apply K1 in H. rewrite E in H. exact (vkey_lt_irrefl _ H).
      * apply K2 in H. rewrite E in H. exact (vkey_lt_irrefl _ H).
  - exists (detail.mkLocalVertex nan 0 0 0), (detail.mkLocalVertex 1 0 0 0),
           (detail.mkLocalVertex 2 0 0 0).
    repeat split; reflexivity.
Qed.

(** ** The two constructions of a mesh *)

(** X3: on a stream of at least 3 points without a NaN coordinate (and
    3*len < 2^32), the construction from a soup returns the mesh that the
    indexed construction returns on the distinct points in order of first
    appearance and, for each processed point, its position among them. *)
Theorem soup_is_the_indexed_construction_of_its_distinct_points
    (source : list Eigen.Vector3d) :
  3 <= size source -> 3 * size source < 2 ^ 32 ->
  Forall no_nan (whole_triangles source) ->
  snd (createMeshFromVertices_soup source)
  = Some (createMeshFromVertices
            (first_occurrences (whole_triangles source))
            (map (fun p => position_of p (first_occurrences (whole_triangles source)))
                 (whole_triangles source))).
Proof.
  intros H3 Hsize Hnan.
  rewrite createMeshFromVertices_soup_result by assumption. cbn [snd]. f_equal.
  pose proof (whole_triangles_length source) as HW.
  pose proof (first_occurrences_size_le (whole_triangles source)) as HF.
  assert (H3n : 3 * (size source / 3) <= size source) by (apply Z.mul_div_le; lia).
  assert (Hn : 0 <= size source / 3) by (apply Z.div_pos; lia).
  set (F := first_occurrences (whole_triangles source)) in *.
  set (ts := map (fun p => position_of p F) (whole_triangles source)).
  assert (Hts : size ts = 3 * (size source / 3))
    by (unfold ts, size; rewrite length_map; exact HW).
  assert (Hdiv : size ts / 3 = size source / 3)
    by (rewrite Hts, Z.mul_comm; apply Z.div_mul; lia).
  rewrite createMeshFromVertices_result by lia.
  unfold soup_mesh. fold F. fold ts. rewrite Hdiv.
  replace (Z.to_nat (3 * (size source / 3))) with (length ts)
    by (rewrite <- Hts; unfold size; lia).
  rewrite firstn_all. reflexivity.
Qed.

(** ** From a message to a shape and back *)

Lemma triples_at {A B : Type} (f0 f1 f2 : A -> B) (d : B) (d' : A)
    (l : list A) (k : Z) :
  0 <= k < size l ->
  at_ d (flat_map (fun a => [f0 a; f1 a; f2 a]) l) (3 * k) = f0 (at_ d' l k)
  /\ at_ d (flat_map (fun a => [f0 a; f1 a; f2 a]) l) (3 * k + 1) = f1 (at_ d' l k)
  /\ at_ d (flat_map (fun a => [f0 a; f1 a; f2 a]) l) (3 * k + 2) = f2 (at_ d' l k).
Proof.
  intros Hk. unfold size in Hk.
  set (g := fun a => [f0 a; f1 a; f2 a]).
  pose proof (firstn_skipn (Z.to_nat k) l) as Hsplit.
  destruct (skipn (Z.to_nat k) l) as [|q R] eqn:Hskip.
  { exfalso. apply (f_equal (@length _)) in Hsplit.
    rewrite app_nil_r, firstn_length_le in Hsplit by lia. lia. }
  assert (Hlen : size (firstn (Z.to_nat k) l) = k)
    by (unfold size; rewrite firstn_length_le by lia; lia).
  assert (Hq : at_ d' l k = q).
  { rewrite <- Hsplit. apply at_app_here. now rewrite Hlen. }
  rewrite Hq, <- Hsplit, flat_map_app. cbn [flat_map].
  change (g q) with [f0 q; f1 q; f2 q]. cbn [app].
  assert (HL : size (flat_map g (firstn (Z.to_nat k) l)) = 3 * k).
  { unfold size in *. rewrite flat_map_length3 by reflexivity. lia. }
  repeat split.
  - apply at_app_here. lia.
  - change (flat_map g (firstn (Z.to_nat k) l) ++ f0 q :: ?r)
      with (flat_map g (firstn (Z.to_nat k) l) ++ [f0 q] ++ r).
    rewrite app_assoc. apply at_app_here.
    rewrite size_app. unfold size at 2. cbn [length]. lia.
  - change (flat_map g (firstn (Z.to_nat k) l) ++ f0 q :: f1 q :: ?r)
      with (flat_map g (firstn (Z.to_nat k) l) ++ [f0 q; f1 q] ++ r).
    rewrite app_assoc. apply at_app_here.
    rewrite size_app. unfold size at 2. cbn [length]. lia.
Qed.

Lemma map_at_seq {A : Type} (d : A) (l : list A) :
  map (fun k => at_ d l (Z.of_nat k)) (seq 0 (length l)) = l.
Proof.
  transitivity (map (fun k => nth k l d) (seq 0 (length l)));
    [apply map_ext; intros k; apply at_nth|apply map_nth_seq].
Qed.

Lemma gtb_size {A : Type} (l : list A) (k : Z) :
  (size l >? k) = true <-> k < size l.
Proof. rewrite Z.gtb_ltb. apply Z.ltb_lt. Qed.

(** the message of the mesh that a mesh message is turned into *)
Lemma Mesh_msg_of_message (msg : shape_msgs.Mesh) :
  3 * size (shape_msgs.vertices msg) < 2 ^ 32 ->
  3 * size (shape_msgs.triangles msg) < 2 ^ 32 ->
  Forall MeshTriangle_wf (shape_msgs.triangles msg) ->
  let m :=
    createMeshFromVertices
      (map (fun p => Eigen.mkVector3d (geometry_msgs.x p) (geometry_msgs.y p)
                       (geometry_msgs.z p))
           (shape_msgs.vertices msg))
      (flat_map (fun t => [shape_msgs.vertex_indices0 t;
                           shape_msgs.vertex_indices1 t;
                           shape_msgs.vertex_indices2 t])
                (shape_msgs.triangles msg)) in
  Mesh_wf m /\ Mesh_msg m = msg.
Proof.
  destruct msg as [ts vs]. cbn [shape_msgs.vertices shape_msgs.triangles].
  intros Hv Ht Hall.
  set (vs' := map _ vs). set (g := fun t : shape_msgs.MeshTriangle => _).
  assert (Hvs' : size vs' = size vs) by (unfold vs', size; now rewrite length_map).
  assert (Hts : size (flat_map g ts) = 3 * size ts).
  { unfold size. rewrite flat_map_length3 by reflexivity. lia. }
  assert (Hdiv : size (flat_map g ts) / 3 = size ts)
    by (rewrite Hts, Z.mul_comm; apply Z.div_mul; lia).
  pose proof (size_nonneg vs) as Hv0. pose proof (size_nonneg ts) as Ht0.
  cbv zeta. rewrite createMeshFromVertices_result by lia.
  rewrite Hdiv, Hvs'.
  replace (Z.to_nat (3 * size ts)) with (length (flat_map g ts))
    by (rewrite <- Hts; unfold size; lia).
  rewrite firstn_all.
  split.
  - unfold Mesh_wf. cbn [computeNormals set_normals vertex_count triangle_count
                         vertices triangles].
    repeat split; try lia.
    + rewrite flatten_length. lia.
    + apply Forall_forall. intros i Hi. apply in_flat_map in Hi as (t & Ht' & Hi).
      rewrite Forall_forall in Hall. destruct (Hall t Ht') as (H0 & H1 & H2).
      destruct Hi as [<-|[<-|[<-|[]]]]; assumption.
  - unfold Mesh_msg. cbn [computeNormals set_normals vertex_count triangle_count
                          vertices triangles].
    subst g. f_equal.
    + unfold size. rewrite Nat2Z.id. rewrite <- (map_at_seq MeshTriangle_0 ts) at 2.
      apply map_ext_in. intros k Hk. apply in_seq in Hk.
      destruct (triples_at shape_msgs.vertex_indices0 shape_msgs.vertex_indices1
                  shape_msgs.vertex_indices2 indeterminate_uint MeshTriangle_0 ts
                  (Z.of_nat k)) as (-> & -> & ->); [unfold size; lia|].
      now destruct (at_ MeshTriangle_0 ts (Z.of_nat k)).
    + unfold size. rewrite Nat2Z.id. rewrite <- (map_at_seq Point_0 vs) at 2.
      apply map_ext_in. intros k Hk. apply in_seq in Hk.
      destruct (flatten_at indeterminate_double indeterminate_Vector3d vs' (Z.of_nat k))
        as (-> & -> & ->); [rewrite Hvs'; unfold size; lia|].
      unfold vs'. rewrite (at_map _ Point_0) by (unfold size; lia).
      now destruct (at_ Point_0 vs (Z.of_nat k)).
Qed.

(** X4: when constructShapeFromMsg turns a message into a shape (a mesh
    message with fewer than 2^32/3 vertices and triangles), constructMsgFromShape
    turns that shape back into the message, logging nothing: a plane and a
    mesh message come back as they were, a primitive message comes back with
    the dimensions that its kind needs, any further dimension being
    dropped. *)
Theorem message_is_rebuilt_from_its_shape (msg msg0 : ShapeMsg) (sh : Shape)
    (log : list LogEntry) :
  ShapeMsg_wf msg ->
  constructShapeFromMsg msg = (log, Some sh) ->
  constructMsgFromShape sh msg0 = ([], (true, ShapeMsg_read msg)).
Proof.
  intros Hwf H. destruct msg as [[kind dims]|m|[a b c d]].
  - cbn [constructShapeFromMsg ShapeMsg_read shape_msgs.type shape_msgs.dimensions] in *.
    unfold constructShapeFromMsg_SolidPrimitive in H.
    cbn [shape_msgs.type shape_msgs.dimensions] in H.
    destruct (Z.eqb_spec kind shape_msgs.SPHERE) as [->|N1].
    { destruct dims as [|d0 rest]; [discriminate H|].
      assert (E : (size (d0 :: rest) >? shape_msgs.SPHERE_RADIUS) = true)
        by (apply gtb_size; rewrite size_cons; pose proof (size_nonneg rest);
            unfold shape_msgs.SPHERE_RADIUS; lia).
      rewrite E in H. injection H as _ <-. reflexivity. }
    destruct (Z.eqb_spec kind shape_msgs.BOX) as [->|N2].
    { destruct dims as [|d0 [|d1 [|d2 rest]]]; try discriminate H.
      assert (E : (size (d0 :: d1 :: d2 :: rest) >? shape_msgs.BOX_X) = true
                  /\ (size (d0 :: d1 :: d2 :: rest) >? shape_msgs.BOX_Y) = true
                  /\ (size (d0 :: d1 :: d2 :: rest) >? shape_msgs.BOX_Z) = true)
        by (rewrite !gtb_size, !size_cons; pose proof (size_nonneg rest);
            unfold shape_msgs.BOX_X, shape_msgs.BOX_Y, shape_msgs.BOX_Z; lia).
      destruct E as (E1 & E2 & E3). rewrite E1, E2, E3 in H.
      injection H as _ <-. reflexivity. }
    destruct (Z.eqb_spec kind shape_msgs.CYLINDER) as [->|N3].
    { destruct dims as [|d0 [|d1 rest]]; try discriminate H.
      assert (E : (size (d0 :: d1 :: rest) >? shape_msgs.CYLINDER_RADIUS) = true
                  /\ (size (d0 :: d1 :: rest) >? shape_msgs.CYLINDER_HEIGHT) = true)
        by (rewrite !gtb_size, !size_cons; pose proof (size_nonneg rest);
            unfold shape_msgs.CYLINDER_RADIUS, shape_msgs.CYLINDER_HEIGHT; lia).
      destruct E as (E1 & E2). rewrite E1, E2 in H.
      injection H as _ <-. reflexivity. }
    destruct (Z.eqb_spec kind shape_msgs.CONE) as [->|N4].
    { destruct dims as [|d0 [|d1 rest]]; try discriminate H.
      assert (E : (size (d0 :: d1 :: rest) >? shape_msgs.CONE_RADIUS) = true
                  /\ (size (d0 :: d1 :: rest) >? shape_msgs.CONE_HEIGHT) = true)
        by (rewrite !gtb_size, !size_cons; pose proof (size_nonneg rest);
            unfold shape_msgs.CONE_RADIUS, shape_msgs.CONE_HEIGHT; lia).
      destruct E as (E1 & E2). rewrite E1, E2 in H.
      injection H as _ <-. reflexivity. }
    discriminate H.
  - cbn [constructShapeFromMsg ShapeMsg_read ShapeMsg_wf] in *.
    destruct Hwf as (Hv & Ht & Hall).
    destruct (shape_msgs.vertices m) as [|p vs] eqn:Evs.
    { unfold constructShapeFromMsg_Mesh in H. rewrite Evs in H.
      rewrite orb_true_r in H. discriminate H. }
    destruct (shape_msgs.triangles m) as [|t ts] eqn:Ets.
    { unfold constructShapeFromMsg_Mesh in H. rewrite Ets in H. discriminate H. }
    rewrite constructShapeFromMsg_Mesh_result in H
      by (rewrite ?Evs, ?Ets; try discriminate; exact Ht).
    injection H as _ <-.
    rewrite <- Evs in Hv. rewrite <- Ets in Ht, Hall.
    destruct (Mesh_msg_of_message m Hv Ht Hall) as [Hm Emsg].
    rewrite constructMsgFromShape_Mesh by exact Hm. now rewrite Emsg.
  - cbn in H. injection H as _ <-. reflexivity.
Qed.

(** ** The name of a shape and the type token of a text *)

(** X5: whenever constructShapeFromText returns a shape, the token it read
    first is the shapeStringName of that shape, the shape is a sphere, a
    box, a cylinder, a cone, a plane or a mesh, and nothing was logged,
    whatever follows the token in the stream. *)
Theorem text_load_returns_the_shape_that_its_token_names
    (i i' : ios.istream) (log : list LogEntry) (sh : Shape) :
  constructShapeFromText i = (log, Some sh, i') ->
  fst (ios.extract_string i) = Some (shapeStringName (Some sh))
  /\ In (shape_type sh) [SPHERE; BOX; CYLINDER; CONE; PLANE; MESH]
  /\ log = [].
Proof.
  unfold constructShapeFromText.
  destruct (ios.good i && negb (ios.eof i)); [|discriminate].
  destruct (ios.extract_string i) as [r i1]. cbn [fst].
  destruct (ios.good i1 && negb (ios.eof i1)); [|discriminate].
  assert (Hr : forall name, name <> "" ->
                 String.eqb (match r with Some w => w | None => "" end) name = true ->
                 r = Some name).
  { intros name Hne E. apply String.eqb_eq in E. destruct r as [w|]; congruence. }
  destruct (String.eqb _ Sphere_STRING_NAME) eqn:E1.
  { destruct (read_double i1) as [radius i2]. intros H. injection H as <- <- _.
    rewrite (Hr Sphere_STRING_NAME ltac:(discriminate) E1). cbn. auto 10. }
  destruct (String.eqb _ Box_STRING_NAME) eqn:E2.
  { destruct (read_double i1) as [x i2]. destruct (read_double i2) as [y i3].
    destruct (read_double i3) as [z i4]. intros H. injection H as <- <- _.
    rewrite (Hr Box_STRING_NAME ltac:(discriminate) E2). cbn. auto 10. }
  destruct (String.eqb _ Cylinder_STRING_NAME) eqn:E3.
  { destruct (read_double i1) as [x i2]. destruct (read_double i2) as [y i3].
    intros H. injection H as <- <- _.
    rewrite (Hr Cylinder_STRING_NAME ltac:(discriminate) E3). cbn. auto 10. }
  destruct (String.eqb _ Cone_STRING_NAME) eqn:E4.
  { destruct (read_double i1) as [x i2]. destruct (read_double i2) as [y i3].
    intros H. injection H as <- <- _.
    rewrite (Hr Cone_STRING_NAME ltac:(discriminate) E4). cbn. auto 10. }
  destruct (String.eqb _ Plane_STRING_NAME) eqn:E5.
  { destruct (read_double i1) as [a i2]. destruct (read_double i2) as [b i3].
    destruct (read_double i3) as [c i4]. destruct (read_double i4) as [d i5].
    intros H. injection H as <- <- _.
    rewrite (Hr Plane_STRING_NAME ltac:(discriminate) E5). cbn. auto 10. }
  destruct (String.eqb _ Mesh_STRING_NAME) eqn:E6.
  { destruct (read_uint i1) as [v i2]. destruct (read_uint i2) as [t i3].
    destruct (for_loop _ _ _) as [m1 i4]. destruct (for_loop _ _ _) as [m2 i5].
    intros H. injection H as <- <- _.
    rewrite (Hr Mesh_STRING_NAME ltac:(discriminate) E6). cbn. auto 10. }
  discriminate.
Qed.

(** ** Several shapes on one stream *)

Lemma saved_text_loads (s s' : Shape) (lead rest : string) :
  supported s -> reload s = Some s' -> ios.skipws lead = "" ->
  constructShapeFromText
    (ios.mkIstream (lead +++ snd (saveAsText s "") +++ rest) false false)
  = ([], Some s', ios.mkIstream (endl +++ rest) false false).
Proof.
  intros Hs Hre Hlead. rewrite (saveAsText_tokens s "" Hs). cbn [snd].
  change ("" +++ shape_name s) with (shape_name s).
  rewrite append_assoc, tokens_append.
  exact (text_of_a_shape_loads s s' lead rest Hs Hre Hlead).
Qed.

(** X6: saveAsText appends the text of a supported shape to what the stream
    holds and logs nothing; constructShapeFromText, on a stream that holds
    this text after any white space and before any other text, returns the
    shape as its text carries it (reload) and leaves the stream at the line
    end that closes the text of the shape, with what follows unread. *)
Theorem text_of_a_shape_is_appended_and_loaded_alone
    (s s' : Shape) (out lead rest : string) :
  supported s -> reload s = Some s' -> ios.skipws lead = "" ->
  saveAsText s out = ([], out +++ snd (saveAsText s ""))
  /\ constructShapeFromText
       (ios.mkIstream (lead +++ snd (saveAsText s "") +++ rest) false false)
     = ([], Some s', ios.mkIstream (endl +++ rest) false false).
Proof.
  intros Hs Hre Hlead. split; [|exact (saved_text_loads s s' lead rest Hs Hre Hlead)].
  rewrite !(saveAsText_tokens s _ Hs). cbn [snd].
  change ("" +++ shape_name s) with (shape_name s). now rewrite !append_assoc.
Qed.

Lemma save_all_texts (shapes : list Shape) (out : string) :
  Forall supported shapes -> save_all shapes out = out +++ texts shapes.
Proof.
  intros Hall. revert out. induction Hall as [|s l Hs Hl IH]; intros out.
  - cbn. now rewrite append_nil_r.
  - cbn [save_all fold_left texts fold_right]. fold (save_all l).
    rewrite IH, (saveAsText_tokens s out Hs), (saveAsText_tokens s "" Hs). cbn [snd].
    change ("" +++ shape_name s) with (shape_name s).
    fold (texts l). now rewrite !append_assoc.
Qed.

Lemma load_all_texts (shapes loaded : list Shape) (lead : string) :
  Forall supported shapes -> map reload shapes = map Some loaded ->
  shapes <> [] -> ios.skipws lead = "" ->
  load_all (length shapes) (ios.mkIstream (lead +++ texts shapes) false false)
  = (map Some loaded, ios.mkIstream endl false false).
Proof.
  intros Hall. revert loaded lead.
  induction Hall as [|s l Hs Hl IH]; intros loaded lead Hre Hne Hlead; [congruence|].
  destruct loaded as [|s' loaded]; [discriminate Hre|].
  cbn [map] in Hre. injection Hre as Hs' Hre.
  cbn [length load_all texts fold_right]. fold (texts l).
  rewrite (saved_text_loads s s' lead (texts l) Hs Hs' Hlead).
  destruct l as [|s2 l].
  - destruct loaded; [|discriminate Hre]. reflexivity.
  - rewrite (IH loaded endl Hre ltac:(discriminate) eq_refl). reflexivity.
Qed.

(** X7: supported shapes saved one after the other on an empty stream are
    loaded back one after the other, each as its text carries it (reload),
    and the loads leave only the last line end in the stream. *)
Theorem shapes_saved_in_a_row_load_in_a_row (shapes loaded : list Shape) :
  Forall supported shapes -> map reload shapes = map Some loaded ->
  shapes <> [] ->
  load_all (length shapes) (istream_of (save_all shapes ""))
  = (map Some loaded, ios.mkIstream endl false false).
Proof.
  intros Hall Hre Hne. rewrite (save_all_texts shapes "" Hall).
  exact (load_all_texts shapes loaded "" Hall Hre Hne eq_refl).
Qed.

(** ** The mesh of a scene of the importer *)

Lemma aiNode_ind (P : assimp.aiNode -> Prop) :
  (forall t meshes children, Forall P children -> P (assimp.mkNode t meshes children)) ->
  forall node, P node.
Proof.
  intros H. fix IH 1. intros [t meshes children]. apply H.
  induction children as [|c children IHc]; constructor; [apply IH|exact IHc].
Qed.

Lemma total_app {X : Type} (f : X -> Z) (l1 l2 : list X) :
  total f (l1 ++ l2) = total f l1 + total f l2.
Proof.
  unfold total. induction l1 as [|x l1 IH]; cbn [app fold_right]; [reflexivity|].
  rewrite IH. lia.
Qed.

Lemma total_nonneg {X : Type} (f : X -> Z) (l : list X) :
  (forall x, 0 <= f x) -> 0 <= total f l.
Proof.
  intros Hf. unfold total. induction l as [|x l IH]; cbn [fold_right]; [lia|].
  specialize (Hf x). lia.
Qed.

Lemma total_flat_map {X Y : Type} (f : Y -> Z) (g : X -> list Y) (l : list X) :
  total f (flat_map g l) = total (fun x => total f (g x)) l.
Proof.
  induction l as [|x l IH]; [reflexivity|].
  cbn [flat_map]. rewrite total_app, IH. reflexivity.
Qed.

Lemma total_map {X Y : Type} (f : Y -> Z) (g : X -> Y) (l : list X) :
  total f (map g l) = total (fun x => f (g x)) l.
Proof.
  unfold total. induction l as [|x l IH]; cbn [map fold_right]; [reflexivity|].
  now rewrite IH.
Qed.

(** a loop over an array that pushes what it makes of each element *)
Lemma for_loop_push {A B : Type} (d : A) (h : A -> list B) (l : list A) (acc : list B) :
  for_loop (size l) (fun i acc => acc ++ h (at_ d l i)) acc = acc ++ flat_map h l.
Proof.
  induction l as [|x l IH] using rev_ind.
  - cbn. now rewrite app_nil_r.
  - rewrite size_app. change (size [x]) with 1.
    rewrite for_loop_succ by apply size_nonneg.
    rewrite (for_loop_ext (size l) _ (fun i acc => acc ++ h (at_ d l i))).
    + rewrite IH, flat_map_app, <- app_assoc. cbn [flat_map].
      rewrite app_nil_r, (at_app_here d l [] x) by reflexivity. reflexivity.
    + apply size_nonneg.
    + intros i s Hi. do 2 f_equal. unfold at_, size in *.
      destruct (Z.ltb_spec i 0); [lia|]. apply app_nth1. lia.
Qed.

(** a loop over an array that hands each element to a step *)
Lemma for_loop_fold {A S : Type} (d : A) (step : A -> S -> S) (l : list A) (s : S) :
  for_loop (size l) (fun i s => step (at_ d l i) s) s
  = fold_left (fun s x => step x s) l s.
Proof.
  induction l as [|x l IH] using rev_ind; [reflexivity|].
  rewrite size_app. change (size [x]) with 1.
  rewrite for_loop_succ by apply size_nonneg.
  rewrite fold_left_app. cbn [fold_left].
  rewrite (at_app_here d l [] x) by reflexivity. f_equal.
  rewrite <- IH. apply for_loop_ext; [apply size_nonneg|].
  intros i s' Hi. f_equal. unfold at_, size in *.
  destruct (Z.ltb_spec i 0); [lia|]. apply app_nth1. lia.
Qed.

Lemma pushes_nothing : pushes (fun st => st) 0 0 [].
Proof.
  intros vs ts _. exists [], []. rewrite !app_nil_r. repeat split. constructor.
Qed.

Lemma pushes_then (f g : list Eigen.Vector3d * list Z -> list Eigen.Vector3d * list Z)
    (n1 t1 n2 t2 : Z) (c1 c2 : list Eigen.Vector3d) :
  0 <= n1 -> 0 <= n2 -> pushes f n1 t1 c1 -> pushes g n2 t2 c2 ->
  pushes (fun st => g (f st)) (n1 + n2) (t1 + t2) (c1 ++ c2).
Proof.
  intros Hn1 Hn2 Hf Hg vs ts Hsize.
  destruct (Hf vs ts ltac:(lia)) as (vs1 & ts1 & E1 & Hv1 & Ht1 & Hr1 & Hc1).
  destruct (Hg (vs ++ vs1) (ts ++ ts1) ltac:(rewrite size_app; lia))
    as (vs2 & ts2 & E2 & Hv2 & Ht2 & Hr2 & Hc2).
  exists (vs1 ++ vs2), (ts1 ++ ts2).
  rewrite E1, E2, <- !app_assoc, !size_app. repeat split; try lia.
  - apply Forall_app. split.
    + eapply Forall_impl; [|exact Hr1]. cbv beta. intros i Hi. lia.
    + eapply Forall_impl; [|exact Hr2]. cbv beta. intros i Hi.
      rewrite size_app in Hi. lia.
  - intros more. rewrite map_app. f_equal.
    + rewrite <- (Hc1 (vs2 ++ more)). now rewrite <- !app_assoc.
    + rewrite <- (Hc2 more). now rewrite <- !app_assoc.
Qed.

Lemma pushes_fold {X : Type}
    (step : X -> list Eigen.Vector3d * list Z -> list Eigen.Vector3d * list Z)
    (n t : X -> Z) (c : X -> list Eigen.Vector3d) (l : list X) :
  (forall x, 0 <= n x) ->
  Forall (fun x => pushes (step x) (n x) (t x) (c x)) l ->
  pushes (fun st => fold_left (fun st x => step x st) l st)
         (total n l) (total t l) (flat_map c l).
Proof.
  intros Hn Hall. induction Hall as [|x l Hx Hl IH].
  - exact pushes_nothing.
  - cbn [fold_left total fold_right flat_map]. fold (total n l) (total t l).
    apply (pushes_then (step x)
             (fun st => fold_left (fun st x => step x st) l st));
      [apply Hn|now apply total_nonneg|exact Hx|exact IH].
Qed.

Lemma flat_map_triangles_length (h : assimp.aiFace -> list Z) (a : assimp.aiMesh) :
  (forall f, size (assimp.mIndices f) = 3 -> length (h f) = 3%nat) ->
  (forall f, size (assimp.mIndices f) <> 3 -> h f = []) ->
  size (flat_map h (assimp.mFaces a)) = 3 * size (triangle_faces a).
Proof.
  intros H3 Hn. unfold triangle_faces.
  induction (assimp.mFaces a) as [|f l IH]; [reflexivity|].
  cbn [flat_map filter]. rewrite size_app, IH.
  destruct (Z.eqb_spec (size (assimp.mIndices f)) 3) as [E|E].
  - rewrite size_cons. unfold size at 1. rewrite (H3 f E). lia.
  - rewrite (Hn f E). unfold size at 1. cbn [length]. lia.
Qed.

Lemma flat_map_singleton {A B : Type} (g : A -> B) (l : list A) :
  flat_map (fun v => [g v]) l = map g l.
Proof. induction l as [|v l IH]; [reflexivity|]. cbn. now rewrite IH. Qed.

Lemma at_app_shift {A : Type} (d : A) (l1 l2 : list A) (i : Z) :
  0 <= i -> at_ d (l1 ++ l2) (size l1 + i) = at_ d l2 i.
Proof.
  intros Hi. unfold at_, size.
  destruct (Z.ltb_spec (Z.of_nat (length l1) + i) 0); [lia|].
  destruct (Z.ltb_spec i 0); [lia|].
  rewrite app_nth2 by lia. f_equal. lia.
Qed.

Lemma at_app_first {A : Type} (d : A) (l1 l2 : list A) (i : Z) :
  0 <= i < size l1 -> at_ d (l1 ++ l2) i = at_ d l1 i.
Proof.
  intros Hi. unfold at_, size in *. destruct (Z.ltb_spec i 0); [lia|].
  apply app_nth1. lia.
Qed.

(** what the traversal takes from one mesh *)
Lemma extractMeshData_mesh_pushes (a : assimp.aiMesh)
    (transform : assimp.aiMatrix4x4) (scale : Eigen.Vector3d) :
  aiMesh_wf a ->
  pushes (extractMeshData_mesh a transform scale)
         (size (assimp.mVertices a)) (size (triangle_faces a))
         (mesh_corners a transform scale).
Proof.
  intros Hwf vs ts Hsize. unfold extractMeshData_mesh.
  pose proof (size_nonneg vs) as Hvs0.
  rewrite (u32_small (size vs)) by (pose proof (size_nonneg (assimp.mVertices a)); lia).
  set (g := fun v : assimp.aiVector3D => [scaled transform scale v]).
  set (h := fun f : assimp.aiFace =>
              if size (assimp.mIndices f) =? 3 then
                [u32 (size vs + at_ 0 (assimp.mIndices f) 0);
                 u32 (size vs + at_ 0 (assimp.mIndices f) 1);
                 u32 (size vs + at_ 0 (assimp.mIndices f) 2)]
              else []).
  exists (flat_map g (assimp.mVertices a)), (flat_map h (assimp.mFaces a)).
  assert (Hat : forall f k, In f (assimp.mFaces a) ->
                  0 <= k < size (assimp.mIndices f) ->
                  0 <= at_ 0 (assimp.mIndices f) k < size (assimp.mVertices a)).
  { intros f k Hf Hk. unfold aiMesh_wf in Hwf. rewrite Forall_forall in Hwf.
    specialize (Hwf f Hf). rewrite Forall_forall in Hwf. apply Hwf. now apply in_at. }
  split; [|split; [|split; [|split]]].
  - f_equal.
    + exact (for_loop_push aiVector3D_0 g (assimp.mVertices a) vs).
    + rewrite <- (for_loop_push aiFace_0 h (assimp.mFaces a) ts).
      apply for_loop_ext; [apply size_nonneg|].
      intros i s Hi. unfold h.
      destruct (size (assimp.mIndices (at_ aiFace_0 (assimp.mFaces a) i)) =? 3);
        [reflexivity|now rewrite app_nil_r].
  - unfold size, g. now rewrite flat_map_singleton, length_map.
  - apply flat_map_triangles_length.
    + intros f E. unfold h. rewrite E. reflexivity.
    + intros f E. unfold h. now destruct (Z.eqb_spec (size (assimp.mIndices f)) 3).
  - apply Forall_forall. intros i Hi. apply in_flat_map in Hi as (f & Hf & Hi).
    unfold h in Hi.
    destruct (Z.eqb_spec (size (assimp.mIndices f)) 3) as [E|E]; [|destruct Hi].
    pose proof (Hat f 0 Hf ltac:(lia)). pose proof (Hat f 1 Hf ltac:(lia)).
    pose proof (Hat f 2 Hf ltac:(lia)).
    destruct Hi as [<-|[<-|[<-|[]]]]; rewrite u32_small by lia; lia.
  - intros more. unfold mesh_corners, triangle_faces, g.
    rewrite flat_map_singleton.
    induction (assimp.mFaces a) as [|f l IH]; [reflexivity|].
    cbn [flat_map filter]. rewrite map_app.
    rewrite IH by (intros f' k Hf'; apply Hat; now right).
    unfold h at 1.
    destruct (Z.eqb_spec (size (assimp.mIndices f)) 3) as [E|E]; [|reflexivity].
    cbn [flat_map]. f_equal.
    pose proof (Hat f 0 (or_introl eq_refl) ltac:(lia)) as H0.
    pose proof (Hat f 1 (or_introl eq_refl) ltac:(lia)) as H1.
    pose proof (Hat f 2 (or_introl eq_refl) ltac:(lia)) as H2.
    assert (Hcorner : forall i, 0 <= i < size (assimp.mVertices a) ->
              at_ indeterminate_Vector3d
                  (vs ++ map (scaled transform scale) (assimp.mVertices a) ++ more)
                  (u32 (size vs + i))
              = scaled transform scale (at_ aiVector3D_0 (assimp.mVertices a) i)).
    { intros i Hi. rewrite u32_small by lia. rewrite at_app_shift by lia.
      rewrite at_app_first by (unfold size; rewrite length_map; exact Hi).
      now apply at_map. }
    destruct (assimp.mIndices f) as [|i0 [|i1 [|i2 [|i3 r]]]] eqn:Ef;
      try (unfold size in E; cbn [length] in E; lia).
    cbn [map]. change (at_ 0 [i0; i1; i2] 0) with i0 in *.
    change (at_ 0 [i0; i1; i2] 1) with i1 in *.
    change (at_ 0 [i0; i1; i2] 2) with i2 in *.
    now rewrite !Hcorner by assumption.
Qed.

(** what the traversal takes from a node and the nodes below it *)
Lemma extractMeshData_pushes (scene : aiScene.aiScene) (scale : Eigen.Vector3d)
    (node : assimp.aiNode) :
  Forall aiMesh_wf (aiScene.mMeshes scene) ->
  Forall (fun r => 0 <= r < size (aiScene.mMeshes scene)) (node_refs node) ->
  forall parent_transform,
    pushes (extractMeshData scene node parent_transform scale)
           (count_vertices (map (at_ aiMesh_0 (aiScene.mMeshes scene)) (node_refs node)))
           (count_triangles (map (at_ aiMesh_0 (aiScene.mMeshes scene)) (node_refs node)))
           (node_corners scene node parent_transform scale).
Proof.
  intros Hmeshes. induction node as [t meshes children IH] using aiNode_ind.
  intros Hrefs parent_transform. cbn [node_refs node_corners] in *.
  apply Forall_app in Hrefs as [Hown Hbelow].
  unfold count_vertices, count_triangles. rewrite !map_app, !total_app.
  set (look := at_ aiMesh_0 (aiScene.mMeshes scene)).
  set (T := aiMatrix4x4_mul parent_transform t).
  assert (E : forall st,
            extractMeshData scene (assimp.mkNode t meshes children) parent_transform
                            scale st
            = fold_left (fun st child => extractMeshData scene child T scale st) children
                (fold_left (fun st r => extractMeshData_mesh (look r) T scale st)
                           meshes st)).
  { intros st. cbn [extractMeshData]. fold T. f_equal.
    exact (for_loop_fold 0 (fun r st => extractMeshData_mesh (look r) T scale st)
             meshes st). }
  intros vs ts Hsize. rewrite E. revert vs ts Hsize.
  apply (pushes_then
           (fun st => fold_left (fun st r => extractMeshData_mesh (look r) T scale st)
                                meshes st)
           (fun st => fold_left (fun st child => extractMeshData scene child T scale st)
                                children st)).
  - apply total_nonneg. intros a. apply size_nonneg.
  - apply total_nonneg. intros a. apply size_nonneg.
  - rewrite !total_map.
    apply (pushes_fold (fun r => extractMeshData_mesh (look r) T scale)
             (fun r => size (assimp.mVertices (look r)))
             (fun r => size (triangle_faces (look r)))
             (fun r => mesh_corners (look r) T scale)).
    + intros r. apply size_nonneg.
    + apply Forall_forall. intros r Hr. apply extractMeshData_mesh_pushes.
      rewrite Forall_forall in Hown, Hmeshes. apply Hmeshes. apply in_at.
      now apply Hown.
  - rewrite !total_map, !total_flat_map.
    apply (pushes_fold (fun child => extractMeshData scene child T scale)
             (fun child => total (fun r => size (assimp.mVertices (look r)))
                                 (node_refs child))
             (fun child => total (fun r => size (triangle_faces (look r)))
                                 (node_refs child))
             (fun child => node_corners scene child T scale)).
    + intros c. apply total_nonneg. intros a. apply size_nonneg.
    + apply Forall_forall. intros c Hc. rewrite Forall_forall in IH.
      assert (Hc' : Forall (fun r => 0 <= r < size (aiScene.mMeshes scene))
                           (node_refs c)).
      { apply Forall_forall. intros r Hr. rewrite Forall_forall in Hbelow.
        apply Hbelow. apply in_flat_map. now exists c. }
      pose proof (IH c Hc Hc' T) as H.
      unfold count_vertices, count_triangles in H. rewrite !total_map in H. exact H.
Qed.

Lemma size_0_nil {A : Type} (l : list A) : size l = 0 -> l = [].
Proof. destruct l; [reflexivity|]. unfold size. cbn [length]. lia. Qed.

(** X8: for a scene whose nodes refer to meshes of the scene and whose
    faces refer to vertices of their mesh (fewer than 2^32/3 vertices and
    triangles in all), createMeshFromAsset fails with one warning when the
    scene has no mesh, when the traversal meets no vertex, and when it meets
    no face of three indices; otherwise it returns, without a diagnostic, a
    mesh with one vertex for every vertex of every mesh the traversal meets
    (a mesh counts once for each node that refers to it) and one triangle
    for every face of three indices, faces of any other size being left out,
    and every index of the mesh is one of its vertices. *)
Theorem createMeshFromAsset_takes_the_triangles_of_the_scene
    (scene : aiScene.aiScene) (scale : Eigen.Vector3d) (resource_name : string) :
  aiScene_wf scene ->
  3 * count_vertices (scene_meshes scene) < 2 ^ 32 ->
  3 * count_triangles (scene_meshes scene) < 2 ^ 32 ->
  (aiScene.mMeshes scene = [] ->
   createMeshFromAsset_scale scene scale resource_name
   = (logWarn NO_MESHES [ArgStr resource_name], None))
  /\ (aiScene.mMeshes scene <> [] -> count_vertices (scene_meshes scene) = 0 ->
      createMeshFromAsset_scale scene scale resource_name
      = (logWarn NO_VERTICES [ArgStr resource_name], None))
  /\ (aiScene.mMeshes scene <> [] -> 0 < count_vertices (scene_meshes scene) ->
      count_triangles (scene_meshes scene) = 0 ->
      createMeshFromAsset_scale scene scale resource_name
      = (logWarn NO_TRIANGLES [ArgStr resource_name], None))
  /\ (aiScene.mMeshes scene <> [] -> 0 < count_vertices (scene_meshes scene) ->
      0 < count_triangles (scene_meshes scene) ->
      exists m,
        createMeshFromAsset_scale scene scale resource_name = ([], Some m)
        /\ vertex_count m = count_vertices (scene_meshes scene)
        /\ triangle_count m = count_triangles (scene_meshes scene)
        /\ size (vertices m) = 3 * vertex_count m
        /\ size (triangles m) = 3 * triangle_count m
        /\ Forall (fun i => 0 <= i < vertex_count m) (triangles m)).
Proof.
  intros [Hrefs Hmeshes] Hnv Hnt.
  split.
  { intros E. unfold createMeshFromAsset_scale, aiScene.HasMeshes. now rewrite E. }
  assert (Hhas : aiScene.mMeshes scene <> [] -> aiScene.HasMeshes scene = true).
  { unfold aiScene.HasMeshes. destruct (aiScene.mMeshes scene); congruence. }
  destruct (extractMeshData_pushes scene scale (aiScene.mRootNode scene) Hmeshes Hrefs
              assimp.aiMatrix4x4_0 [] [])
    as (vs & ts & E & Hvs & Hts & Hrange & _).
  { change (size []) with 0. fold (scene_meshes scene).
    assert (0 <= count_vertices (scene_meshes scene))
      by (apply total_nonneg; intros a; apply size_nonneg).
    lia. }
  fold (scene_meshes scene) in Hvs, Hts. cbn [app] in E.
  change (size []) with 0 in Hrange.
  unfold createMeshFromAsset_scale.
  split; [|split].
  - intros Hne H0. rewrite (Hhas Hne), E. cbn [negb].
    rewrite H0 in Hvs. now rewrite (size_0_nil vs Hvs).
  - intros Hne Hpos H0. rewrite (Hhas Hne), E. cbn [negb].
    destruct vs as [|v vs]; [change (size []) with 0 in Hvs; lia|]. cbn [is_nil].
    rewrite H0 in Hts. now rewrite (size_0_nil ts ltac:(lia)).
  - intros Hne Hpos Htpos. rewrite (Hhas Hne), E. cbn [negb].
    destruct vs as [|v vs]; [change (size []) with 0 in Hvs; lia|]. cbn [is_nil].
    destruct ts as [|t ts]; [change (size []) with 0 in Hts; lia|]. cbn [is_nil].
    eexists. split; [reflexivity|].
    assert (Hdiv : size (t :: ts) / 3 = count_triangles (scene_meshes scene))
      by (rewrite Hts, Z.mul_comm; apply Z.div_mul; lia).
    rewrite createMeshFromVertices_result by lia.
    rewrite Hdiv, Hvs.
    replace (Z.to_nat (3 * count_triangles (scene_meshes scene)))
      with (length (t :: ts)) by (rewrite <- Hts; unfold size; lia).
    rewrite firstn_all.
    cbn [computeNormals set_normals vertex_count triangle_count vertices triangles].
    repeat split; try assumption; try lia.
    rewrite flatten_length. lia.
Qed.

(** ** Loading a mesh from a resource *)

Lemma createMeshFromAsset_log (scene : aiScene.aiScene) (scale : Eigen.Vector3d)
    (name : string) :
  (exists m, createMeshFromAsset_scale scene scale name = ([], Some m))
  \/ (exists fmt, createMeshFromAsset_scale scene scale name
                  = (logWarn fmt [ArgStr name], None)).
Proof.
  unfold createMeshFromAsset_scale.
  destruct (aiScene.HasMeshes scene); cbn [negb]; [|right; eauto].
  destruct (extractMeshData _ _ _ _ _) as [vs ts].
  destruct (is_nil vs); [right; eauto|].
  destruct (is_nil ts); [right; eauto|left; eauto].
Qed.

(** X9: createMeshFromResource returns no mesh exactly when it logs a
    diagnostic, so no failure of the retrieval, of the importer or of the
    conversion goes unreported and no mesh comes with a diagnostic; the same
    holds of createMeshFromAsset, whereas createMeshFromBinary returns no
    mesh and logs nothing when the importer finds no scene in a buffer that
    is not empty. *)
Theorem createMeshFromResource_reports_every_failure :
  (forall resource scale,
     snd (createMeshFromResource_scale resource scale) = None
     <-> fst (createMeshFromResource_scale resource scale) <> [])
  /\ (forall scene scale name,
        snd (createMeshFromAsset_scale scene scale name) = None
        <-> fst (createMeshFromAsset_scale scene scale name) <> [])
  /\ (forall buffer size scale hint,
        ReadFileFromMemory (Some buffer) size hint = None -> 1 <= size ->
        createMeshFromBinary_scale (Some buffer) size scale hint = ([], None)).
Proof.
  assert (Hasset : forall scene scale name,
            snd (createMeshFromAsset_scale scene scale name) = None
            <-> fst (createMeshFromAsset_scale scene scale name) <> []).
  { intros scene scale name.
    destruct (createMeshFromAsset_log scene scale name) as [[m ->]|[fmt ->]];
      cbn [fst snd]; split; intros H; try discriminate; congruence. }
  split; [|split; [exact Hasset|]].
  - intros resource scale. unfold createMeshFromResource_scale.
    destruct (resource_retriever.get retriever resource) as [what|data size].
    { cbn. split; [discriminate|reflexivity]. }
    destruct (size =? 0). { cbn. split; [discriminate|reflexivity]. }
    unfold createMeshFromBinary_scale.
    destruct (_ || _).
    { cbn. split; [discriminate|reflexivity]. }
    destruct (ReadFileFromMemory data size resource) as [scene|].
    + destruct (createMeshFromAsset_log scene scale resource) as [[m ->]|[fmt ->]];
        cbn; split; intros H; try discriminate; congruence.
    + cbn. split; [discriminate|reflexivity].
  - intros buffer size scale hint E Hsize. unfold createMeshFromBinary_scale.
    destruct (Z.ltb_spec size 1); [lia|]. cbn [orb]. now rewrite E.
Qed.

(** ** Markers *)

Lemma constructMsgFromShape_log (shape : Shape) (msg0 : ShapeMsg) :
  (exists msg, constructMsgFromShape shape msg0 = ([], (true, msg))
               /\ (forall a b c d, shape = Plane a b c d ->
                     exists p, msg = PlaneMsg p)
               /\ ((forall a b c d, shape <> Plane a b c d) ->
                     forall p, msg <> PlaneMsg p))
  \/ (exists log, constructMsgFromShape shape msg0 = (log, (false, msg0))
                  /\ log <> [] /\ (shape = OcTree \/ shape = UnknownShape)).
Proof.
  destruct shape as [r|x y z|r l|r l|a b c d|m| |];
    try (left; eexists; split; [reflexivity|]; split;
         [intros; try discriminate; eauto|intros; try discriminate]).
  - exfalso. eapply H. reflexivity.
  - right. eexists. split; [reflexivity|]. split; [discriminate|auto].
  - right. eexists. split; [reflexivity|]. split; [discriminate|auto].
Qed.

(** X10: constructMarkerFromShape returns true exactly when it logs nothing;
    it returns false and leaves the marker as it was for a plane, an octree
    and a shape of unknown type, a plane being the one case in which the
    failure is its own (the visitor throws, the exception is caught and its
    message logged); for any other shape it returns true unless shape_tools
    throws a runtime error, whose message it logs. *)
Theorem constructMarkerFromShape_succeeds_exactly_without_a_diagnostic
    (shape : Shape) (marker : Marker) (use_mesh_triangle_list : bool) :
  (fst (snd (constructMarkerFromShape shape marker use_mesh_triangle_list)) = true
   <-> fst (constructMarkerFromShape shape marker use_mesh_triangle_list) = [])
  /\ (forall a b c d, shape = Plane a b c d ->
        constructMarkerFromShape shape marker use_mesh_triangle_list
        = (logError "%s" [ArgStr NO_MARKER_FOR_PLANES], (false, marker)))
  /\ (shape = OcTree \/ shape = UnknownShape ->
        snd (constructMarkerFromShape shape marker use_mesh_triangle_list)
        = (false, marker))
  /\ ((forall a b c d, shape <> Plane a b c d) -> shape <> OcTree ->
      shape <> UnknownShape ->
      exists msg,
        constructMsgFromShape shape ShapeMsg_0 = ([], (true, msg))
        /\ match snd (ShapeVisitorMarker marker use_mesh_triangle_list msg) with
           | None =>
               constructMarkerFromShape shape marker use_mesh_triangle_list
               = ([], (true, fst (ShapeVisitorMarker marker use_mesh_triangle_list msg)))
           | Some what =>
               constructMarkerFromShape shape marker use_mesh_triangle_list
               = (logError "%s" [ArgStr what],
                  (false, fst (ShapeVisitorMarker marker use_mesh_triangle_list msg)))
           end).
Proof.
  unfold constructMarkerFromShape.
  destruct (constructMsgFromShape_log shape ShapeMsg_0)
    as [(msg & Emsg & Hplane & Hother)|(log & -> & Hlog & Hshape)].
  - rewrite Emsg. destruct (ShapeVisitorMarker marker use_mesh_triangle_list msg) as [mk thrown] eqn:Ev.
    split; [|split; [|split]].
    + destruct thrown; cbn; split; intros H; try discriminate; reflexivity.
    + intros a b c d E. destruct (Hplane a b c d E) as [p ->].
      cbn in Ev. injection Ev as <- <-. reflexivity.
    + intros [E|E]; rewrite E in Emsg; discriminate Emsg.
    + intros _ _ _. exists msg. split; [reflexivity|]. rewrite Ev. cbn [fst snd].
      destruct thrown; reflexivity.
  - split; [|split; [|split]].
    + cbn. split; [discriminate|congruence].
    + intros a b c d E. destruct Hshape; congruence.
    + intros _. reflexivity.
    + intros _ H1 H2. destruct Hshape; contradiction.
Qed.

(** X11: under the conditions of X8, when createMeshFromAsset returns a
    mesh, the vertices that its triangles refer to are, triangle after
    triangle in the order of the traversal (a node's meshes, then its
    children), the vertices that the faces of three indices refer to in
    their own mesh, transformed by the product of the transformations from
    the root to the node of the mesh and scaled axis by axis: the shift of
    the indices by the number of vertices pushed before keeps every
    triangle on its own vertices. *)
Theorem createMeshFromAsset_keeps_the_corners_of_the_triangles
    (scene : aiScene.aiScene) (scale : Eigen.Vector3d) (resource_name : string)
    (log : list LogEntry) (m : Mesh) :
  aiScene_wf scene ->
  3 * count_vertices (scene_meshes scene) < 2 ^ 32 ->
  3 * count_triangles (scene_meshes scene) < 2 ^ 32 ->
  createMeshFromAsset_scale scene scale resource_name = (log, Some m) ->
  map (Mesh_vertex m) (triangles m)
  = node_corners scene (aiScene.mRootNode scene) assimp.aiMatrix4x4_0 scale.
Proof.
  intros [Hrefs Hmeshes] Hnv Hnt.
  destruct (extractMeshData_pushes scene scale (aiScene.mRootNode scene) Hmeshes Hrefs
              assimp.aiMatrix4x4_0 [] [])
    as (vs & ts & E & Hvs & Hts & Hrange & Hcorners).
  { change (size []) with 0. fold (scene_meshes scene).
    assert (0 <= count_vertices (scene_meshes scene))
      by (apply total_nonneg; intros a; apply size_nonneg).
    lia. }
  fold (scene_meshes scene) in Hvs, Hts, Hrange. cbn [app] in E.
  change (size []) with 0 in Hrange. specialize (Hcorners []).
  cbn [app] in Hcorners. rewrite app_nil_r in Hcorners.
  unfold createMeshFromAsset_scale. rewrite E.
  destruct (negb (aiScene.HasMeshes scene)); [discriminate|].
  destruct (is_nil vs); [discriminate|]. destruct (is_nil ts); [discriminate|].
  intros H. injection H as _ <-.
  assert (Hnt0 : 0 <= count_triangles (scene_meshes scene))
    by (apply total_nonneg; intros a; apply size_nonneg).
  assert (Hdiv : size ts / 3 = count_triangles (scene_meshes scene))
    by (rewrite Hts, Z.mul_comm; apply Z.div_mul; lia).
  rewrite createMeshFromVertices_result by lia.
  rewrite Hdiv.
  replace (Z.to_nat (3 * count_triangles (scene_meshes scene)))
    with (length ts) by (rewrite <- Hts; unfold size; lia).
  rewrite firstn_all.
  cbn [computeNormals set_normals triangles]. rewrite <- Hcorners.
  apply map_ext_in. intros i Hi. rewrite Forall_forall in Hrange.
  specialize (Hrange i Hi). unfold Mesh_vertex.
  cbn [computeNormals set_normals vertices].
  destruct (flatten_at indeterminate_double indeterminate_Vector3d vs i)
    as (-> & -> & ->); [lia|].
  now destruct (at_ indeterminate_Vector3d vs i).
Qed.

(** ** The numbers that the text keeps exactly *)

Lemma digits2_pos_size (p : positive) : digits2_pos p = Pos.size p.
Proof. induction p as [p IH|p IH|]; cbn; now rewrite ?IH. Qed.

Lemma digits2_pos_bound (p : positive) (b : Z) :
  0 <= b -> Z.pos p < 2 ^ b -> Z.pos (digits2_pos p) <= b.
Proof.
  intros Hb Hp. rewrite digits2_pos_size.
  pose proof (Pos.size_le p) as H. apply Pos2Z.pos_le_pos in H.
  rewrite Pos2Z.inj_pow in H. change (Z.pos 2) with 2 in H.
  destruct (Z.le_gt_cases (Z.pos (Pos.size p)) b) as [L|G]; [exact L|exfalso].
  assert (H0 : 2 ^ Z.succ b <= 2 ^ Z.pos (Pos.size p)) by (apply Z.pow_le_mono_r; lia).
  rewrite Z.pow_succ_r in H0 by lia. lia.
Qed.

Lemma iter_xO_value (p k : positive) :
  Z.pos (Pos.iter xO p k) = Z.pos p * 2 ^ Z.pos k.
Proof.
  induction k as [|k IH] using Pos.peano_ind.
  - cbn. lia.
  - rewrite Pos.iter_succ, Pos2Z.inj_xO, IH, Pos2Z.inj_succ, Z.pow_succ_r by lia. lia.
Qed.

Lemma iter_xO_digits (p k : positive) :
  Z.pos (digits2_pos (Pos.iter xO p k)) = Z.pos (digits2_pos p) + Z.pos k.
Proof.
  induction k as [|k IH] using Pos.peano_ind.
  - cbn. lia.
  - rewrite Pos.iter_succ. cbn [digits2_pos]. rewrite Pos2Z.inj_succ, IH. lia.
Qed.

(** the conversion of an integer of at most 52 bits is exact: the
    mantissa is the integer shifted to 53 bits *)
Lemma binary_round_integer (s : bool) (p : positive) :
  Z.pos p < 2 ^ 52 ->
  binary_round prec emax s p 0
  = S754_finite s (Pos.iter xO p (Z.to_pos (53 - Z.pos (digits2_pos p))))
                (Z.neg (Z.to_pos (53 - Z.pos (digits2_pos p)))).
Proof.
  intros Hp. pose proof (digits2_pos_bound p 52 ltac:(lia) Hp) as Hd.
  set (k := Z.to_pos (53 - Z.pos (digits2_pos p))).
  assert (Hk : Z.pos k = 53 - Z.pos (digits2_pos p)) by (apply Z2Pos.id; lia).
  assert (Efexp : fexp prec emax (Z.pos (digits2_pos p) + 0) = Z.neg k).
  { unfold fexp, emin, prec, emax. rewrite <- Pos2Z.opp_pos, Hk. lia. }
  unfold binary_round. rewrite Efexp. unfold shl_align.
  change (Z.neg k - 0) with (Z.neg k). cbv iota beta.
  set (m := Pos.iter xO p k).
  assert (Efexp' : fexp prec emax (Zdigits2 (Z.pos m) + Z.neg k) = Z.neg k).
  { unfold m. cbn [Zdigits2]. rewrite iter_xO_digits.
    unfold fexp, emin, prec, emax. rewrite <- Pos2Z.opp_pos, Hk. lia. }
  unfold binary_round_aux, shr_fexp. rewrite Efexp', Z.sub_diag.
  cbn [shr shr_record_of_loc shr_m loc_of_shr_record round_nearest_even].
  rewrite Efexp', Z.sub_diag.
  cbn [shr shr_record_of_loc shr_m]. reflexivity.
Qed.

Lemma Prim2SF_double_of_Z (s : bool) (p : positive) :
  Z.pos p < 2 ^ 52 ->
  Prim2SF (double_of_Z (if s then Z.neg p else Z.pos p))
  = S754_finite s (Pos.iter xO p (Z.to_pos (53 - Z.pos (digits2_pos p))))
                (Z.neg (Z.to_pos (53 - Z.pos (digits2_pos p)))).
Proof.
  intros Hp. unfold double_of_Z.
  assert (E : binary_normalize prec emax (if s then Z.neg p else Z.pos p) 0 false
              = binary_round prec emax s p 0) by (now destruct s).
  rewrite E, (binary_round_integer s p Hp).
  apply Prim2SF_SF2Prim.
  pose proof (digits2_pos_bound p 52 ltac:(lia) Hp) as Hd.
  set (k := Z.to_pos (53 - Z.pos (digits2_pos p))).
  assert (Hk : Z.pos k = 53 - Z.pos (digits2_pos p)) by (apply Z2Pos.id; lia).
  cbn [valid_binary]. unfold bounded, canonical_mantissa.
  rewrite iter_xO_digits. apply andb_true_intro. split.
  - apply Z.eqb_eq. unfold fexp, emin, prec, emax. rewrite <- Pos2Z.opp_pos, Hk. lia.
  - reflexivity.
Qed.

Lemma ilog10_aux_spec (fuel : nat) : forall n : Z,
  0 < n < 10 ^ Z.of_nat fuel ->
  0 <= ios.ilog10_aux fuel n
  /\ 10 ^ ios.ilog10_aux fuel n <= n < 10 ^ (ios.ilog10_aux fuel n + 1).
Proof.
  induction fuel as [|fuel IH]; intros n Hn.
  - change (10 ^ Z.of_nat 0) with 1 in Hn. lia.
  - cbn [ios.ilog10_aux]. destruct (Z.ltb_spec n 10) as [Hlt|Hge].
    + change (10 ^ 0) with 1. change (10 ^ (0 + 1)) with 10. lia.
    + rewrite Nat2Z.inj_succ, Z.pow_succ_r in Hn by lia.
      assert (Hq : 0 < n / 10 < 10 ^ Z.of_nat fuel).
      { split; [apply Z.div_str_pos; lia|apply Z.div_lt_upper_bound; lia]. }
      destruct (IH (n / 10) Hq) as (H0 & Hlo & Hhi).
      set (X := ios.ilog10_aux fuel (n / 10)) in *.
      pose proof (Z.div_mod n 10 ltac:(lia)) as Hdm.
      pose proof (Z.mod_pos_bound n 10 ltac:(lia)) as Hm.
      split; [lia|].
      replace (1 + X) with (Z.succ X) by lia.
      replace (Z.succ X + 1) with (Z.succ (X + 1)) by lia.
      rewrite !Z.pow_succ_r by lia. lia.
Qed.

Lemma div_rne_exact (a den : Z) : 0 < den -> ios.div_rne (a * den) den = a.
Proof.
  intros Hd. unfold ios.div_rne.
  rewrite Z.mod_mul, Z.div_mul by lia.
  replace (2 * 0 ?= den) with Lt by (symmetry; apply Z.compare_lt_iff; lia).
  reflexivity.
Qed.

(** [%g] writes an integer of at most six digits as its decimal digits *)
Lemma print_positive_integer (p den : Z) :
  0 < p < 10 ^ 6 -> 0 < den ->
  ios.print_positive (p * den) den = ios.decimal p.
Proof.
  intros Hp Hden. unfold ios.print_positive, ios.decimal_exponent.
  replace (den <=? p * den) with true by (symmetry; apply Z.leb_le; nia).
  rewrite Z.div_mul by lia.
  set (fuel := Datatypes.S (Z.to_nat (Z.log2 (p * den)))).
  assert (Hfuel : 0 < p < 10 ^ Z.of_nat fuel).
  { split; [lia|]. unfold fuel. rewrite Nat2Z.inj_succ, Z2Nat.id by apply Z.log2_nonneg.
    pose proof (Z.log2_spec (p * den) ltac:(nia)) as [_ Hup].
    pose proof (Z.log2_nonneg (p * den)) as Hl.
    assert (2 ^ Z.succ (Z.log2 (p * den)) <= 10 ^ Z.succ (Z.log2 (p * den)))
      by (apply Z.pow_le_mono_l; lia).
    nia. }
  destruct (ilog10_aux_spec fuel p Hfuel) as (H0 & Hlo & Hhi).
  set (X := ios.ilog10_aux fuel p) in *.
  assert (HX : X <= 5).
  { destruct (Z.le_gt_cases X 5) as [L|G]; [exact L|exfalso].
    assert (10 ^ 6 <= 10 ^ X) by (apply Z.pow_le_mono_r; lia). lia. }
  assert (ED : ios.six_digits (p * den) den X = p * 10 ^ (5 - X)).
  { unfold ios.six_digits. destruct (Z.leb_spec 5 X) as [L|G].
    - replace X with 5 by lia. change (10 ^ (5 - 5)) with 1.
      rewrite !Z.mul_1_r. now apply div_rne_exact.
    - replace (p * den * 10 ^ (5 - X)) with (p * 10 ^ (5 - X) * den) by ring.
      now apply div_rne_exact. }
  rewrite ED.
  assert (Hcase : X = 0 \/ X = 1 \/ X = 2 \/ X = 3 \/ X = 4 \/ X = 5) by lia.
  assert (Hlt : p * 10 ^ (5 - X) < 1000000).
  { repeat (destruct Hcase as [->|Hcase]; [cbn in *; lia|]). subst X. rewrite Hcase in *. cbn in *. lia. }
  replace (p * 10 ^ (5 - X) =? 1000000) with false by (symmetry; apply Z.eqb_neq; lia).
  replace ((X <? -4) || (6 <=? X)) with false
    by (symmetry; apply orb_false_iff; split; [apply Z.ltb_ge|apply Z.leb_gt]; lia).
  rewrite Z.div_mul, Z.mod_mul by (apply Z.pow_nonzero; lia).
  replace (ios.fraction (ios.fixed_digits (Z.to_nat (5 - X)) 0)) with ""
    by (repeat (destruct Hcase as [->|Hcase]; [reflexivity|]); rewrite Hcase; reflexivity).
  apply append_nil_r.
Qed.

Lemma float_loop_digits (s : string) (fd fs : bool) : forall fm,
  all_digits s -> ios.float_loop fm fd fs s = (s, "").
Proof.
  induction s as [|c s IH]; intros fm Hs; [reflexivity|].
  destruct Hs as [Hc Hs]. cbn [ios.float_loop]. rewrite Hc, (IH true Hs). reflexivity.
Qed.

Lemma skip_zeros_digits (s : string) :
  all_digits s ->
  all_digits (ios.skip_zeros s) /\ ios.number 0 (ios.skip_zeros s) = ios.number 0 s.
Proof.
  induction s as [|c s IH]; intros Hs; [split; [exact I|reflexivity]|].
  cbn [ios.skip_zeros]. destruct (Ascii.eqb c "0") eqn:E.
  - apply Ascii.eqb_eq in E. subst c. destruct Hs as [_ Hs].
    destruct (IH Hs) as [H1 H2]. split; [exact H1|]. rewrite H2. reflexivity.
  - split; [exact Hs|reflexivity].
Qed.

Lemma span_digits_digits (s : string) :
  all_digits s -> ios.span_digits s = (s, "").
Proof.
  induction s as [|c s IH]; intros Hs; [reflexivity|].
  destruct Hs as [Hc Hs]. cbn [ios.span_digits]. rewrite Hc, (IH Hs). reflexivity.
Qed.

(** the field accumulated from a string of digits: the digits after the
    leading zeros, of which one is kept *)
Lemma extract_float_digits (ds : string) :
  all_digits ds -> ds <> "" ->
  exists x, ios.extract_float ds = (x, "") /\ all_digits x /\ x <> ""
            /\ ios.number 0 x = ios.number 0 ds.
Proof.
  intros Hds Hne. destruct ds as [|c ds]; [congruence|].
  pose proof Hds as [Hc _]. destruct (isdigit_starts c Hc) as (_ & Hplus & Hminus).
  destruct (skip_zeros_digits _ Hds) as [Hz Hn].
  unfold ios.extract_float. rewrite Hminus, Hplus.
  rewrite (float_loop_digits _ false false _ Hz).
  cbn [ios.starts_with]. destruct (Ascii.eqb c "0") eqn:E.
  - exists ("0" +++ ios.skip_zeros (String c ds)). split; [reflexivity|].
    split; [split; [reflexivity|exact Hz]|]. split; [discriminate|].
    rewrite <- Hn. reflexivity.
  - exists (ios.skip_zeros (String c ds)). split; [reflexivity|].
    split; [exact Hz|]. split; [|exact Hn].
    cbn [ios.skip_zeros]. rewrite E. discriminate.
Qed.

(** [strtod] on an optional minus sign and digits *)
Lemma convert_double_digits (neg : bool) (x : string) :
  all_digits x -> x <> "" ->
  ios.convert_double ((if neg then "-" else "") +++ x)
  = Some (ios.decimal_to_double neg (ios.number 0 x) 0).
Proof.
  intros Hx Hne. destruct x as [|c x]; [congruence|].
  pose proof Hx as [Hc _]. destruct (isdigit_starts c Hc) as (_ & Hplus & Hminus).
  unfold ios.convert_double.
  assert (Es : ios.take_sign ((if neg then "-" else "") +++ String c x) = (neg, String c x)).
  { destruct neg; [reflexivity|]. cbn [String.append ios.take_sign]. now rewrite Hminus, Hplus. }
  rewrite Es, (span_digits_digits _ Hx). cbn [ios.span_digits ios.is_empty andb].
  rewrite append_nil_r. reflexivity.
Qed.

(** an integer-valued double of at most six digits is written as the
    integer *)
Lemma print_double_integer (s : bool) (p : positive) :
  Z.pos p < 10 ^ 6 ->
  ios.print_double (double_of_Z (if s then Z.neg p else Z.pos p))
  = (if s then "-" else "") +++ ios.decimal (Z.pos p).
Proof.
  intros Hp. unfold ios.print_double.
  rewrite Prim2SF_double_of_Z by (change (10 ^ 6) with 1000000 in Hp;
                                  change (2 ^ 52) with 4503599627370496; lia).
  cbn [Z.leb Z.compare Z.opp]. rewrite iter_xO_value.
  f_equal. apply print_positive_integer; [lia|]. apply Z.pow_pos_nonneg; lia.
Qed.

Lemma reread_integer (n : Z) :
  - 10 ^ 6 < n < 10 ^ 6 -> reread (double_of_Z n) = Some (double_of_Z n).
Proof.
  intros Hn.
  assert (Hgo : forall (s : bool) (p : positive), Z.pos p < 10 ^ 6 ->
            reread (double_of_Z (if s then Z.neg p else Z.pos p))
            = Some (double_of_Z (if s then Z.neg p else Z.pos p))).
  { intros s p Hp. unfold reread. rewrite (print_double_integer s p Hp).
    destruct (decimal_spec (Z.pos p) ltac:(lia)) as (Hds & Hne & Hnum).
    destruct (extract_float_digits _ Hds Hne) as (x & Ex & Hx & Hxne & Hxn).
    assert (Ef : ios.extract_float ((if s then "-" else "") +++ ios.decimal (Z.pos p))
                 = ((if s then "-" else "") +++ x, "")).
    { destruct s; [|exact Ex].
      destruct (ios.decimal (Z.pos p)) as [|c ds] eqn:Ed; [congruence|].
      pose proof Hds as [Hc _]. destruct (isdigit_starts c Hc) as (_ & Hplus & Hminus).
      unfold ios.extract_float in *. cbn [String.append]. cbn [Ascii.eqb Bool.eqb].
      rewrite Hminus, Hplus in Ex.
      destruct (ios.float_loop (ios.starts_with "0" (String c ds)) false false
                  (ios.skip_zeros (String c ds))) as [x' r'].
      injection Ex as <- ->. reflexivity. }
    rewrite Ef. unfold ios.convert_to_v. rewrite (convert_double_digits s x Hx Hxne).
    rewrite Hxn, Hnum.
    assert (Ev : ios.decimal_to_double s (Z.pos p) 0
                 = double_of_Z (if s then Z.neg p else Z.pos p)).
    { unfold ios.decimal_to_double, double_of_Z. cbn [Z.leb Z.compare].
      f_equal. f_equal. destruct s; lia. }
    rewrite Ev.
    assert (Hfin : forall y, Prim2SF y = S754_infinity false \/ Prim2SF y = S754_infinity true ->
              PrimFloat.eqb (double_of_Z (if s then Z.neg p else Z.pos p)) y = false).
    { intros y Hy. rewrite eqb_spec, Prim2SF_double_of_Z
        by (change (10 ^ 6) with 1000000 in Hp; change (2 ^ 52) with 4503599627370496; lia).
      destruct Hy as [-> | ->]; destruct s; reflexivity. }
    rewrite (Hfin infinity), (Hfin neg_infinity) by (first [left; reflexivity | right; reflexivity]).
    reflexivity. }
  destruct n as [|p|p].
  - vm_compute. reflexivity.
  - apply (Hgo false p). lia.
  - apply (Hgo true p). lia.
Qed.
Lemma reread_six_digit_integer (d : float) :
  six_digit_integer d -> reread d = Some d.
Proof. intros (n & Hn & ->). exact (reread_integer n Hn). Qed.

Lemma reread_all_six_digit_integers (ds : list float) :
  Forall six_digit_integer ds -> reread_all ds = Some ds.
Proof.
  induction 1 as [|d ds Hd _ IH]; [reflexivity|].
  cbn [reread_all]. rewrite (reread_six_digit_integer d Hd), IH. reflexivity.
Qed.

Lemma reload_six_digit_integers (s : Shape) :
  supported s -> Forall six_digit_integer (shape_doubles s) ->
  reload s = Some (with_fresh_normals s).
Proof.
  intros Hs Hd.
  destruct s as [r|x y z|r l|r l|a b c d|m| |]; cbn [shape_doubles] in Hd;
    try contradiction;
    repeat match goal with
           | H : Forall _ (_ :: _) |- _ =>
               let H1 := fresh "Hd" in let H2 := fresh "Hd" in
               apply Forall_cons_iff in H; destruct H as [H1 H2];
               apply reread_six_digit_integer in H1
           end;
    cbn [reload with_fresh_normals option_map].
  1-5: repeat match goal with
                | H : reread _ = Some _ |- _ => rewrite H; clear H
                end; reflexivity.
  rewrite (reread_all_six_digit_integers _ Hd). destruct m; reflexivity.
Qed.

(** X12: a supported shape whose doubles are all integers of at most six
    digits (as doubles: the values double(n) with |n| < 10^6) passes through
    its text unchanged: saveAsText logs nothing, and constructShapeFromText
    on the saved text returns the same shape, a mesh with its normals
    computed anew, without a diagnostic; the final line end is left in the
    stream. *)
Theorem text_round_trip_is_exact_on_six_digit_integers (s : Shape) :
  supported s -> Forall six_digit_integer (shape_doubles s) ->
  fst (saveAsText s "") = []
  /\ constructShapeFromText (istream_of (snd (saveAsText s "")))
     = ([], Some (with_fresh_normals s), ios.mkIstream endl false false).
Proof.
  intros Hs Hd. pose proof (reload_six_digit_integers s Hs Hd) as Hre.
  rewrite (saveAsText_tokens s "" Hs). split; [reflexivity|].
  exact (text_of_a_shape_loads s (with_fresh_normals s) "" "" Hs Hre eq_refl).
Qed.

End Operations.

(** * Concrete runs *)

Lemma two_triangles_no_nan : Forall no_nan (whole_triangles two_triangles).
Proof. repeat constructor. Qed.

Lemma soup_vertices_are_the_distinct_points_witness :
  3 <= size two_triangles
  /\ 3 * size two_triangles < 2 ^ 32
  /\ Forall no_nan (whole_triangles two_triangles)
  /\ exists m,
       snd (createMeshFromVertices_soup 0 0 two_triangles) = Some m
       /\ vertex_count m = 4
       /\ Forall (fun t => 0 <= t < vertex_count m) (triangles m).
Proof.
  assert (H1 : 3 <= size two_triangles) by (vm_compute; discriminate).
  assert (H2 : 3 * size two_triangles < 2 ^ 32) by reflexivity.
  split; [exact H1|]. split; [exact H2|]. split; [exact two_triangles_no_nan|].
  destruct (soup_vertices_are_the_distinct_points 0 0 two_triangles H1 H2
              two_triangles_no_nan) as (m & Hm & Hvc & _ & _ & _ & Hidx).
  exists m. split; [exact Hm|]. split; [exact Hvc|exact Hidx].
Defined.

(** C1, as stated, fails on a stream with a NaN: the three points are
    three distinct coordinate triples, and the mesh has a single vertex. *)
Lemma soup_merges_distinct_points_through_a_nan :
  3 <= size triangle_with_nan
  /\ count_distinct (whole_triangles triangle_with_nan) = 3%nat
  /\ option_map vertex_count
       (snd (createMeshFromVertices_soup 0 0 triangle_with_nan))
     = Some 1.
Proof. split; [vm_compute; discriminate|]. split; reflexivity. Qed.

Lemma soup_ids_follow_first_appearance_witness :
  3 <= size two_triangles
  /\ 3 * size two_triangles < 2 ^ 32
  /\ Forall no_nan (whole_triangles two_triangles)
  /\ exists m,
       snd (createMeshFromVertices_soup 0 0 two_triangles) = Some m
       /\ Mesh_points 0 m = [pt 0 0 0; pt 1 0 0; pt 0 1 0; pt 1 1 0]
       /\ same_point (Mesh_vertex 0 m (at_ 0 (triangles m) 5)) (pt 1 1 0) = true.
Proof.
  assert (H1 : 3 <= size two_triangles) by (vm_compute; discriminate).
  assert (H2 : 3 * size two_triangles < 2 ^ 32) by reflexivity.
  split; [exact H1|]. split; [exact H2|]. split; [exact two_triangles_no_nan|].
  destruct (soup_ids_follow_first_appearance 0 0 two_triangles H1 H2
              two_triangles_no_nan) as (_ & m & Hm & Hpts & _ & Hid).
  exists m. split; [exact Hm|]. split; [exact Hpts|].
  destruct (Hid 5) as (_ & _ & H); [split; [discriminate|reflexivity]|]. exact H.
Defined.

(** C2, as stated, fails on a stream with a NaN: the second corner, (1,0,0),
    is given the id of the vertex (NaN,0,0). *)
Lemma soup_maps_a_point_to_a_nan_vertex :
  exists m,
    snd (createMeshFromVertices_soup 0 0 triangle_with_nan) = Some m
    /\ at_ 0 (triangles m) 1 = 0
    /\ Mesh_vertex 0 m 0 = pt nan 0 0
    /\ same_point (Mesh_vertex 0 m (at_ 0 (triangles m) 1))
                  (at_ (pt 0 0 0) triangle_with_nan 1)
       = false.
Proof. eexists. split; [reflexivity|]. repeat split. Qed.

Lemma soup_needs_3_points_and_drops_the_remainder_witness :
  size (two_triangles ++ [pt 5 5 5]) < 2 ^ 32
  /\ exists m,
       createMeshFromVertices_soup 0 0 (two_triangles ++ [pt 5 5 5])
       = ([mkLog LOG_ERROR NOT_DIVISIBLE_BY_3 []], Some m)
       /\ triangle_count m = 2
       /\ snd (createMeshFromVertices_soup 0 0 two_triangles) = Some m.
Proof.
  assert (H : size (two_triangles ++ [pt 5 5 5]) < 2 ^ 32) by reflexivity.
  split; [exact H|].
  destruct (soup_needs_3_points_and_drops_the_remainder 0 0 _ H)
    as (_ & Hgen & _ & _).
  destruct Hgen as (m & H1 & H2 & _ & H4); [vm_compute; discriminate|].
  exists m. split; [exact H1|]. split; [exact H2|exact H4].
Defined.

Lemma indexed_construction_copies_its_inputs_witness :
  3 * size [pt 0 0 0; pt 1 0 0] < 2 ^ 32
  /\ size [0; 1; 7] mod 3 = 0
  /\ size [0; 1; 7] < 3 * 2 ^ 32
  /\ vertices (createMeshFromVertices 0 0 [pt 0 0 0; pt 1 0 0] [0; 1; 7])
     = [0; 0; 0; 1; 0; 0]%float
  /\ triangles (createMeshFromVertices 0 0 [pt 0 0 0; pt 1 0 0] [0; 1; 7])
     = [0; 1; 7]
  /\ triangles (createMeshFromVertices 0 0 [] []) = [].
Proof.
  assert (H1 : 3 * size [pt 0 0 0; pt 1 0 0] < 2 ^ 32) by reflexivity.
  assert (H2 : size [0; 1; 7] mod 3 = 0) by reflexivity.
  assert (H3 : size [0; 1; 7] < 3 * 2 ^ 32) by reflexivity.
  split; [exact H1|]. split; [exact H2|]. split; [exact H3|].
  destruct (indexed_construction_copies_its_inputs 0 0 _ _ H1 H2 H3)
    as (_ & _ & Hv & Ht & _).
  split; [exact Hv|]. split; [exact Ht|].
  destruct (indexed_construction_copies_its_inputs 0 0 [] [] eq_refl eq_refl eq_refl)
    as (_ & _ & _ & Ht0 & _).
  exact Ht0.
Defined.

(** C8, as stated, fails on an index list whose length is not a multiple
    of 3: the index array of the mesh has 3 * (4 / 3) = 3 slots. *)
Lemma indexed_construction_keeps_whole_triples_only :
  triangle_count (createMeshFromVertices 0 0 [] [0; 1; 2; 3]) = 1
  /\ triangles (createMeshFromVertices 0 0 [] [0; 1; 2; 3]) = [0; 1; 2]
  /\ triangles (createMeshFromVertices 0 0 [] [0; 1; 2; 3]) <> [0; 1; 2; 3].
Proof. repeat split. discriminate. Qed.

Lemma one_triangle_wf : Mesh_wf one_triangle.
Proof.
  unfold Mesh_wf.
  repeat match goal with
         | |- _ /\ _ => split
         | |- Forall _ _ => constructor
         | |- _ <= _ => vm_compute; discriminate
         | |- _ < _ => reflexivity
         | |- _ = _ => reflexivity
         end.
Qed.

Lemma message_round_trip_witness :
  supported (MeshShape one_triangle)
  /\ exists msg,
       constructMsgFromShape 0 0 (MeshShape one_triangle) ShapeMsg_0
       = ([], (true, msg))
       /\ constructShapeFromMsg 0 0 msg = ([], Some (MeshShape one_triangle)).
Proof.
  split; [exact one_triangle_wf|].
  destruct (message_round_trip 0 0 (MeshShape one_triangle) ShapeMsg_0) as [H _].
  destruct H as (msg & H1 & _ & H3).
  - exact one_triangle_wf.
  - intros m E. inversion E; subst m. split; reflexivity.
  - exists msg. split; [exact H1|]. apply H3. reflexivity.
Defined.

(** C4, as stated, fails on an empty mesh: its message is built, and the
    way back rejects a mesh message without vertices or triangles. *)
Lemma message_round_trip_loses_the_empty_mesh :
  Mesh_wf (mkMesh 0 0 [] [] [])
  /\ constructMsgFromShape 0 0 (MeshShape (mkMesh 0 0 [] [] [])) ShapeMsg_0
     = ([], (true, MeshMsg (shape_msgs.mkMesh [] [])))
  /\ constructShapeFromMsg 0 0 (MeshMsg (shape_msgs.mkMesh [] []))
     = (logWarn "Mesh definition is empty" [], None).
Proof.
  split; [|split; reflexivity].
  unfold Mesh_wf.
  repeat match goal with
         | |- _ /\ _ => split
         | |- Forall _ _ => constructor
         | |- _ <= _ => vm_compute; discriminate
         | |- _ < _ => reflexivity
         | |- _ = _ => reflexivity
         end.
Qed.

Lemma extents_of_an_unsupported_shape_are_zero_witness :
  fst (snd (constructMsgFromShape 0 0 OcTree ShapeMsg_0)) = false
  /\ snd (computeShapeExtents 0 0 unit_extents unit_extents OcTree)
     = Eigen.mkVector3d 0 0 0.
Proof.
  assert (H : fst (snd (constructMsgFromShape 0 0 OcTree ShapeMsg_0)) = false)
    by reflexivity.
  split; [exact H|].
  destruct (extents_of_an_unsupported_shape_are_zero 0 0 unit_extents unit_extents
              OcTree ShapeMsg_0 H)
    as (_ & E & _).
  rewrite E. reflexivity.
Defined.

(** C7, as stated, fails on a text that names a type and gives no number:
    a sphere is returned, its radius being whatever the local variable
    held. *)
Lemma text_load_accepts_missing_numbers :
  constructShapeFromText 0 0 (istream_of ("sphere" +++ endl))
  = ([], Some (Sphere 0), ios.mkIstream "" true true)
  /\ constructShapeFromText 7 0 (istream_of ("sphere" +++ endl))
     = ([], Some (Sphere 7), ios.mkIstream "" true true).
Proof. split; reflexivity. Qed.

Lemma text_load_fails_only_on_its_type_token_witness :
  ios.good (istream_of "cube 1 2 3") = true
  /\ constructShapeFromText 0 0 (istream_of "cube 1 2 3")
     = (logError UNKNOWN_SHAPE_TYPE [ArgStr "cube"], None,
        ios.mkIstream " 1 2 3" false false)
  /\ constructShapeFromText 0 0 (istream_of "sphere") = ([], None, ios.mkIstream "" true false)
  /\ exists shape i2,
       constructShapeFromText 0 0 (istream_of ("box" +++ endl +++ "1 2"))
       = ([], Some shape, i2)
       /\ shape_name shape = "box".
Proof.
  destruct (text_load_fails_only_on_its_type_token 0 0 (istream_of "cube 1 2 3"))
    as (_ & H & _).
  destruct (H eq_refl) as (_ & H2). destruct (H2 eq_refl) as (token & Ht & Hu & _).
  split; [reflexivity|]. split; [|split].
  - inversion Ht; subst token. apply Hu. vm_compute.
    intros [E|[E|[E|[E|[E|[E|[]]]]]]]; discriminate E.
  - destruct (text_load_fails_only_on_its_type_token 0 0 (istream_of "sphere"))
      as (_ & H' & _).
    destruct (H' eq_refl) as (H1' & _). apply H1'. reflexivity.
  - destruct (text_load_fails_only_on_its_type_token 0 0
                (istream_of ("box" +++ endl +++ "1 2")))
      as (_ & H' & _).
    destruct (H' eq_refl) as (_ & H2'). destruct (H2' eq_refl) as (token' & Ht' & _ & Hp).
    inversion Ht'; subst token'. apply Hp. vm_compute. right. left. reflexivity.
Defined.

(** C3, at a sphere whose radius has seven significant digits: [out <<
    radius] writes six of them, so the text of the radius 1234567 is the
    text of the radius 1234570, and the load returns 1234570. The same
    happens to a coordinate of a mesh; its counts and indices come back as
    they were and its normals are computed on load. *)
Lemma text_round_trip_keeps_six_digits :
  saveAsText 0 0 (Sphere 1234567) "" = ([], "sphere" +++ endl +++ "1.23457e+06" +++ endl)
  /\ saveAsText 0 0 (Sphere 1234570) "" = saveAsText 0 0 (Sphere 1234567) ""
  /\ constructShapeFromText 0 0
       (istream_of (snd (saveAsText 0 0 (Sphere 1234567) "")))
     = ([], Some (Sphere 1234570), ios.mkIstream endl false false)
  /\ PrimFloat.eqb 1234570 1234567 = false
  /\ constructShapeFromText 0 0
       (istream_of (snd (saveAsText 0 0 (MeshShape far_triangle) "")))
     = ([], Some (MeshShape far_triangle_in_six_digits), ios.mkIstream endl false false).
Proof. repeat split; vm_compute; reflexivity. Qed.

Lemma far_triangle_wf : Mesh_wf far_triangle.
Proof.
  unfold Mesh_wf, far_triangle; cbn [vertex_count triangle_count vertices triangles].
  repeat match goal with
         | |- _ /\ _ => split
         | |- Forall _ _ => constructor
         | |- _ <= _ => vm_compute; discriminate
         | |- _ < _ => reflexivity
         | |- _ = _ => reflexivity
         end.
Qed.

Lemma text_round_trip_rereads_each_number_witness :
  supported (MeshShape far_triangle)
  /\ reload 0 0 (MeshShape far_triangle) = Some (MeshShape far_triangle_in_six_digits)
  /\ constructShapeFromText 0 0
       (istream_of (snd (saveAsText 0 0 (MeshShape far_triangle) "")))
     = ([], Some (MeshShape far_triangle_in_six_digits), ios.mkIstream endl false false).
Proof.
  assert (Hre : reload 0 0 (MeshShape far_triangle)
                = Some (MeshShape far_triangle_in_six_digits))
    by (vm_compute; reflexivity).
  split; [exact far_triangle_wf|]. split; [exact Hre|].
  exact (proj2 (text_round_trip_rereads_each_number 0 0 (MeshShape far_triangle) _
                  far_triangle_wf Hre)).
Defined.

Lemma soup_is_the_indexed_construction_of_its_distinct_points_witness :
  snd (createMeshFromVertices_soup 0 0 two_triangles)
  = Some (createMeshFromVertices 0 0
            [pt 0 0 0; pt 1 0 0; pt 0 1 0; pt 1 1 0] [0; 1; 2; 1; 2; 3]).
Proof.
  exact (soup_is_the_indexed_construction_of_its_distinct_points 0 0 two_triangles
           ltac:(vm_compute; discriminate) eq_refl two_triangles_no_nan).
Defined.

Lemma message_is_rebuilt_from_its_shape_witness :
  constructMsgFromShape 0 0 (Box 1 2 3) ShapeMsg_0
  = ([], (true, SolidPrimitiveMsg
                  (shape_msgs.mkSolidPrimitive shape_msgs.BOX [1; 2; 3]%float)))
  /\ exists m,
       constructShapeFromMsg 0 0 one_triangle_msg = ([], Some (MeshShape m))
       /\ constructMsgFromShape 0 0 (MeshShape m) ShapeMsg_0
          = ([], (true, one_triangle_msg)).
Proof.
  split.
  - exact (message_is_rebuilt_from_its_shape 0 0 long_box_msg ShapeMsg_0
             (Box 1 2 3) [] I eq_refl).
  - eexists. split; [reflexivity|].
    refine (message_is_rebuilt_from_its_shape 0 0 one_triangle_msg ShapeMsg_0 _ []
              _ eq_refl).
    cbn [ShapeMsg_wf one_triangle_msg shape_msgs.vertices shape_msgs.triangles].
    split; [reflexivity|]. split; [reflexivity|].
    repeat constructor; vm_compute; discriminate.
Defined.

Lemma text_load_returns_the_shape_that_its_token_names_witness :
  fst (ios.extract_string (istream_of ("cone" +++ endl)))
  = Some (shapeStringName "octree" (Some (Cone 0 0))).
Proof.
  exact (proj1 (text_load_returns_the_shape_that_its_token_names 0 0 "octree"
                  (istream_of ("cone" +++ endl)) _ [] (Cone 0 0) eq_refl)).
Defined.

Lemma text_of_a_shape_is_appended_and_loaded_alone_witness :
  saveAsText 0 0 (Box 1 2 3) "sphere" = ([], "sphere" +++ "box" +++ endl +++ "1 2 3" +++ endl)
  /\ constructShapeFromText 0 0
       (ios.mkIstream (" " +++ ("box" +++ endl +++ "1 2 3" +++ endl) +++ "4") false false)
     = ([], Some (Box 1 2 3), ios.mkIstream (endl +++ "4") false false).
Proof.
  exact (text_of_a_shape_is_appended_and_loaded_alone 0 0 (Box 1 2 3) (Box 1 2 3)
           "sphere" " " "4" I eq_refl eq_refl).
Defined.

Lemma shapes_saved_in_a_row_load_in_a_row_witness :
  save_all 0 0 [Sphere 1234567; MeshShape far_triangle; Plane 0 0 1 (-2)] ""
  = "sphere" +++ endl +++ "1.23457e+06" +++ endl
    +++ "mesh" +++ endl +++ "3 1" +++ endl +++ "0 0 0" +++ endl
    +++ "1.23457e+06 0 0" +++ endl +++ "0 1 0" +++ endl +++ "0 1 2" +++ endl
    +++ "plane" +++ endl +++ "0 0 1 -2" +++ endl
  /\ load_all 0 0 3
       (istream_of
          (save_all 0 0 [Sphere 1234567; MeshShape far_triangle; Plane 0 0 1 (-2)] ""))
     = ([Some (Sphere 1234570); Some (MeshShape far_triangle_in_six_digits);
         Some (Plane 0 0 1 (-2))],
        ios.mkIstream endl false false).
Proof.
  split; [vm_compute; reflexivity|].
  refine (shapes_saved_in_a_row_load_in_a_row 0 0
            [Sphere 1234567; MeshShape far_triangle; Plane 0 0 1 (-2)]
            [Sphere 1234570; MeshShape far_triangle_in_six_digits; Plane 0 0 1 (-2)]
            _ _ _).
  - constructor; [exact I|]. constructor; [exact far_triangle_wf|].
    constructor; [exact I|constructor].
  - vm_compute. reflexivity.
  - discriminate.
Defined.

Lemma sample_aiScene_wf : aiScene_wf sample_aiScene.
Proof.
  split.
  - repeat constructor; vm_compute; discriminate.
  - repeat constructor; vm_compute; discriminate.
Qed.

Lemma createMeshFromAsset_takes_the_triangles_of_the_scene_witness :
  exists m,
    createMeshFromAsset_scale 0 0 keep_matrix keep_vector sample_aiScene (pt 2 2 2) "scene"
    = ([], Some m)
    /\ vertex_count m = 6 /\ triangle_count m = 2
    /\ Forall (fun i => 0 <= i < vertex_count m) (triangles m).
Proof.
  destruct (createMeshFromAsset_takes_the_triangles_of_the_scene 0 0 keep_matrix
              keep_vector sample_aiScene (pt 2 2 2) "scene" sample_aiScene_wf
              eq_refl eq_refl) as (_ & _ & _ & H).
  destruct (H ltac:(discriminate) eq_refl eq_refl) as (m & E & Hv & Ht & _ & _ & Hi).
  exists m. split; [exact E|]. split; [exact Hv|]. split; [exact Ht|exact Hi].
Defined.

Lemma createMeshFromAsset_keeps_the_corners_of_the_triangles_witness :
  exists m,
    createMeshFromAsset_scale 0 0 keep_matrix keep_vector sample_aiScene (pt 2 2 2) "scene"
    = ([], Some m)
    /\ map (Mesh_vertex 0 m) (triangles m)
       = [pt 0 0 0; pt 2 0 0; pt 0 2 0; pt 0 0 0; pt 2 0 0; pt 0 2 0].
Proof.
  eexists. split; [reflexivity|].
  exact (createMeshFromAsset_keeps_the_corners_of_the_triangles 0 0 keep_matrix
           keep_vector sample_aiScene (pt 2 2 2) "scene" [] _ sample_aiScene_wf
           eq_refl eq_refl eq_refl).
Defined.

Lemma text_round_trip_is_exact_on_six_digit_integers_witness :
  supported (Plane 0 0 1 (-2))
  /\ Forall six_digit_integer (shape_doubles (Plane 0 0 1 (-2)))
  /\ constructShapeFromText 0 0 (istream_of (snd (saveAsText 0 0 (Plane 0 0 1 (-2)) "")))
     = ([], Some (Plane 0 0 1 (-2)), ios.mkIstream endl false false).
Proof.
  assert (Hd : Forall six_digit_integer (shape_doubles (Plane 0 0 1 (-2)))).
  { cbn [shape_doubles].
    constructor; [exists 0; split; [lia|reflexivity]|].
    constructor; [exists 0; split; [lia|reflexivity]|].
    constructor; [exists 1; split; [lia|reflexivity]|].
    constructor; [exists (-2); split; [lia|reflexivity]|].
    constructor. }
  split; [exact I|]. split; [exact Hd|].
  exact (proj2 (text_round_trip_is_exact_on_six_digit_integers 0 0 (Plane 0 0 1 (-2)) I Hd)).
Defined.
